(** * The cascading subject / topic / subtopic filter of the paper builder

    A shallow embedding of the paper-builder script
    [static/js/create_paper.js] and of the markdown helper of the question
    form that is kept in the same source file.

    - JavaScript [Set] objects are modelled by their [[SetData]] list, with
      emptied slots, so that a live iterator sees later mutations the way
      the language defines it.
    - The page is a record: the global lexical scope (only the bindings that
      hold [Set] objects matter here), the three checkbox containers, the
      messages shown with [alert], the [fetch] calls issued so far, the
      suspended activations of the three [async] loaders, the pending
      timers and the exceptions no handler caught.
    - Synchronous code is written in a small state-and-exception monad; an
      [async] function is split at its [await]s into the code that runs up
      to the next [await], and the event loop interleaves these pieces with
      the listeners.

    The top-level functions of the script read [selectedSubjects],
    [selectedTopics] and [selectedSubtopics] as free identifiers, so what
    they do depends on the global scope they run in.  The script itself
    never puts these names there (its [let] declarations sit inside the
    [DOMContentLoaded] callback, under the comment "Global variables"); the
    scope is therefore a field of the page, and every statement says which
    scopes it is about. *)

From stdpp Require Import base strings list gmap sorting.

(** ** [Set] objects *)

Module JSSet.

(** [[SetData]]: entries in insertion order; [None] is an emptied slot. *)
Definition t : Type := list (option string).

Definition new : t := [].

(** The live values in insertion order ([Array.from(s)], [s.forEach]). *)
Definition values (s : t) : list string := omap id s.

Definition size (s : t) : nat := length (values s).

Definition has (s : t) (v : string) : bool := bool_decide (v ∈ values s).

(** [s.add(v)]: appended at the end unless already present. *)
Definition add (v : string) (s : t) : t :=
  if has s v then s else s ++ [Some v].

(** [s.clear()]: every entry is replaced by the empty marker; the list
    keeps its length, so indices held by iterators stay meaningful. *)
Definition clear (s : t) : t := (λ _, None) <$> s.

(** [items.forEach(v => s.add(v))]. *)
Definition add_all (items : list string) (s : t) : t :=
  foldl (λ acc v, add v acc) s items.

(** One step of a Set iterator standing at index [i]: skip emptied slots,
    return the first live value together with the index after it. *)
Fixpoint scan (entries : t) (i : nat) : option (string * nat) :=
  match entries with
  | [] => None
  | Some v :: _ => Some (v, S i)
  | None :: rest => scan rest (S i)
  end.

Definition next (s : t) (i : nat) : option (string * nat) :=
  scan (drop i s) i.

End JSSet.

(** [Array.prototype.sort()] without a comparator, on an array of strings:
    ascending in the code-unit order of the strings. *)
Definition Array_sort (a : list string) : list string :=
  merge_sort String.le a.

(** ** Backend requests and their outcomes *)

Inductive Request : Type :=
  | GetSubjects
  | GetTopics (subject : string)
  | GetSubtopics (subject topic : string).

Inductive Error : Type :=
  | ReferenceError (name : string)
  | Rejection (message : string).

(** [error.message]. *)
Definition message (e : Error) : string :=
  match e with
  | ReferenceError x => x +:+ " is not defined"
  | Rejection m => m
  end.

(** The parsed body of a response: [result.status], the list carried in
    [result.subjects] / [result.topics] / [result.subtopics], and
    [result.message]. *)
Record Reply : Type := mkReply {
  status : string;
  items : list string;
  note : string
}.

(** What the two awaits of one request ([fetch], then [response.json()])
    deliver: a rejection, or the parsed body. *)
Inductive Outcome : Type :=
  | Rejected (e : Error)
  | Replied (r : Reply).

Definition success (items : list string) : Outcome :=
  Replied (mkReply "success" items "").

(** ** The page *)

Inductive Level : Type := Subject | Topic | Subtopic.

Record Checkbox : Type := mkCheckbox {
  value : string;
  checked : bool
}.

(** What a container shows: a muted text line, the loading indicator with
    its caption, or a row of checkboxes.  A checkbox is built from the
    template [<input ... value="${v}">]; the model takes its value to be the
    identifier [v] that was interpolated. *)
Inductive Container : Type :=
  | Muted (text : string)
  | Spinner (caption : string)
  | Boxes (boxes : list Checkbox).

(** The identifiers a container offers, in display order. *)
Definition options (c : Container) : list string :=
  match c with
  | Boxes boxes => value <$> boxes
  | _ => []
  end.

(** The values of the checked boxes ([querySelectorAll('...:checked')]). *)
Definition checked_values (c : Container) : list string :=
  match c with
  | Boxes boxes => value <$> filter (λ b, checked b = true) boxes
  | _ => []
  end.

(** A suspended activation of an [async] loader, waiting for one request.
    The loops keep the index of their Set iterators and the accumulator. *)
Inductive Task : Type :=
  | LoadSubjects
  | LoadTopics (it : nat) (allTopics : JSSet.t) (subject : string)
  | LoadSubtopics (it : nat) (subject : string) (jt : nat) (topic : string)
                  (allSubtopics : JSSet.t).

Definition awaiting (t : Task) : Request :=
  match t with
  | LoadSubjects => GetSubjects
  | LoadTopics _ _ subject => GetTopics subject
  | LoadSubtopics _ subject _ topic _ => GetSubtopics subject topic
  end.

Record Page : Type := mkPage {
  globals : gmap string JSSet.t;
  subjects : Container;
  topics : Container;
  subtopics : Container;
  alerts : list string;
  fetched : list Request;
  pending : list Task;
  timers : nat;
  was_validated : bool;
  uncaught : list Error
}.

Definition with_globals (g : gmap string JSSet.t) (p : Page) : Page :=
  mkPage g (subjects p) (topics p) (subtopics p) (alerts p) (fetched p)
         (pending p) (timers p) (was_validated p) (uncaught p).
Definition with_subjects (c : Container) (p : Page) : Page :=
  mkPage (globals p) c (topics p) (subtopics p) (alerts p) (fetched p)
         (pending p) (timers p) (was_validated p) (uncaught p).
Definition with_topics (c : Container) (p : Page) : Page :=
  mkPage (globals p) (subjects p) c (subtopics p) (alerts p) (fetched p)
         (pending p) (timers p) (was_validated p) (uncaught p).
Definition with_subtopics (c : Container) (p : Page) : Page :=
  mkPage (globals p) (subjects p) (topics p) c (alerts p) (fetched p)
         (pending p) (timers p) (was_validated p) (uncaught p).
Definition with_alerts (a : list string) (p : Page) : Page :=
  mkPage (globals p) (subjects p) (topics p) (subtopics p) a (fetched p)
         (pending p) (timers p) (was_validated p) (uncaught p).
Definition with_fetched (f : list Request) (p : Page) : Page :=
  mkPage (globals p) (subjects p) (topics p) (subtopics p) (alerts p) f
         (pending p) (timers p) (was_validated p) (uncaught p).
Definition with_pending (t : list Task) (p : Page) : Page :=
  mkPage (globals p) (subjects p) (topics p) (subtopics p) (alerts p)
         (fetched p) t (timers p) (was_validated p) (uncaught p).
Definition with_timers (n : nat) (p : Page) : Page :=
  mkPage (globals p) (subjects p) (topics p) (subtopics p) (alerts p)
         (fetched p) (pending p) n (was_validated p) (uncaught p).
Definition with_was_validated (b : bool) (p : Page) : Page :=
  mkPage (globals p) (subjects p) (topics p) (subtopics p) (alerts p)
         (fetched p) (pending p) (timers p) b (uncaught p).
Definition with_uncaught (u : list Error) (p : Page) : Page :=
  mkPage (globals p) (subjects p) (topics p) (subtopics p) (alerts p)
         (fetched p) (pending p) (timers p) (was_validated p) u.

(** ** Synchronous code: state and exceptions *)

Inductive Completion (A : Type) : Type :=
  | Normal (a : A)
  | Throw (e : Error).
Arguments Normal {A} a.
Arguments Throw {A} e.

Definition JS (A : Type) : Type := Page → Completion A * Page.

Definition ret {A} (a : A) : JS A := λ p, (Normal a, p).
Definition throw {A} (e : Error) : JS A := λ p, (Throw e, p).
Definition bind {A B} (m : JS A) (k : A → JS B) : JS B :=
  λ p, match m p with
       | (Normal a, p') => k a p'
       | (Throw e, p') => (Throw e, p')
       end.
Definition try_catch {A} (m : JS A) (h : Error → JS A) : JS A :=
  λ p, match m p with
       | (Normal a, p') => (Normal a, p')
       | (Throw e, p') => h e p'
       end.
Definition modify (f : Page → Page) : JS unit := λ p, (Normal tt, f p).
Definition read {A} (f : Page → A) : JS A := λ p, (Normal (f p), p).

Global Instance JS_ret : MRet JS := @ret.
Global Instance JS_bind : MBind JS := λ A B k m, bind m k.

Fixpoint for_each {A} (l : list A) (f : A → JS unit) : JS unit :=
  match l with
  | [] => ret tt
  | x :: rest => f x ;; for_each rest f
  end.

(** The page after a piece of code has run, however it completed. *)
Definition after {A} (m : JS A) (p : Page) : Page := snd (m p).

(** ** The paper-builder script *)

Definition showError (m : string) : JS unit :=
  modify (λ p, with_alerts (alerts p ++ [m]) p).

(** The row of unticked checkboxes that the three [render...] functions
    build from an array (lines 53-73, 139-159, 226-246), or the muted line
    they show instead when the array is empty. *)
Definition fresh_boxes (vs : list string) : Container :=
  Boxes ((λ v, mkCheckbox v false) <$> vs).

Definition rendered (empty_text : string) (vs : list string) : Container :=
  if decide (length vs = 0) then Muted empty_text else fresh_boxes vs.

(** *** Names and Set objects

    The handlers and loaders are declared at the top level of the script, so
    a free identifier in their bodies is looked up in the global scope when
    the statement runs; an unbound name raises a [ReferenceError].  Each of
    the three names is bound at most once and never reassigned, so a name
    stands for one Set object and a mutation through it is seen by every
    iterator over that object. *)

Definition selectedSubjects : string := "selectedSubjects".
Definition selectedTopics : string := "selectedTopics".
Definition selectedSubtopics : string := "selectedSubtopics".

Definition resolve (x : string) : JS JSSet.t :=
  λ p, match globals p !! x with
       | Some s => (Normal s, p)
       | None => (Throw (ReferenceError x), p)
       end.

Definition store (x : string) (s : JSSet.t) : JS unit :=
  modify (λ p, with_globals (<[x:=s]> (globals p)) p).

Definition Set_clear (x : string) : JS unit :=
  s ← resolve x; store x (JSSet.clear s).
Definition Set_add (x : string) (v : string) : JS unit :=
  s ← resolve x; store x (JSSet.add v s).
Definition Set_size (x : string) : JS nat :=
  s ← resolve x; mret (JSSet.size s).

(** [await fetch(url)] followed by [await response.json()]: the request is
    issued and the activation is parked until the outcome arrives. *)
Definition suspend (t : Task) : JS unit :=
  modify (λ p, with_pending (pending p ++ [t])
                 (with_fetched (fetched p ++ [awaiting t]) p)).

Definition await (o : Outcome) : JS Reply :=
  match o with
  | Rejected e => throw e
  | Replied r => mret r
  end.

(** *** [loadSubjects] (lines 26-39), [renderSubjects] (lines 44-79) *)

Definition renderSubjects (vs : list string) : JS unit :=
  modify (with_subjects (rendered "No subjects available" vs)).

Definition loadSubjects : JS unit := suspend LoadSubjects.

Definition loadSubjects_resume (o : Outcome) : JS unit :=
  try_catch
    (result ← await o;
     if decide (status result = "success") then renderSubjects (items result)
     else showError ("Failed to load subjects: " +:+ note result))
    (λ error, showError ("Network error: " +:+ message error)).

(** *** [renderTopics] (lines 130-165), [clearTopics] (lines 252-254),
    [loadTopics] (lines 103-125) *)

Definition renderTopics (vs : list string) : JS unit :=
  modify (with_topics
            (rendered "No topics available for selected subjects" vs)).

Definition clearTopics : JS unit :=
  modify (with_topics (Muted "Select subjects first to see available topics")).

(** The [for ... of selectedSubjects] loop from iterator position [it] on:
    either the next request is issued and the activation is parked, or the
    loop is over and the sorted accumulator is rendered.  A resumed
    activation goes on with the iterator it holds; the model finds the Set
    of that iterator again under its name, which no step of the event loop
    unbinds or rebinds. *)
Definition loadTopics_loop (it : nat) (allTopics : JSSet.t) : JS unit :=
  s ← resolve selectedSubjects;
  match JSSet.next s it with
  | Some (subject, it') => suspend (LoadTopics it' allTopics subject)
  | None => renderTopics (Array_sort (JSSet.values allTopics))
  end.

Definition loadTopics_catch (error : Error) : JS unit :=
  showError ("Error loading topics: " +:+ message error).

Definition loadTopics : JS unit :=
  try_catch
    (modify (with_topics (Spinner "Loading topics...")) ;;
     loadTopics_loop 0 JSSet.new)
    loadTopics_catch.

Definition loadTopics_resume (it : nat) (allTopics : JSSet.t) (o : Outcome)
  : JS unit :=
  try_catch
    (result ← await o;
     loadTopics_loop it
       (if decide (status result = "success")
        then JSSet.add_all (items result) allTopics
        else allTopics))
    loadTopics_catch.

(** *** [renderSubtopics] (lines 217-247), [clearSubtopics] (lines 259-261),
    [loadSubtopics] (lines 188-212) *)

Definition renderSubtopics (vs : list string) : JS unit :=
  modify (with_subtopics
            (rendered "No subtopics available for selected topics" vs)).

Definition clearSubtopics : JS unit :=
  modify (with_subtopics
            (Muted "Select topics first to see available subtopics")).

(** The outer loop over the remaining entries of [selectedSubjects]: for
    each live subject a fresh iterator over [selectedTopics] is started. *)
Fixpoint loadSubtopics_scan (entries : JSSet.t) (it : nat)
    (allSubtopics : JSSet.t) : JS unit :=
  match entries with
  | [] => renderSubtopics (Array_sort (JSSet.values allSubtopics))
  | None :: rest => loadSubtopics_scan rest (S it) allSubtopics
  | Some subject :: rest =>
      t ← resolve selectedTopics;
      match JSSet.next t 0 with
      | Some (topic, jt) =>
          suspend (LoadSubtopics (S it) subject jt topic allSubtopics)
      | None => loadSubtopics_scan rest (S it) allSubtopics
      end
  end.

Definition loadSubtopics_outer (it : nat) (allSubtopics : JSSet.t) : JS unit :=
  s ← resolve selectedSubjects;
  loadSubtopics_scan (drop it s) it allSubtopics.

(** The inner loop for [subject] from position [jt] of [selectedTopics]. *)
Definition loadSubtopics_inner (it : nat) (subject : string) (jt : nat)
    (allSubtopics : JSSet.t) : JS unit :=
  t ← resolve selectedTopics;
  match JSSet.next t jt with
  | Some (topic, jt') =>
      suspend (LoadSubtopics it subject jt' topic allSubtopics)
  | None => loadSubtopics_outer it allSubtopics
  end.

Definition loadSubtopics_catch (error : Error) : JS unit :=
  showError ("Error loading subtopics: " +:+ message error).

Definition loadSubtopics : JS unit :=
  try_catch
    (modify (with_subtopics (Spinner "Loading subtopics...")) ;;
     loadSubtopics_outer 0 JSSet.new)
    loadSubtopics_catch.

Definition loadSubtopics_resume (it : nat) (subject : string) (jt : nat)
    (allSubtopics : JSSet.t) (o : Outcome) : JS unit :=
  try_catch
    (result ← await o;
     loadSubtopics_inner it subject jt
       (if decide (status result = "success")
        then JSSet.add_all (items result) allSubtopics
        else allSubtopics))
    loadSubtopics_catch.

(** *** The change handlers (lines 84-98 and 170-183) *)

Definition handleSubjectChange : JS unit :=
  Set_clear selectedSubjects ;;
  vs ← read (λ p, checked_values (subjects p));
  for_each vs (Set_add selectedSubjects) ;;
  n ← Set_size selectedSubjects;
  if decide (0 < n) then loadTopics
  else (clearTopics ;; clearSubtopics).

Definition handleTopicChange : JS unit :=
  Set_clear selectedTopics ;;
  vs ← read (λ p, checked_values (topics p));
  for_each vs (Set_add selectedTopics) ;;
  n ← Set_size selectedTopics;
  if decide (0 < n) then loadSubtopics
  else clearSubtopics.

(** *** Form reset (lines 504-513) *)

(** The arrow function handed to [setTimeout]. *)
Definition reset_callback : JS unit :=
  Set_clear selectedSubjects ;;
  Set_clear selectedTopics ;;
  Set_clear selectedSubtopics ;;
  clearTopics ;;
  clearSubtopics ;;
  modify (with_was_validated false).

Definition handleFormReset : JS unit :=
  modify (λ p, with_timers (S (timers p)) p).

(** *** The [DOMContentLoaded] callback (lines 3-21)

    It starts [loadSubjects], registers the form listeners, and declares its
    four [let] variables.  Those are bindings of the callback's own scope:
    the result below is that scope, and no function is created inside the
    callback that could keep it alive. *)
Definition on_DOMContentLoaded : JS (gmap string JSSet.t) :=
  loadSubjects ;;
  mret (<[selectedSubjects := JSSet.new]>
          (<[selectedTopics := JSSet.new]>
             (<[selectedSubtopics := JSSet.new]> ∅))).

(** ** The event loop *)

(** Running a listener or resuming an activation from the event loop: an
    exception that escapes is reported and the page keeps the state reached
    when it was raised. *)
Definition dispatch {A} (m : JS A) (p : Page) : Page :=
  match m p with
  | (Normal _, p') => p'
  | (Throw e, p') => with_uncaught (uncaught p' ++ [e]) p'
  end.

Definition resume (t : Task) (o : Outcome) : JS unit :=
  match t with
  | LoadSubjects => loadSubjects_resume o
  | LoadTopics it allTopics _ => loadTopics_resume it allTopics o
  | LoadSubtopics it subject jt _ allSubtopics =>
      loadSubtopics_resume it subject jt allSubtopics o
  end.

(** The user clicks the [i]-th checkbox of a container. *)
Definition toggle (i : nat) (c : Container) : option Container :=
  match c with
  | Boxes boxes =>
      b ← boxes !! i;
      Some (Boxes (<[i := mkCheckbox (value b) (negb (checked b))]> boxes))
  | _ => None
  end.

(** What the event loop can run next: the [DOMContentLoaded] callback; the
    change listener of the [i]-th checkbox of a level, after the click has
    flipped the box (the Subject and Topic boxes get their listener when
    they are rendered, lines 76-78 and 162-164; Subtopic boxes have none);
    the continuation of the [k]-th parked activation, with the outcome of
    the request it waits for; the reset listener of the form; the callback
    of a timer set by that listener. *)
Inductive Event : Type :=
  | Loaded
  | Change (l : Level) (i : nat)
  | Settle (k : nat) (o : Outcome)
  | FormReset
  | TimerFires.

(** The request awaited by the [k]-th parked activation is answered. *)
Definition settle (k : nat) (o : Outcome) (p : Page) : Page :=
  match pending p !! k with
  | Some t => dispatch (resume t o) (with_pending (delete k (pending p)) p)
  | None => p
  end.

Definition step (e : Event) (p : Page) : Page :=
  match e with
  | Loaded => dispatch on_DOMContentLoaded p
  | Change Subject i =>
      match toggle i (subjects p) with
      | Some c => dispatch handleSubjectChange (with_subjects c p)
      | None => p
      end
  | Change Topic i =>
      match toggle i (topics p) with
      | Some c => dispatch handleTopicChange (with_topics c p)
      | None => p
      end
  | Change Subtopic i =>
      match toggle i (subtopics p) with
      | Some c => with_subtopics c p
      | None => p
      end
  | Settle k o => settle k o p
  | FormReset => dispatch handleFormReset p
  | TimerFires =>
      match timers p with
      | 0 => p
      | S n => dispatch reset_callback (with_timers n p)
      end
  end.

Definition run (es : list Event) (p : Page) : Page :=
  foldl (λ q e, step e q) p es.

(** Uninterrupted completion: every parked activation is answered by the
    backend, oldest first, until none is left or the fuel runs out. *)
Fixpoint drain (backend : Request → Outcome) (fuel : nat) (p : Page) : Page :=
  match fuel with
  | 0 => p
  | S fuel' =>
      match pending p with
      | [] => p
      | t :: _ => drain backend fuel' (settle 0 (backend (awaiting t)) p)
      end
  end.

(** What an uninterrupted loop makes of a list of requests: the requests it
    issues, and the accumulator it ends with or the rejection that stops it. *)
Fixpoint gather (backend : Request → Outcome) (reqs : list Request)
    (acc : JSSet.t) : list Request * Completion JSSet.t :=
  match reqs with
  | [] => ([], Normal acc)
  | r :: rest =>
      match backend r with
      | Rejected e => ([r], Throw e)
      | Replied result =>
          let '(issued, res) :=
            gather backend rest
              (if decide (status result = "success")
               then JSSet.add_all (items result) acc else acc) in
          (r :: issued, res)
      end
  end.

(** ** Pages used below *)

(** A freshly served document: static text in the three containers,
    nothing ticked, nothing in flight.  [g] is the global scope the
    document gives to the script. *)
Definition blank (g : gmap string JSSet.t) : Page :=
  mkPage g (Muted "") (Muted "") (Muted "") [] [] [] 0 false [].

(** A global scope in which the three Set objects are visible. *)
Definition sets_global : gmap string JSSet.t :=
  <[selectedSubjects := JSSet.new]>
    (<[selectedTopics := JSSet.new]> (<[selectedSubtopics := JSSet.new]> ∅)).

(** The document once [loadSubjects] has rendered Math and Physics. *)
Definition catalog (g : gmap string JSSet.t) : Page :=
  run [Loaded; Settle 0 (success ["Math"; "Physics"])] (blank g).

Definition failure (m : string) : Outcome :=
  Replied (mkReply "error" [] m).

Definition school (r : Request) : Outcome :=
  match r with
  | GetSubjects => success ["Math"; "Physics"]
  | GetTopics s =>
      if decide (s = "Math") then success ["Algebra"; "Geometry"]
      else if decide (s = "Physics") then success ["Mechanics"; "Algebra"]
      else success []
  | GetSubtopics s t =>
      if decide (t = "Algebra") then success ["Linear"; "Quadratic"]
      else success []
  end.

(** The same backend, except that the Math topics query reports an
    application-level error. *)
Definition school_math_down (r : Request) : Outcome :=
  match r with
  | GetTopics s =>
      if decide (s = "Math") then failure "database unavailable"
      else school r
  | _ => school r
  end.

(** The same backend, except that every topics query is rejected. *)
Definition school_offline (r : Request) : Outcome :=
  match r with
  | GetTopics _ => Rejected (Rejection "Failed to fetch")
  | _ => school r
  end.

(** Math and Physics are ticked one after the other; every refresh
    completes before the next click. *)
Definition both_ticked (g : gmap string JSSet.t) : Page :=
  drain school 2
    (step (Change Subject 1)
       (drain school 1 (step (Change Subject 0) (catalog g)))).

(** Math is ticked and its topics are on display. *)
Definition math_ticked (g : gmap string JSSet.t) : Page :=
  drain school 1 (step (Change Subject 0) (catalog g)).

(** Then Algebra is ticked, its subtopics are on display, and the
    subtopic Linear is ticked. *)
Definition linear_ticked (g : gmap string JSSet.t) : Page :=
  step (Change Subtopic 0)
    (drain school 1 (step (Change Topic 0) (math_ticked g))).

(** Math and Physics are ticked, then Algebra; its subtopics are on
    display. *)
Definition algebra_ticked (g : gmap string JSSet.t) : Page :=
  drain school 2 (step (Change Topic 0) (both_ticked g)).

(** Two overlapping Topic refreshes.  Starting with Math ticked, Physics is
    ticked (first refresh, for Math and Physics) and Math is unticked before
    any answer has arrived (second refresh, for Physics alone). *)
Definition overlap : Page :=
  run [Change Subject 1; Change Subject 0] (math_ticked sets_global).

(** ** Invariants of the event loop *)

(** [m] never makes a property of the page false. *)
Definition preserves {A} (P : Page → Prop) (m : JS A) : Prop :=
  ∀ p, P p → P (after m p).

Definition bound (x : string) (p : Page) : Prop := is_Some (globals p !! x).

(** As long as [selectedSubjects] is not a global, nothing is offered below
    the subjects and only [loadSubjects] can be in flight. *)
Definition unbound_idle (p : Page) : Prop :=
  globals p !! selectedSubjects = None →
  options (topics p) = [] ∧ options (subtopics p) = [] ∧
  Forall (λ t, t = LoadSubjects) (pending p).

(** A document as served: no topic or subtopic on offer, nothing in
    flight. *)
Definition served (p : Page) : Prop :=
  options (topics p) = [] ∧ options (subtopics p) = [] ∧ pending p = [].

(** The selection a change handler leaves in its Set. *)
Definition reselect (x : string) (vs : list string) (s : JSSet.t) (p : Page)
  : Page :=
  with_globals (<[x := JSSet.add_all vs (JSSet.clear s)]> (globals p)) p.

(** First-occurrence deduplication, the order in which a Set built from a
    list keeps its values. *)
Definition distinct (vs : list string) : list string :=
  JSSet.values (JSSet.add_all vs JSSet.new).

(** The requests of a Subtopic refresh, in the order of the nested loops. *)
Definition subtopic_requests (ss ts : list string) : list Request :=
  s ← ss; GetSubtopics s <$> ts.

(** The page an uninterrupted Topic refresh ends in. *)
Definition topics_settled (backend : Request → Outcome)
    (reqs : list Request) (acc : JSSet.t) (p : Page) : Page :=
  let '(issued, res) := gather backend reqs acc in
  let q := with_fetched (fetched p ++ issued) p in
  match res with
  | Normal acc' => after (renderTopics (Array_sort (JSSet.values acc'))) q
  | Throw e => after (loadTopics_catch e) q
  end.

(** The page an uninterrupted Subtopic refresh ends in. *)
Definition subtopics_settled (backend : Request → Outcome)
    (reqs : list Request) (acc : JSSet.t) (p : Page) : Page :=
  let '(issued, res) := gather backend reqs acc in
  let q := with_fetched (fetched p ++ issued) p in
  match res with
  | Normal acc' => after (renderSubtopics (Array_sort (JSSet.values acc'))) q
  | Throw e => after (loadSubtopics_catch e) q
  end.

(** [start], drained with [fuel], is on its way to [final]: with [n] answers
    or more it gets there, it gets there as soon as nothing is parked, and
    until then the container [c] shows [shown]. *)
Definition settles_to (backend : Request → Outcome) (fuel n : nat)
    (c : Page → Container) (shown : Container) (start final : Page) : Prop :=
  let q := drain backend fuel start in
  (n ≤ fuel → q = final) ∧
  (pending q = [] → q = final) ∧
  (pending q ≠ [] → c q = shown).

(** Pages on which the two Sets are [s] and [t] and nothing is parked. *)
Definition ready (s t : JSSet.t) (p : Page) : Prop :=
  globals p !! selectedSubjects = Some s ∧
  globals p !! selectedTopics = Some t ∧
  pending p = [].

(** ** The markdown helper of the question form *)

Module QuestionForm.

Record Textarea : Type := mkTextarea {
  value : string;
  selectionStart : nat;
  selectionEnd : nat
}.

(** What the preview pane shows: the prompt to type something, or what the
    external [marked.parse] makes of a markdown text. *)
Inductive Preview : Type :=
  | Prompt
  | Parsed (markdown : string).

Record Form : Type := mkForm {
  markdownInput : Textarea;
  markdownPreview : Preview;
  focused : bool
}.

(** [s.substring(a, b)]: both indices are clamped to the length and
    swapped when out of order. *)
Definition substring (s : string) (a b : nat) : string :=
  let n := String.length s in
  let a' := a `min` n in
  let b' := b `min` n in
  String.substring (a' `min` b') ((a' `max` b') - (a' `min` b')) s.

(** [s.substring(a)]: up to the end. *)
Definition substring_from (s : string) (a : nat) : string :=
  substring s a (String.length s).

Fixpoint trim_start (s : string) : string :=
  match s with
  | String a rest => if Ascii.is_space a then trim_start rest else s
  | EmptyString => EmptyString
  end.

Definition trim (s : string) : string :=
  String.rev (trim_start (String.rev (trim_start s))).

(** [setSelectionRange(a, b)]: the end is clamped to the length of the
    text and the start to the end. *)
Definition setSelectionRange (a b : nat) (t : Textarea) : Textarea :=
  let e := b `min` String.length (value t) in
  mkTextarea (value t) (a `min` e) e.

(** Assigning to [value]: the new value, with the cursor moved to its
    end. *)
Definition set_value (v : string) : Textarea :=
  mkTextarea v (String.length v) (String.length v).

(** [updateMarkdownPreview] (lines 930-946). *)
Definition updateMarkdownPreview (f : Form) : Form :=
  let markdownText := trim (value (markdownInput f)) in
  mkForm (markdownInput f)
         (if decide (markdownText = "") then Prompt else Parsed markdownText)
         (focused f).

(** [insertMarkdownFormat] (lines 1106-1123). *)
Definition insertMarkdownFormat (before after : string) (f : Form) : Form :=
  let input := markdownInput f in
  let start := selectionStart input in
  let end_ := selectionEnd input in
  let selectedText := substring (value input) start end_ in
  let replacement := before +:+ selectedText +:+ after in
  let input1 :=
    set_value
      (substring (value input) 0 start +:+ replacement +:+
       substring_from (value input) end_) in
  let newCursorPos :=
    start + String.length before + String.length selectedText
    + String.length after in
  let input2 := setSelectionRange newCursorPos newCursorPos input1 in
  let f1 := updateMarkdownPreview (mkForm input2 (markdownPreview f) (focused f)) in
  mkForm (markdownInput f1) (markdownPreview f1) true.

(** The question value [2 + 2] with the first character selected. *)
Definition sample : Form :=
  mkForm (mkTextarea "2 + 2" 0 1) (Parsed "2 + 2") true.

End QuestionForm.


(** ** Further notions about the event loop *)

(** The three Set objects are all visible as globals. *)
Definition all_bound (p : Page) : Prop :=
  bound selectedSubjects p ∧ bound selectedTopics p ∧
  bound selectedSubtopics p.

(** On pages with property [P], [m] completes normally. *)
Definition normal_on {A} (P : Page → Prop) (m : JS A) : Prop :=
  ∀ p, P p → ∃ a, fst (m p) = Normal a.

(** [m] leaves the requests alone. *)
Definition quiet {A} (m : JS A) : Prop :=
  ∀ ts rs, preserves (λ q, pending q = ts ∧ fetched q = rs) m.

(** [m] issues at most [n] requests, and parks one activation for each. *)
Definition issues {A} (n : nat) (m : JS A) : Prop :=
  ∀ p, ∃ ts, length ts ≤ n ∧
    pending (after m p) = pending p ++ ts ∧
    fetched (after m p) = fetched p ++ map awaiting ts.

Definition math_loading : Page :=
  step (Change Subject 0) (catalog sets_global).


(** * The practice page

    The second script of the source file (lines 521-882) drives the
    students' practice page: a tree of subjects, topics and subtopics in the
    sidebar, and a main area that shows the welcome text, the list of
    questions of the subtopic clicked, or one question in detail.

    - The functions of the script assign to [currentSelection] and
      [currentQuestions], whose [let] declarations sit inside the
      [DOMContentLoaded] callback and are out of their reach.  Assigning to
      a name that is not bound creates a global variable in sloppy mode and
      raises a [ReferenceError] in strict mode.  The script has no
      strict-mode directive, so it runs in sloppy mode when the page loads
      it as a classic script ([goBackToList], which has no caller in the
      script, is there to be called by name from the page) and in strict
      mode when it is loaded as a module; the mode is a field of the state.
    - The state holds the elements the script touches, the messages written
      with [console.error] and [alert], the [fetch] calls issued, the
      activations of the three [async] loaders that wait for an answer, and
      the calls made on the modals created over [#loadingModal].
    - The three loaders catch every exception of their bodies, and their
      [catch] blocks cannot throw; the exceptions the model needs are the
      rejection of an awaited promise and the [ReferenceError] of an
      assignment in strict mode.
    - A reply carries [status] and [message] and the field its endpoint
      fills ([tree], [questions] or [question]); object fields are listed
      the way [Object.entries] enumerates them, and interpolated values are
      kept as the text they are shown as. *)

From stdpp Require Import pretty.

Module Practice.

Record Question : Type := mkQuestion {
  question_id : string;
  title : string;
  question_type : string;
  difficulty_level : string;
  estimated_time : string;
  bloom_level : string;
  content : string
}.

(** [result.tree]: subject, then topic, then subtopic with its count. *)
Definition Tree : Type :=
  list (string * list (string * list (string * string))).

Record Reply : Type := mkReply {
  status : string;
  note : string;
  tree : Tree;
  questions : list Question;
  question : Question
}.

Inductive Outcome : Type :=
  | Rejected (e : Error)
  | Replied (r : Reply).

Inductive Request : Type :=
  | GetTree
  | GetQuestions (subject topic subtopic : string)
  | GetQuestion (questionId : string).

(** The object [{ subject, topic, subtopic }]. *)
Record Selection : Type := mkSelection {
  sel_subject : string;
  sel_topic : string;
  sel_subtopic : string
}.

(** The [clickHandler] closures that [renderQuestionTree] creates. *)
Inductive Handler : Type :=
  | Noop
  | LoadQuestionsOf (subject topic subtopic : string).

(** A [div.tree-node]; [listeners] holds the click handler of a node that
    got its three listeners (lines 606-628). *)
Record Node : Type := mkNode {
  className : string;
  icon : string;
  text : string;
  cursor : string;
  active : bool;
  backgroundColor : string;
  listeners : option Handler
}.

(** A topic node with the subtopic nodes of its container, and a subject
    node with the topic nodes of its container. *)
Record TopicElement : Type := mkTopicElement {
  topic_node : Node;
  subtopic_nodes : list Node
}.

Record SubjectElement : Type := mkSubjectElement {
  subject_node : Node;
  topic_elements : list TopicElement
}.

(** A [div.question-card] with the question its click listener loads. *)
Record Card : Type := mkCard {
  shown : Question;
  transform : string;
  boxShadow : string
}.

(** [#questions-container]: the heading, the note shown for an empty
    category, and the cards. *)
Record Listing : Type := mkListing {
  heading : string;
  empty_note : bool;
  cards : list Card
}.

(** The elements that [renderQuestionDetail] fills; [question_content] is
    the markdown source whose rendering by [marked.parse], or the notice
    of its failure, is shown. *)
Record DetailView : Type := mkDetailView {
  question_title : string;
  question_type_detail : string;
  question_difficulty_detail : string;
  question_time_detail : string;
  question_bloom_detail : string;
  question_content : string
}.

Inductive ModalCall : Type := Show | Hide.

(** An activation parked at its [await], with the locals it still uses. *)
Inductive Task : Type :=
  | LoadQuestionTree
  | LoadQuestions (subject topic subtopic : string)
  | LoadQuestionDetail (questionId : string) (loadingModal : nat).

Definition awaiting (t : Task) : Request :=
  match t with
  | LoadQuestionTree => GetTree
  | LoadQuestions subject topic subtopic =>
      GetQuestions subject topic subtopic
  | LoadQuestionDetail questionId _ => GetQuestion questionId
  end.

(** The [style.display] of [#loading-tree], [#question-tree],
    [#welcome-message], [#question-list] and [#question-detail] are kept
    as the strings the script assigns.  [currentSelection] and
    [currentQuestions] are the global variables of these names, [None]
    while the name is not bound. *)
Record State : Type := mkState {
  strict : bool;
  question_tree : list SubjectElement;
  loading_tree : string;
  question_tree_display : string;
  welcome_message : string;
  question_list : string;
  question_detail : string;
  questions_container : Listing;
  question_count_badge : string;
  detail : DetailView;
  modals : nat;
  modal_log : list (nat * ModalCall);
  console : list string;
  alerts : list string;
  fetched : list Request;
  pending : list Task;
  currentSelection : option Selection;
  currentQuestions : option (list Question)
}.

Definition with_question_tree (x : list SubjectElement) (p : State) : State :=
  mkState (strict p) x (loading_tree p) (question_tree_display p)
    (welcome_message p) (question_list p) (question_detail p)
    (questions_container p) (question_count_badge p) (detail p) (modals
    p) (modal_log p) (console p) (alerts p) (fetched p) (pending p)
    (currentSelection p) (currentQuestions p).
Definition with_loading_tree (x : string) (p : State) : State :=
  mkState (strict p) (question_tree p) x (question_tree_display p)
    (welcome_message p) (question_list p) (question_detail p)
    (questions_container p) (question_count_badge p) (detail p) (modals
    p) (modal_log p) (console p) (alerts p) (fetched p) (pending p)
    (currentSelection p) (currentQuestions p).
Definition with_question_tree_display (x : string) (p : State) : State :=
  mkState (strict p) (question_tree p) (loading_tree p) x
    (welcome_message p) (question_list p) (question_detail p)
    (questions_container p) (question_count_badge p) (detail p) (modals
    p) (modal_log p) (console p) (alerts p) (fetched p) (pending p)
    (currentSelection p) (currentQuestions p).
Definition with_welcome_message (x : string) (p : State) : State :=
  mkState (strict p) (question_tree p) (loading_tree p)
    (question_tree_display p) x (question_list p) (question_detail p)
    (questions_container p) (question_count_badge p) (detail p) (modals
    p) (modal_log p) (console p) (alerts p) (fetched p) (pending p)
    (currentSelection p) (currentQuestions p).
Definition with_question_list (x : string) (p : State) : State :=
  mkState (strict p) (question_tree p) (loading_tree p)
    (question_tree_display p) (welcome_message p) x (question_detail p)
    (questions_container p) (question_count_badge p) (detail p) (modals
    p) (modal_log p) (console p) (alerts p) (fetched p) (pending p)
    (currentSelection p) (currentQuestions p).
Definition with_question_detail (x : string) (p : State) : State :=
  mkState (strict p) (question_tree p) (loading_tree p)
    (question_tree_display p) (welcome_message p) (question_list p) x
    (questions_container p) (question_count_badge p) (detail p) (modals
    p) (modal_log p) (console p) (alerts p) (fetched p) (pending p)
    (currentSelection p) (currentQuestions p).
Definition with_questions_container (x : Listing) (p : State) : State :=
  mkState (strict p) (question_tree p) (loading_tree p)
    (question_tree_display p) (welcome_message p) (question_list p)
    (question_detail p) x (question_count_badge p) (detail p) (modals p)
    (modal_log p) (console p) (alerts p) (fetched p) (pending p)
    (currentSelection p) (currentQuestions p).
Definition with_question_count_badge (x : string) (p : State) : State :=
  mkState (strict p) (question_tree p) (loading_tree p)
    (question_tree_display p) (welcome_message p) (question_list p)
    (question_detail p) (questions_container p) x (detail p) (modals p)
    (modal_log p) (console p) (alerts p) (fetched p) (pending p)
    (currentSelection p) (currentQuestions p).
Definition with_detail (x : DetailView) (p : State) : State :=
  mkState (strict p) (question_tree p) (loading_tree p)
    (question_tree_display p) (welcome_message p) (question_list p)
    (question_detail p) (questions_container p) (question_count_badge p)
    x (modals p) (modal_log p) (console p) (alerts p) (fetched p)
    (pending p) (currentSelection p) (currentQuestions p).
Definition with_modals (x : nat) (p : State) : State :=
  mkState (strict p) (question_tree p) (loading_tree p)
    (question_tree_display p) (welcome_message p) (question_list p)
    (question_detail p) (questions_container p) (question_count_badge p)
    (detail p) x (modal_log p) (console p) (alerts p) (fetched p)
    (pending p) (currentSelection p) (currentQuestions p).
Definition with_modal_log (x : list (nat * ModalCall)) (p : State) : State :=
  mkState (strict p) (question_tree p) (loading_tree p)
    (question_tree_display p) (welcome_message p) (question_list p)
    (question_detail p) (questions_container p) (question_count_badge p)
    (detail p) (modals p) x (console p) (alerts p) (fetched p) (pending
    p) (currentSelection p) (currentQuestions p).
Definition with_console (x : list string) (p : State) : State :=
  mkState (strict p) (question_tree p) (loading_tree p)
    (question_tree_display p) (welcome_message p) (question_list p)
    (question_detail p) (questions_container p) (question_count_badge p)
    (detail p) (modals p) (modal_log p) x (alerts p) (fetched p)
    (pending p) (currentSelection p) (currentQuestions p).
Definition with_alerts (x : list string) (p : State) : State :=
  mkState (strict p) (question_tree p) (loading_tree p)
    (question_tree_display p) (welcome_message p) (question_list p)
    (question_detail p) (questions_container p) (question_count_badge p)
    (detail p) (modals p) (modal_log p) (console p) x (fetched p)
    (pending p) (currentSelection p) (currentQuestions p).
Definition with_fetched (x : list Request) (p : State) : State :=
  mkState (strict p) (question_tree p) (loading_tree p)
    (question_tree_display p) (welcome_message p) (question_list p)
    (question_detail p) (questions_container p) (question_count_badge p)
    (detail p) (modals p) (modal_log p) (console p) (alerts p) x
    (pending p) (currentSelection p) (currentQuestions p).
Definition with_pending (x : list Task) (p : State) : State :=
  mkState (strict p) (question_tree p) (loading_tree p)
    (question_tree_display p) (welcome_message p) (question_list p)
    (question_detail p) (questions_container p) (question_count_badge p)
    (detail p) (modals p) (modal_log p) (console p) (alerts p) (fetched
    p) x (currentSelection p) (currentQuestions p).
Definition with_currentSelection (x : option Selection) (p : State) : State :=
  mkState (strict p) (question_tree p) (loading_tree p)
    (question_tree_display p) (welcome_message p) (question_list p)
    (question_detail p) (questions_container p) (question_count_badge p)
    (detail p) (modals p) (modal_log p) (console p) (alerts p) (fetched
    p) (pending p) x (currentQuestions p).
Definition with_currentQuestions (x : option (list Question)) (p : State) : State :=
  mkState (strict p) (question_tree p) (loading_tree p)
    (question_tree_display p) (welcome_message p) (question_list p)
    (question_detail p) (questions_container p) (question_count_badge p)
    (detail p) (modals p) (modal_log p) (console p) (alerts p) (fetched
    p) (pending p) (currentSelection p) x.

(** ** The script *)

(** [showError] (lines 840-844). *)
Definition showError (m : string) (p : State) : State :=
  with_alerts (alerts p ++ [m]) (with_console (console p ++ [m]) p).

(** [showWelcomeMessage], [showQuestionList], [showQuestionDetail]
    (lines 819-835). *)
Definition showWelcomeMessage (show : bool) : State → State :=
  with_welcome_message (if show then "block" else "none").
Definition showQuestionList (show : bool) : State → State :=
  with_question_list (if show then "block" else "none").
Definition showQuestionDetail (show : bool) : State → State :=
  with_question_detail (if show then "block" else "none").

(** [goBackToList] (lines 811-814). *)
Definition goBackToList (p : State) : State :=
  showQuestionList true (showQuestionDetail false p).

(** [await fetch(...)] and [await response.json()]: the request goes out
    and the activation is parked. *)
Definition suspend (t : Task) (p : State) : State :=
  with_pending (pending p ++ [t])
    (with_fetched (fetched p ++ [awaiting t]) p).

(** *** The tree (lines 559-643) *)

Definition getIconForType (type : string) : string :=
  if decide (type = "subject") then "bi-book"
  else if decide (type = "topic") then "bi-bookmark"
  else if decide (type = "subtopic") then "bi-bookmark-fill"
  else "bi-circle".

Definition createTreeNode (text type : string) (clickHandler : Handler)
  : Node :=
  mkNode ("tree-node tree-" +:+ type +:+ " p-2 mb-1 rounded")
         (getIconForType type) text
         (if decide (type = "subtopic") then "pointer" else "")
         false ""
         (if decide (type = "subtopic") then Some clickHandler else None).

Definition renderQuestionTree (tree : Tree) : list SubjectElement :=
  (λ '(subject, topics),
     mkSubjectElement (createTreeNode subject "subject" Noop)
       ((λ '(topic, subtopics),
           mkTopicElement (createTreeNode topic "topic" Noop)
             ((λ '(subtopic, count),
                 createTreeNode (subtopic +:+ " (" +:+ count +:+ ")")
                   "subtopic" (LoadQuestionsOf subject topic subtopic))
                <$> subtopics))
          <$> topics))
    <$> tree.

(** [document.querySelectorAll('.tree-node')], in document order. *)
Definition tree_nodes (t : list SubjectElement) : list Node :=
  s ← t;
  subject_node s ::
    (e ← topic_elements s; topic_node e :: subtopic_nodes e).

(** Doing [f] to every tree node, and to the subtopic node at a path. *)
Definition each_node (f : Node → Node) (t : list SubjectElement)
  : list SubjectElement :=
  (λ s, mkSubjectElement (f (subject_node s))
          ((λ e, mkTopicElement (f (topic_node e)) (f <$> subtopic_nodes e))
             <$> topic_elements s)) <$> t.

Definition node_at (i j k : nat) (t : list SubjectElement) : option Node :=
  s ← t !! i; e ← topic_elements s !! j; subtopic_nodes e !! k.

Definition alter_node (f : Node → Node) (i j k : nat)
    (t : list SubjectElement) : list SubjectElement :=
  alter (λ s, mkSubjectElement (subject_node s)
                (alter (λ e, mkTopicElement (topic_node e)
                               (alter f k (subtopic_nodes e)))
                   j (topic_elements s))) i t.

Definition with_active (b : bool) (n : Node) : Node :=
  mkNode (className n) (icon n) (text n) (cursor n) b (backgroundColor n)
         (listeners n).
Definition with_backgroundColor (c : string) (n : Node) : Node :=
  mkNode (className n) (icon n) (text n) (cursor n) (active n) c
         (listeners n).

(** *** [loadQuestionTree] (lines 539-554) *)

Definition loadQuestionTree : State → State := suspend LoadQuestionTree.

Definition loadQuestionTree_resume (o : Outcome) (p : State) : State :=
  match o with
  | Replied result =>
      if decide (status result = "success") then
        with_question_tree_display "block"
          (with_loading_tree "none"
             (with_question_tree (renderQuestionTree (tree result)) p))
      else showError ("Failed to load question tree: " +:+ note result) p
  | Rejected error => showError ("Network error: " +:+ message error) p
  end.

(** *** [loadQuestions] (lines 648-677), [renderQuestionList]
    (lines 682-760) *)

Definition renderQuestionList (questions : list Question)
    (subject topic subtopic : string) (p : State) : State :=
  let p1 :=
    with_question_count_badge
      (pretty (length questions) +:+ " question" +:+
       (if decide (length questions ≠ 1) then "s" else "")) p in
  let heading := subject +:+ " > " +:+ topic +:+ " > " +:+ subtopic in
  if decide (length questions = 0) then
    with_questions_container (mkListing heading true []) p1
  else
    with_questions_container
      (mkListing heading false ((λ q, mkCard q "" "") <$> questions)) p1.

(** The two assignments to names the script does not declare at the top
    level (lines 651 and 668): the state after the assignment, or the
    exception. *)
Definition assign_currentSelection (v : Selection) (p : State)
  : Error + State :=
  if strict p && bool_decide (currentSelection p = None)
  then inl (ReferenceError "currentSelection")
  else inr (with_currentSelection (Some v) p).

Definition assign_currentQuestions (v : list Question) (p : State)
  : Error + State :=
  if strict p && bool_decide (currentQuestions p = None)
  then inl (ReferenceError "currentQuestions")
  else inr (with_currentQuestions (Some v) p).

Definition loadQuestions (subject topic subtopic : string) (p : State)
  : State :=
  match assign_currentSelection (mkSelection subject topic subtopic) p with
  | inr p1 =>
      suspend (LoadQuestions subject topic subtopic)
        (showQuestionDetail false
           (showQuestionList false (showWelcomeMessage false p1)))
  | inl error => showError ("Network error: " +:+ message error) p
  end.

Definition loadQuestions_resume (subject topic subtopic : string)
    (o : Outcome) (p : State) : State :=
  match o with
  | Replied result =>
      if decide (status result = "success") then
        match assign_currentQuestions (questions result) p with
        | inr p1 =>
            showQuestionList true
              (renderQuestionList (questions result) subject topic subtopic
                 p1)
        | inl error => showError ("Network error: " +:+ message error) p
        end
      else showError ("Failed to load questions: " +:+ note result) p
  | Rejected error => showError ("Network error: " +:+ message error) p
  end.

(** *** [loadQuestionDetail] (lines 765-786), [renderQuestionDetail]
    (lines 791-806) *)

Definition renderQuestionDetail (q : Question) : State → State :=
  with_detail
    (mkDetailView (title q) (question_type q) (difficulty_level q)
       (estimated_time q) (bloom_level q) (content q)).

(** Each call makes a modal object of its own over [#loadingModal]; the
    objects are numbered in the order they are made. *)
Definition loadQuestionDetail (questionId : string) (p : State) : State :=
  let loadingModal := modals p in
  suspend (LoadQuestionDetail questionId loadingModal)
    (with_modal_log (modal_log p ++ [(loadingModal, Show)])
       (with_modals (S (modals p)) p)).

Definition loadQuestionDetail_resume (loadingModal : nat) (o : Outcome)
    (p : State) : State :=
  match o with
  | Replied result =>
      let p1 := with_modal_log (modal_log p ++ [(loadingModal, Hide)]) p in
      if decide (status result = "success") then
        showQuestionList false
          (showQuestionDetail true
             (renderQuestionDetail (question result) p1))
      else showError ("Failed to load question: " +:+ note result) p1
  | Rejected error => showError ("Network error: " +:+ message error) p
  end.

(** ** Listeners and the event loop *)

(** The listeners that [createTreeNode] gives a subtopic node
    (lines 608-627). *)
Definition run_handler (h : Handler) : State → State :=
  match h with
  | Noop => λ p, p
  | LoadQuestionsOf subject topic subtopic =>
      loadQuestions subject topic subtopic
  end.

Definition node_click (i j k : nat) (clickHandler : Handler) (p : State)
  : State :=
  run_handler clickHandler
    (with_question_tree
       (alter_node (with_active true) i j k
          (each_node (with_active false) (question_tree p))) p).

Definition node_mouseenter (n : Node) : Node :=
  if active n then n else with_backgroundColor "rgba(88, 166, 255, 0.1)" n.

Definition node_mouseleave (n : Node) : Node :=
  if active n then n else with_backgroundColor "" n.

(** The listeners of a question card (lines 745-756). *)
Definition card_mouseenter (c : Card) : Card :=
  mkCard (shown c) "translateY(-2px)" "0 4px 15px rgba(0, 0, 0, 0.1)".

Definition card_mouseleave (c : Card) : Card :=
  mkCard (shown c) "" "".

Definition alter_card (f : Card → Card) (i : nat) (p : State) : State :=
  let l := questions_container p in
  with_questions_container
    (mkListing (heading l) (empty_note l) (alter f i (cards l))) p.

Definition resume (t : Task) (o : Outcome) : State → State :=
  match t with
  | LoadQuestionTree => loadQuestionTree_resume o
  | LoadQuestions subject topic subtopic =>
      loadQuestions_resume subject topic subtopic o
  | LoadQuestionDetail _ loadingModal =>
      loadQuestionDetail_resume loadingModal o
  end.

(** What can happen on the page: the document is loaded; the pointer
    clicks, enters or leaves the subtopic node at a path of the tree or
    a question card; the page calls [goBackToList]; the request of the
    [k]-th parked activation is settled. *)
Inductive Event : Type :=
  | Loaded
  | ClickNode (i j k : nat)
  | EnterNode (i j k : nat)
  | LeaveNode (i j k : nat)
  | ClickCard (i : nat)
  | EnterCard (i : nat)
  | LeaveCard (i : nat)
  | Back
  | Settle (k : nat) (o : Outcome).

Definition step (e : Event) (p : State) : State :=
  match e with
  | Loaded => loadQuestionTree p
  | ClickNode i j k =>
      match node_at i j k (question_tree p) ≫= listeners with
      | Some clickHandler => node_click i j k clickHandler p
      | None => p
      end
  | EnterNode i j k =>
      match node_at i j k (question_tree p) ≫= listeners with
      | Some _ =>
          with_question_tree
            (alter_node node_mouseenter i j k (question_tree p)) p
      | None => p
      end
  | LeaveNode i j k =>
      match node_at i j k (question_tree p) ≫= listeners with
      | Some _ =>
          with_question_tree
            (alter_node node_mouseleave i j k (question_tree p)) p
      | None => p
      end
  | ClickCard i =>
      match cards (questions_container p) !! i with
      | Some c => loadQuestionDetail (question_id (shown c)) p
      | None => p
      end
  | EnterCard i => alter_card card_mouseenter i p
  | LeaveCard i => alter_card card_mouseleave i p
  | Back => goBackToList p
  | Settle k o =>
      match pending p !! k with
      | Some t => resume t o (with_pending (delete k (pending p)) p)
      | None => p
      end
  end.

Definition run (es : list Event) (p : State) : State :=
  foldl (λ q e, step e q) p es.

(** ** Notions used in the statements *)

(** An answer that is not a success: the request was rejected, or the
    reply has another status. *)
Definition failed (o : Outcome) : Prop :=
  match o with
  | Rejected _ => True
  | Replied r => status r ≠ "success"
  end.

(** Modal objects are numbered as they are made: the numbers in use are
    below the next one. *)
Definition modals_fresh (p : State) : Prop :=
  (∀ questionId m, LoadQuestionDetail questionId m ∈ pending p →
                   m < modals p) ∧
  (∀ m c, (m, c) ∈ modal_log p → m < modals p).

(** ** Sample pages *)

Definition no_question : Question := mkQuestion "" "" "" "" "" "" "".

(** The page as it is served to a classic script: the welcome text and
    the spinner of the tree are shown. *)
Definition served : State :=
  mkState false [] "block" "none" "block" "none" "none"
          (mkListing "" false [])
          "" (mkDetailView "" "" "" "" "" "") 0 [] [] [] [] [] None None.

(** The same page served to a script that runs in strict mode. *)
Definition served_strict : State :=
  mkState true [] "block" "none" "block" "none" "none"
          (mkListing "" false [])
          "" (mkDetailView "" "" "" "" "" "") 0 [] [] [] [] [] None None.

Definition school_tree : Tree :=
  [("Math", [("Algebra", [("Linear", "2"); ("Quadratic", "1")]);
             ("Geometry", [("Circles", "0")])]);
   ("Physics", [("Optics", [("Lenses", "1")])])].

Definition tree_reply : Reply :=
  mkReply "success" "" school_tree [] no_question.

Definition linear_questions : list Question :=
  [mkQuestion "q1" "Lines" "MCQ" "Easy" "5" "Apply" "Solve *x*";
   mkQuestion "q2" "Slopes" "MCQ" "Hard" "9" "Analyze" "Find the slope"].

Definition questions_reply (qs : list Question) : Reply :=
  mkReply "success" "" [] qs no_question.

(** The tree has arrived. *)
Definition browsing : State :=
  run [Loaded; Settle 0 (Replied tree_reply)] served.

(** The questions of Math > Algebra > Linear are listed. *)
Definition listing : State :=
  run [ClickNode 0 0 0; Settle 0 (Replied (questions_reply linear_questions))]
      browsing.

End Practice.


(** * The paper form: criteria, generation and saving

    The rest of the paper-builder script (lines 266-499): the submit
    listener of the form with [collectFormData], and [savePaper].

    - The builder is the page of the cascading filter together with the
      other controls of the form, the submit button, the container of the
      results, the requests posted and the activations waiting for their
      answers.
    - [handleFormSubmit] and [savePaper] are top-level functions, and they
      use [currentPaperData] and [resultsModal] as free identifiers.  The
      script declares both inside the [DOMContentLoaded] callback (lines 9
      and 17), where the top-level functions cannot see them, so what these
      functions do depends on the global scope, which is a field of the
      builder here as well: [currentPaperData] may be unbound or hold a
      value, [resultsModal] may be unbound, hold a modal object, or hold
      something that has no [show] method (a browser makes the element with
      the id [resultsModal] a property of the global object).  Assigning to
      an unbound name creates a global variable in sloppy mode and raises a
      [ReferenceError] in strict mode; the script has no directive, so the
      mode depends on how the page loads it and is a field too.
    - Numbers read with [parseInt] are kept as exact integers, [NaN] as
      [None]; white space and letter case are those of ASCII.
    - [displayResults] (lines 366-461) fills [#modal-results] with markup
      made from the reply; the model keeps the reply that was rendered. *)

Module PaperForm.
Import Stdlib.Strings.Ascii.

(** ** [parseInt] and a few string methods *)

(** The value of [c] as a digit of the given radix. *)
Definition digit (radix : Z) (c : ascii) : option Z :=
  let n := Z.of_nat (nat_of_ascii c) in
  v ← (if decide (48 ≤ n ≤ 57)%Z then Some (n - 48)%Z
       else if decide (97 ≤ n ≤ 122)%Z then Some (n - 87)%Z
       else if decide (65 ≤ n ≤ 90)%Z then Some (n - 55)%Z
       else None);
  if decide (v < radix)%Z then Some v else None.

(** The number written by the longest prefix of digits; [acc] is the
    number read so far, [None] before the first digit. *)
Fixpoint digits (radix : Z) (s : string) (acc : option Z) : option Z :=
  match s with
  | String c rest =>
      match digit radix c with
      | Some d => digits radix rest (Some (radix * default 0 acc + d))%Z
      | None => acc
      end
  | EmptyString => acc
  end.

(** [parseInt(s)]: leading white space, a sign, [0x] or [0X] for radix
    16, then as many digits as there are; [None] is [NaN]. *)
Definition parseInt (s : string) : option Z :=
  let s := QuestionForm.trim_start s in
  let '(sign, s) :=
    match s with
    | String "-" rest => ((-1)%Z, rest)
    | String "+" rest => (1%Z, rest)
    | _ => (1%Z, s)
    end in
  let '(radix, s) :=
    match s with
    | String "0" (String "x" rest) => (16%Z, rest)
    | String "0" (String "X" rest) => (16%Z, rest)
    | _ => (10%Z, s)
    end in
  (λ n, sign * n)%Z <$> digits radix s None.

(** [x || d] for a number [x]: [NaN] and zero are falsy. *)
Definition or_default (x : option Z) (d : Z) : Z :=
  match x with
  | Some n => if decide (n = 0)%Z then d else n
  | None => d
  end.

(** [s.replace(pattern, '')]: the first occurrence is taken out. *)
Fixpoint remove_first (pattern s : string) : string :=
  if String.prefix pattern s then
    String.substring (String.length pattern)
      (String.length s - String.length pattern) s
  else
    match s with
    | String c rest => String c (remove_first pattern rest)
    | EmptyString => EmptyString
    end.

Definition toUpperCase (c : ascii) : ascii :=
  let n := nat_of_ascii c in
  if decide (97 ≤ n ≤ 122) then ascii_of_nat (n - 32) else c.

(** [level.charAt(0).toUpperCase() + level.slice(1)]. *)
Definition capitalize (level : string) : string :=
  match level with
  | String c rest => String (toUpperCase c) rest
  | EmptyString => EmptyString
  end.

(** ** Replies, requests and the builder *)

(** The parsed body of a reply of [/api/paper/generate] or
    [/api/paper/save]: [status], [message], [file_path], and the
    metadata and questions of a generated paper taken together. *)
Record Result : Type := mkResult {
  result_status : string;
  result_message : string;
  file_path : string;
  paper : string
}.

Inductive PaperOutcome : Type :=
  | Refused (e : Error)
  | Received (r : Result).

(** The object that [collectFormData] builds.  [max_time] is absent,
    [NaN] or a number; [difficulty_distribution] is absent or an object
    from level names to counts. *)
Record Criteria : Type := mkCriteria {
  total_questions : Z;
  max_time : option (option Z);
  include_ai_generated : bool;
  criteria_subjects : list string;
  criteria_topics : list string;
  criteria_subtopics : list string;
  difficulty_distribution : option (gmap string Z);
  question_types : list string;
  bloom_levels : list string
}.

Inductive Post : Type :=
  | Generate (criteria : Criteria)
  | Save (paper_data : Result) (filename : string).

(** What a global name can hold. *)
Inductive Data : Type :=
  | Null
  | Paper (r : Result).

Inductive Binding : Type :=
  | NotAModal (complaint : string)
  | AModal.

(** An exception: one of those of the filter, or the [TypeError] for
    calling what is not a function, with the message of the engine. *)
Inductive Thrown : Type :=
  | Raised (e : Error)
  | TypeError (text : string).

Definition thrown_message (t : Thrown) : string :=
  match t with
  | Raised e => message e
  | TypeError text => text
  end.

(** The [innerHTML] of the submit button: markup of the page, or the
    hourglass icon with a caption. *)
Inductive Label : Type :=
  | Markup (html : string)
  | Hourglass (caption : string).

Inductive Results : Type :=
  | NoResults
  | Rendered (r : Result).

(** A parked activation of [handleFormSubmit], which still needs
    [originalText], or of [savePaper]. *)
Inductive Activation : Type :=
  | Generating (originalText : Label)
  | Saving.

Record Builder : Type := mkBuilder {
  page : Page;
  strict : bool;
  currentPaperData : option Data;
  resultsModal : option Binding;
  total_questions_input : string;
  max_time_input : string;
  include_ai_generated_input : bool;
  difficulty_inputs : list (string * string);
  question_type_checks : list Checkbox;
  bloom_level_checks : list Checkbox;
  submit_disabled : bool;
  submit_label : Label;
  modal_results : Results;
  shown : nat;
  posted : list Post;
  parked : list Activation
}.

Definition with_page (x : Page) (b : Builder) : Builder :=
  mkBuilder x (strict b) (currentPaperData b) (resultsModal b)
    (total_questions_input b) (max_time_input b)
    (include_ai_generated_input b) (difficulty_inputs b)
    (question_type_checks b) (bloom_level_checks b) (submit_disabled b)
    (submit_label b) (modal_results b) (shown b) (posted b) (parked b).
Definition with_currentPaperData (x : option Data) (b : Builder) : Builder :=
  mkBuilder (page b) (strict b) x (resultsModal b)
    (total_questions_input b) (max_time_input b)
    (include_ai_generated_input b) (difficulty_inputs b)
    (question_type_checks b) (bloom_level_checks b) (submit_disabled b)
    (submit_label b) (modal_results b) (shown b) (posted b) (parked b).
Definition with_submit_disabled (x : bool) (b : Builder) : Builder :=
  mkBuilder (page b) (strict b) (currentPaperData b) (resultsModal b)
    (total_questions_input b) (max_time_input b)
    (include_ai_generated_input b) (difficulty_inputs b)
    (question_type_checks b) (bloom_level_checks b) x (submit_label b)
    (modal_results b) (shown b) (posted b) (parked b).
Definition with_submit_label (x : Label) (b : Builder) : Builder :=
  mkBuilder (page b) (strict b) (currentPaperData b) (resultsModal b)
    (total_questions_input b) (max_time_input b)
    (include_ai_generated_input b) (difficulty_inputs b)
    (question_type_checks b) (bloom_level_checks b) (submit_disabled b)
    x (modal_results b) (shown b) (posted b) (parked b).
Definition with_modal_results (x : Results) (b : Builder) : Builder :=
  mkBuilder (page b) (strict b) (currentPaperData b) (resultsModal b)
    (total_questions_input b) (max_time_input b)
    (include_ai_generated_input b) (difficulty_inputs b)
    (question_type_checks b) (bloom_level_checks b) (submit_disabled b)
    (submit_label b) x (shown b) (posted b) (parked b).
Definition with_shown (x : nat) (b : Builder) : Builder :=
  mkBuilder (page b) (strict b) (currentPaperData b) (resultsModal b)
    (total_questions_input b) (max_time_input b)
    (include_ai_generated_input b) (difficulty_inputs b)
    (question_type_checks b) (bloom_level_checks b) (submit_disabled b)
    (submit_label b) (modal_results b) x (posted b) (parked b).
Definition with_posted (x : list Post) (b : Builder) : Builder :=
  mkBuilder (page b) (strict b) (currentPaperData b) (resultsModal b)
    (total_questions_input b) (max_time_input b)
    (include_ai_generated_input b) (difficulty_inputs b)
    (question_type_checks b) (bloom_level_checks b) (submit_disabled b)
    (submit_label b) (modal_results b) (shown b) x (parked b).
Definition with_parked (x : list Activation) (b : Builder) : Builder :=
  mkBuilder (page b) (strict b) (currentPaperData b) (resultsModal b)
    (total_questions_input b) (max_time_input b)
    (include_ai_generated_input b) (difficulty_inputs b)
    (question_type_checks b) (bloom_level_checks b) (submit_disabled b)
    (submit_label b) (modal_results b) (shown b) (posted b) x.

Definition on_page (f : Page → Page) (b : Builder) : Builder :=
  with_page (f (page b)) b.

(** ** The script *)

Definition showError (m : string) : Builder → Builder :=
  on_page (after (showError m)).

Definition alert (m : string) : Builder → Builder :=
  on_page (λ p, with_alerts (alerts p ++ [m]) p).

Definition checked_of (boxes : list Checkbox) : list string :=
  value <$> filter (λ c, checked c = true) boxes.

(** One step of the loop over the difficulty inputs (lines 343-349).
    Assigning a number to the key [__proto__] of an object adds no
    property. *)
Definition add_difficulty (distribution : gmap string Z)
    (input : string * string) : gmap string Z :=
  let level := remove_first "difficulty_" input.1 in
  let count := or_default (parseInt input.2) 0%Z in
  if decide (0 < count)%Z then
    if decide (capitalize level = "__proto__") then distribution
    else <[capitalize level := count]> distribution
  else distribution.

(** [collectFormData] (lines 325-361). *)
Definition collectFormData (b : Builder) : Criteria :=
  let maxTime := max_time_input b in
  let difficultyDistribution :=
    foldl add_difficulty ∅ (difficulty_inputs b) in
  mkCriteria
    (or_default (parseInt (total_questions_input b)) 10%Z)
    (if decide (maxTime = "") then None else Some (parseInt maxTime))
    (include_ai_generated_input b)
    (checked_values (subjects (page b)))
    (checked_values (topics (page b)))
    (checked_values (subtopics (page b)))
    (if decide (difficultyDistribution = ∅) then None
     else Some difficultyDistribution)
    (checked_of (question_type_checks b))
    (checked_of (bloom_level_checks b)).

(** [handleFormSubmit] (lines 266-320) up to its [await]; [valid] is what
    [form.checkValidity()] returns. *)
Definition handleFormSubmit (valid : bool) (b : Builder) : Builder :=
  let b := on_page (with_was_validated true) b in
  if negb valid then b
  else
    let criteria := collectFormData b in
    if decide (total_questions criteria ≤ 0)%Z then
      showError "Please specify a valid number of questions" b
    else
      let originalText := submit_label b in
      let b :=
        with_submit_label (Hourglass "Generating Paper...")
          (with_submit_disabled true b) in
      with_parked (parked b ++ [Generating originalText])
        (with_posted (posted b ++ [Generate criteria]) b).

(** [currentPaperData = result] (line 306). *)
Definition assign_currentPaperData (result : Result) (b : Builder)
  : Builder * option Thrown :=
  match currentPaperData b with
  | None =>
      if strict b then (b, Some (Raised (ReferenceError "currentPaperData")))
      else (with_currentPaperData (Some (Paper result)) b, None)
  | Some _ => (with_currentPaperData (Some (Paper result)) b, None)
  end.

Definition displayResults (result : Result) : Builder → Builder :=
  with_modal_results (Rendered result).

(** [resultsModal.show()] (line 308). *)
Definition show_resultsModal (b : Builder) : Builder * option Thrown :=
  match resultsModal b with
  | None => (b, Some (Raised (ReferenceError "resultsModal")))
  | Some (NotAModal complaint) => (b, Some (TypeError complaint))
  | Some AModal => (with_shown (S (shown b)) b, None)
  end.

(** The [try] block after the [await] (lines 303-311): the builder it
    leaves and the exception it ends with, if any. *)
Definition generated (o : PaperOutcome) (b : Builder)
  : Builder * option Thrown :=
  match o with
  | Refused e => (b, Some (Raised e))
  | Received result =>
      if decide (result_status result = "success" ∨
                 result_status result = "warning") then
        match assign_currentPaperData result b with
        | (b1, Some error) => (b1, Some error)
        | (b1, None) => show_resultsModal (displayResults result b1)
        end
      else
        (showError ("Failed to generate paper: " +:+ result_message result)
           b, None)
  end.

(** The rest of [handleFormSubmit]: [try], [catch] and [finally]. *)
Definition handleFormSubmit_resume (originalText : Label)
    (o : PaperOutcome) (b : Builder) : Builder :=
  let b1 :=
    match generated o b with
    | (b', Some error) =>
        showError ("Network error: " +:+ thrown_message error) b'
    | (b', None) => b'
    end in
  with_submit_label originalText (with_submit_disabled false b1).

(** [savePaper] (lines 466-499) up to its [await]; [answer] is what
    [prompt] returns.  The first statement reads [currentPaperData]
    outside the [try]: when the name is unbound the function ends with
    an exception that nothing catches. *)
Definition savePaper (answer : option string) (b : Builder) : Builder :=
  match currentPaperData b with
  | None =>
      on_page (λ p, with_uncaught
                      (uncaught p ++ [ReferenceError "currentPaperData"]) p)
        b
  | Some Null => showError "No paper data to save" b
  | Some (Paper data) =>
      match answer with
      | None => b
      | Some filename =>
          if decide (filename = "") then b
          else
            with_parked (parked b ++ [Saving])
              (with_posted (posted b ++ [Save data filename]) b)
      end
  end.

Definition savePaper_resume (o : PaperOutcome) (b : Builder) : Builder :=
  match o with
  | Refused e => showError ("Error saving paper: " +:+ message e) b
  | Received result =>
      if decide (result_status result = "success") then
        alert ("Paper saved successfully to: " +:+ file_path result) b
      else
        showError ("Failed to save paper: " +:+ result_message result) b
  end.

(** ** Events *)

Definition resume (a : Activation) (o : PaperOutcome)
  : Builder → Builder :=
  match a with
  | Generating originalText => handleFormSubmit_resume originalText o
  | Saving => savePaper_resume o
  end.

(** An event of the filter; the form is submitted; the save button is
    clicked and the prompt answered; the request of the [k]-th parked
    activation is settled. *)
Inductive FormEvent : Type :=
  | OnPage (e : Event)
  | Submit (valid : bool)
  | ClickSave (answer : option string)
  | Answer (k : nat) (o : PaperOutcome).

Definition handle (e : FormEvent) (b : Builder) : Builder :=
  match e with
  | OnPage e => on_page (step e) b
  | Submit valid => handleFormSubmit valid b
  | ClickSave answer => savePaper answer b
  | Answer k o =>
      match parked b !! k with
      | Some a => resume a o (with_parked (delete k (parked b)) b)
      | None => b
      end
  end.

Definition handle_all (es : list FormEvent) (b : Builder) : Builder :=
  foldl (λ q e, handle e q) b es.

(** ** Sample builders *)

(** The form as the script finds it, on a page that binds none of the
    names: ten questions asked for, Math ticked. *)
Definition fresh : Builder :=
  mkBuilder (math_ticked ∅) false None None "10" "" false
    [("difficulty_easy", "3"); ("difficulty_hard", "0")]
    [mkCheckbox "MCQ" true; mkCheckbox "Essay" false] []
    false (Markup "Generate Paper") NoResults 0 [] [].

Definition generated_paper : Result :=
  mkResult "success" "Paper generated" "" "10 questions".

End PaperForm.


(** * Properties *)


Set Warnings "-clear-no-such-hyp".

(** ** Set objects *)

Section set_facts.
Implicit Types (s : JSSet.t) (v x : string) (vs : list string).

Lemma values_app s1 s2 :
  JSSet.values (s1 ++ s2) = JSSet.values s1 ++ JSSet.values s2.
Proof. unfold JSSet.values. apply omap_app. Qed.

Lemma values_clear s : JSSet.values (JSSet.clear s) = [].
Proof. induction s as [|e s IH]; [done|]. by destruct e. Qed.

Lemma size_clear s : JSSet.size (JSSet.clear s) = 0.
Proof. unfold JSSet.size. by rewrite values_clear. Qed.

Lemma values_add v s :
  JSSet.values (JSSet.add v s) =
    if decide (v ∈ JSSet.values s) then JSSet.values s
    else JSSet.values s ++ [v].
Proof.
  unfold JSSet.add, JSSet.has.
  destruct (decide (v ∈ JSSet.values s)) as [Hin|Hin].
  - by rewrite bool_decide_eq_true_2.
  - rewrite bool_decide_eq_false_2 by done. by rewrite values_app.
Qed.

Lemma elem_of_values_add x v s :
  x ∈ JSSet.values (JSSet.add v s) ↔ x = v ∨ x ∈ JSSet.values s.
Proof.
  rewrite values_add. case_decide; [|rewrite elem_of_app, list_elem_of_singleton];
    naive_solver.
Qed.

Lemma NoDup_values_add v s :
  NoDup (JSSet.values s) → NoDup (JSSet.values (JSSet.add v s)).
Proof.
  intros Hnd. rewrite values_add. case_decide; [done|].
  apply NoDup_app. split_and!; [done| |apply NoDup_singleton].
  intros y Hy ->%list_elem_of_singleton. done.
Qed.

Lemma elem_of_values_add_all x vs s :
  x ∈ JSSet.values (JSSet.add_all vs s) ↔ x ∈ vs ∨ x ∈ JSSet.values s.
Proof.
  unfold JSSet.add_all. revert s.
  induction vs as [|v vs IH]; intros s; simpl.
  - rewrite elem_of_nil. naive_solver.
  - rewrite IH, elem_of_values_add, elem_of_cons. naive_solver.
Qed.

Lemma NoDup_values_add_all vs s :
  NoDup (JSSet.values s) → NoDup (JSSet.values (JSSet.add_all vs s)).
Proof.
  unfold JSSet.add_all. revert s.
  induction vs as [|v vs IH]; intros s Hnd; simpl; [done|].
  by apply IH, NoDup_values_add.
Qed.

(** Only the live values of a Set matter for what [add] makes of it. *)
Lemma values_add_all_proper vs s1 s2 :
  JSSet.values s1 = JSSet.values s2 →
  JSSet.values (JSSet.add_all vs s1) = JSSet.values (JSSet.add_all vs s2).
Proof.
  unfold JSSet.add_all. revert s1 s2.
  induction vs as [|v vs IH]; intros s1 s2 Heq; simpl; [done|].
  apply IH. by rewrite !values_add, Heq.
Qed.

Lemma values_add_all_clear vs s :
  JSSet.values (JSSet.add_all vs (JSSet.clear s)) = distinct vs.
Proof. apply values_add_all_proper. by rewrite values_clear. Qed.

Lemma elem_of_distinct x vs : x ∈ distinct vs ↔ x ∈ vs.
Proof.
  unfold distinct. rewrite elem_of_values_add_all.
  unfold JSSet.values, JSSet.new; simpl. rewrite elem_of_nil. naive_solver.
Qed.

Lemma NoDup_distinct vs : NoDup (distinct vs).
Proof. apply NoDup_values_add_all. constructor. Qed.

Lemma distinct_nil_inv vs : distinct vs = [] → vs = [].
Proof.
  intros Hd. destruct vs as [|v vs]; [done|].
  assert (v ∈ distinct (v :: vs)) as Hin by (apply elem_of_distinct; left).
  rewrite Hd in Hin. by apply elem_of_nil in Hin.
Qed.

Lemma length_distinct vs : length (distinct vs) ≤ length vs.
Proof.
  apply submseteq_length, NoDup_submseteq; [apply NoDup_distinct|].
  intros x. apply elem_of_distinct.
Qed.

(** The iterator and the list of live values. *)
Lemma scan_values entries i :
  match JSSet.scan entries i with
  | Some (v, j) =>
      ∃ k, j = i + S k ∧ JSSet.values entries = v :: JSSet.values (drop (S k) entries)
  | None => JSSet.values entries = []
  end.
Proof.
  revert i. induction entries as [|[v|] rest IH]; intros i; simpl.
  - done.
  - exists 0. split; [lia|]. by rewrite drop_0.
  - specialize (IH (S i)). destruct (JSSet.scan rest (S i)) as [[v j]|]; [|done].
    destruct IH as (k & -> & Hv). exists (S k). split; [lia|]. exact Hv.
Qed.

Lemma next_values s i :
  match JSSet.next s i with
  | Some (v, j) =>
      i < j ∧ JSSet.values (drop i s) = v :: JSSet.values (drop j s)
  | None => JSSet.values (drop i s) = []
  end.
Proof.
  unfold JSSet.next. pose proof (scan_values (drop i s) i) as H.
  destruct (JSSet.scan (drop i s) i) as [[v j]|]; [|done].
  destruct H as (k & -> & Hv). split; [lia|].
  by rewrite Hv, drop_drop.
Qed.
End set_facts.

(** ** The monad *)

Section monad_facts.
Context {A B : Type}.
Implicit Types (m : JS A) (k : A → JS B) (p : Page).

Lemma bind_normal m k p a p' : m p = (Normal a, p') → (m ≫= k) p = k a p'.
Proof. unfold mbind, JS_bind, bind. by intros ->. Qed.

Lemma bind_throw m k p e p' :
  m p = (Throw e, p') → (m ≫= k) p = (Throw e, p').
Proof. unfold mbind, JS_bind, bind. by intros ->. Qed.

Lemma resolve_bound x s p :
  globals p !! x = Some s → resolve x p = (Normal s, p).
Proof. unfold resolve. by intros ->. Qed.

Lemma resolve_unbound x p :
  globals p !! x = None → resolve x p = (Throw (ReferenceError x), p).
Proof. unfold resolve. by intros ->. Qed.
End monad_facts.

(** Composition rules for properties that a piece of code keeps true. *)
Section preserves_facts.
Context (P : Page → Prop).

Lemma preserves_ret {A} (a : A) : preserves P (mret a).
Proof. by intros p. Qed.

Lemma preserves_throw {A} e : preserves P (@throw A e).
Proof. by intros p. Qed.

Lemma preserves_read {A} (f : Page → A) : preserves P (read f).
Proof. by intros p. Qed.

Lemma preserves_modify f : (∀ p, P p → P (f p)) → preserves P (modify f).
Proof. intros Hf p. apply Hf. Qed.

Lemma preserves_bind {A B} (m : JS A) (k : A → JS B) :
  preserves P m → (∀ a, preserves P (k a)) → preserves P (m ≫= k).
Proof.
  intros Hm Hk p Hp. specialize (Hm p Hp).
  unfold after, mbind, JS_bind, bind in *.
  destruct (m p) as [[a|e] p']; simpl in *; [by apply Hk|done].
Qed.

Lemma preserves_try_catch {A} (m : JS A) h :
  preserves P m → (∀ e, preserves P (h e)) → preserves P (try_catch m h).
Proof.
  intros Hm Hh p Hp. specialize (Hm p Hp).
  unfold after, try_catch in *.
  destruct (m p) as [[a|e] p']; simpl in *; [done|by apply Hh].
Qed.

Lemma preserves_for_each {A} (l : list A) f :
  (∀ x, preserves P (f x)) → preserves P (for_each l f).
Proof.
  intros Hf. induction l as [|x l IH]; simpl.
  - apply (preserves_ret tt).
  - apply preserves_bind; [apply Hf|done].
Qed.

Lemma preserves_resolve x : preserves P (resolve x).
Proof. intros p Hp. unfold after, resolve. by destruct (globals p !! x). Qed.

Lemma preserves_await o : preserves P (await o).
Proof. destruct o; [apply preserves_throw|apply preserves_ret]. Qed.

Lemma preserves_dispatch {A} (m : JS A) p :
  (∀ u q, P q → P (with_uncaught u q)) →
  preserves P m → P p → P (dispatch m p).
Proof.
  intros Hu Hm Hp. specialize (Hm p Hp). unfold dispatch, after in *.
  destruct (m p) as [[a|e] p']; simpl in *; [done|by apply Hu].
Qed.
End preserves_facts.

(** Taking a piece of script code apart along its structure. *)
Ltac frame_step leaf :=
  first
    [ leaf
    | apply preserves_ret | apply preserves_throw | apply preserves_read
    | apply preserves_resolve | apply preserves_await
    | apply preserves_bind; [|intros ?]
    | apply preserves_try_catch; [|intros ?]
    | apply preserves_for_each; intros ?
    | match goal with
      | |- preserves _ (if decide ?c then _ else _) => destruct (decide c)
      | |- preserves _ (match ?x with _ => _ end) => destruct x
      end ].
Ltac frame leaf := repeat (frame_step leaf).

Ltac unfold_script :=
  unfold handleSubjectChange, handleTopicChange, reset_callback,
    handleFormReset, on_DOMContentLoaded, resume,
    loadSubjects, loadSubjects_resume, renderSubjects,
    loadTopics, loadTopics_resume, loadTopics_loop, loadTopics_catch,
    renderTopics, clearTopics,
    loadSubtopics, loadSubtopics_resume, loadSubtopics_inner,
    loadSubtopics_outer, loadSubtopics_catch, renderSubtopics,
    clearSubtopics, showError, suspend.

(** ** Which names are bound never changes *)

Section scope_facts.
Context (x : string).

Lemma bound_store y s : preserves (bound x) (store y s).
Proof.
  apply preserves_modify. intros p Hp. unfold bound in *; simpl.
  apply lookup_insert_is_Some'. by right.
Qed.

Lemma bound_modify f :
  (∀ p, globals (f p) = globals p) → preserves (bound x) (modify f).
Proof. intros Hf. apply preserves_modify. intros p. unfold bound. by rewrite Hf. Qed.

Lemma unbound_modify f :
  (∀ p, globals (f p) = globals p) →
  preserves (λ p, globals p !! x = None) (modify f).
Proof. intros Hf. apply preserves_modify. intros p. by rewrite Hf. Qed.

(** A Set method is reached only through a name that resolves, so it never
    creates a binding. *)
Lemma unbound_update y (f : JSSet.t → JSSet.t) :
  preserves (λ p, globals p !! x = None) (s ← resolve y; store y (f s)).
Proof.
  intros p Hp. unfold after, mbind, JS_bind, bind, resolve.
  destruct (globals p !! y) as [s|] eqn:Hy; simpl; [|done].
  rewrite lookup_insert_ne; [done|]. intros ->. congruence.
Qed.
End scope_facts.

Ltac bound_leaf :=
  first [ apply bound_store
        | apply bound_modify; by intros [] ].
Ltac unbound_leaf :=
  first [ apply unbound_update
        | apply unbound_modify; by intros [] ].

Lemma bound_loadSubtopics_scan x entries it acc :
  preserves (bound x) (loadSubtopics_scan entries it acc).
Proof.
  revert it. induction entries as [|[v|] rest IH]; intros it; simpl.
  - unfold_script. frame bound_leaf.
  - unfold_script.
    frame ltac:(first [apply IH | bound_leaf]).
  - apply IH.
Qed.

Lemma unbound_loadSubtopics_scan x entries it acc :
  preserves (λ p, globals p !! x = None) (loadSubtopics_scan entries it acc).
Proof.
  revert it. induction entries as [|[v|] rest IH]; intros it; simpl.
  - unfold_script. frame unbound_leaf.
  - unfold_script.
    frame ltac:(first [apply IH | unbound_leaf]).
  - apply IH.
Qed.

Lemma bound_resume x t o : preserves (bound x) (resume t o).
Proof.
  destruct t; unfold_script;
    frame ltac:(first [apply bound_loadSubtopics_scan | bound_leaf]).
Qed.

Lemma unbound_resume x t o :
  preserves (λ p, globals p !! x = None) (resume t o).
Proof.
  destruct t; unfold_script;
    frame ltac:(first [apply unbound_loadSubtopics_scan | unbound_leaf]).
Qed.

Lemma bound_handlers x :
  preserves (bound x) handleSubjectChange ∧
  preserves (bound x) handleTopicChange ∧
  preserves (bound x) handleFormReset ∧
  preserves (bound x) reset_callback ∧
  preserves (bound x) on_DOMContentLoaded.
Proof.
  split_and!; unfold_script; unfold Set_clear, Set_add, Set_size;
    frame ltac:(first [apply bound_loadSubtopics_scan | bound_leaf]).
Qed.

Lemma unbound_handlers x :
  preserves (λ p, globals p !! x = None) handleSubjectChange ∧
  preserves (λ p, globals p !! x = None) handleTopicChange ∧
  preserves (λ p, globals p !! x = None) handleFormReset ∧
  preserves (λ p, globals p !! x = None) reset_callback ∧
  preserves (λ p, globals p !! x = None) on_DOMContentLoaded.
Proof.
  split_and!; unfold_script; unfold Set_clear, Set_add, Set_size;
    frame ltac:(first [apply unbound_loadSubtopics_scan | unbound_leaf]).
Qed.

Section step_scope.
Context (x : string).

Lemma step_bound e p : bound x p → bound x (step e p).
Proof.
  intros Hp. destruct (bound_handlers x) as (Hs & Ht & Hr & Hc & Hl).
  assert (∀ A (m : JS A) q, preserves (bound x) m → bound x q →
            bound x (dispatch m q)) as Hd.
  { intros A m q Hm Hq. by apply preserves_dispatch. }
  destruct e as [|[] i|k o| |]; cbn [step].
  - by apply Hd.
  - destruct (toggle i (subjects p)); [by apply Hd|done].
  - destruct (toggle i (topics p)); [by apply Hd|done].
  - by destruct (toggle i (subtopics p)).
  - unfold settle. destruct (pending p !! k); [|done].
    apply Hd; [apply bound_resume|done].
  - by apply Hd.
  - destruct (timers p); [done|]. by apply Hd.
Qed.

Lemma step_unbound e p :
  globals p !! x = None → globals (step e p) !! x = None.
Proof.
  intros Hp. destruct (unbound_handlers x) as (Hs & Ht & Hr & Hc & Hl).
  assert (∀ A (m : JS A) q,
            preserves (λ p, globals p !! x = None) m →
            globals q !! x = None →
            globals (dispatch m q) !! x = None) as Hd.
  { intros A m q Hm Hq.
    by apply (preserves_dispatch (λ p, globals p !! x = None)). }
  destruct e as [|[] i|k o| |]; cbn [step].
  - by apply Hd.
  - destruct (toggle i (subjects p)); [by apply Hd|done].
  - destruct (toggle i (topics p)); [by apply Hd|done].
  - by destruct (toggle i (subtopics p)).
  - unfold settle. destruct (pending p !! k); [|done].
    apply Hd; [apply unbound_resume|done].
  - by apply Hd.
  - destruct (timers p); [done|]. by apply Hd.
Qed.

Lemma run_bound es p : bound x p → bound x (run es p).
Proof.
  revert p. induction es as [|e es IH]; intros p Hp; [done|].
  apply IH. by apply step_bound.
Qed.

Lemma run_unbound es p :
  globals p !! x = None → globals (run es p) !! x = None.
Proof.
  revert p. induction es as [|e es IH]; intros p Hp; [done|].
  apply IH. by apply step_unbound.
Qed.
End step_scope.

(** ** The handlers on a page that does not bind the selection sets *)

Lemma handleSubjectChange_unbound p :
  globals p !! selectedSubjects = None →
  handleSubjectChange p = (Throw (ReferenceError selectedSubjects), p).
Proof.
  intros Hp. unfold handleSubjectChange, Set_clear.
  erewrite bind_throw; [done|].
  erewrite bind_throw; [done|]. by apply resolve_unbound.
Qed.

Lemma handleTopicChange_unbound p :
  globals p !! selectedTopics = None →
  handleTopicChange p = (Throw (ReferenceError selectedTopics), p).
Proof.
  intros Hp. unfold handleTopicChange, Set_clear.
  erewrite bind_throw; [done|].
  erewrite bind_throw; [done|]. by apply resolve_unbound.
Qed.

Lemma reset_callback_unbound p :
  globals p !! selectedSubjects = None →
  reset_callback p = (Throw (ReferenceError selectedSubjects), p).
Proof.
  intros Hp. unfold reset_callback, Set_clear.
  erewrite bind_throw; [done|].
  erewrite bind_throw; [done|]. by apply resolve_unbound.
Qed.

Lemma loadTopics_unbound p :
  globals p !! selectedSubjects = None →
  loadTopics p =
    (Normal tt,
     with_alerts (alerts p ++ ["Error loading topics: selectedSubjects is not defined"])
       (with_topics (Spinner "Loading topics...") p)).
Proof.
  intros Hp. unfold loadTopics, try_catch, loadTopics_loop.
  unfold mbind, JS_bind, bind, modify, resolve. simpl. by rewrite Hp.
Qed.

(** Reading a field of a page that is written out. *)
Ltac fields :=
  cbn [globals subjects topics subtopics alerts fetched pending timers
       was_validated uncaught].

(** ** An uninterrupted Topic refresh *)

Lemma page_eta p :
  mkPage (globals p) (subjects p) (topics p) (subtopics p) (alerts p)
         (fetched p) (pending p) (timers p) (was_validated p) (uncaught p) = p.
Proof. by destruct p. Qed.

Lemma drop_cons_inv {A} (l : list A) i x rest :
  drop i l = x :: rest → drop (S i) l = rest.
Proof.
  intros H. replace (S i) with (i + 1) by lia.
  by rewrite <-drop_drop, H.
Qed.

Lemma drain_idle backend fuel p : pending p = [] → drain backend fuel p = p.
Proof. intros Hp. destruct fuel; simpl; [done|]. by rewrite Hp. Qed.

Lemma loadTopics_loop_spec p s it acc :
  globals p !! selectedSubjects = Some s →
  loadTopics_loop it acc p =
    (Normal tt,
     match JSSet.next s it with
     | Some (v, it') => after (suspend (LoadTopics it' acc v)) p
     | None => after (renderTopics (Array_sort (JSSet.values acc))) p
     end).
Proof.
  intros Hs. unfold loadTopics_loop.
  erewrite bind_normal by (by apply resolve_bound).
  by destruct (JSSet.next s it) as [[v it']|].
Qed.

Lemma topics_settled_nil backend acc p :
  topics_settled backend [] acc p =
    after (renderTopics (Array_sort (JSSet.values acc))) p.
Proof.
  unfold topics_settled; simpl. destruct p; unfold with_fetched; simpl.
  by rewrite app_nil_r.
Qed.

Lemma topics_settled_rejected backend r reqs acc p e :
  backend r = Rejected e →
  topics_settled backend (r :: reqs) acc p =
    after (loadTopics_catch e) (with_fetched (fetched p ++ [r]) p).
Proof. intros Hr. unfold topics_settled; simpl. by rewrite Hr. Qed.

Lemma topics_settled_replied backend r reqs acc p result :
  backend r = Replied result →
  topics_settled backend (r :: reqs) acc p =
    topics_settled backend reqs
      (if decide (status result = "success")
       then JSSet.add_all (items result) acc else acc)
      (with_fetched (fetched p ++ [r]) p).
Proof.
  intros Hr. unfold topics_settled; simpl. rewrite Hr.
  destruct (gather backend reqs _) as [issued res].
  destruct p; unfold with_fetched; simpl. by rewrite <-app_assoc.
Qed.

(** Answering the only parked activation of [loadTopics]. *)
Lemma settle_topics_task backend p s it acc v :
  globals p !! selectedSubjects = Some s →
  pending p = [] →
  settle 0 (backend (GetTopics v)) (after (suspend (LoadTopics it acc v)) p) =
    let q := with_fetched (fetched p ++ [GetTopics v]) p in
    match backend (GetTopics v) with
    | Rejected e => after (loadTopics_catch e) q
    | Replied result =>
        after (loadTopics_loop it
                 (if decide (status result = "success")
                  then JSSet.add_all (items result) acc else acc)) q
    end.
Proof.
  intros Hs Hp. unfold settle, after, suspend, modify. simpl. rewrite Hp. simpl.
  unfold dispatch, loadTopics_resume, try_catch.
  destruct (backend (GetTopics v)) as [e|result]; simpl.
  - unfold with_pending, with_fetched; simpl. by rewrite Hp.
  - unfold mbind, JS_bind, bind, mret, JS_ret, ret.
    erewrite loadTopics_loop_spec by done.
    erewrite (loadTopics_loop_spec (with_fetched _ p)) by done. simpl.
    unfold with_pending, with_fetched; simpl. by rewrite Hp.
Qed.

Section topic_refresh.
Context (backend : Request → Outcome).

Lemma drain_loadTopics_loop entries :
  ∀ it acc p s fuel,
    globals p !! selectedSubjects = Some s →
    drop it s = entries →
    pending p = [] →
    let q := drain backend fuel (after (loadTopics_loop it acc) p) in
    let final :=
      topics_settled backend (GetTopics <$> JSSet.values entries) acc p in
    (length (JSSet.values entries) ≤ fuel → q = final) ∧
    (pending q = [] → q = final) ∧
    (pending q ≠ [] → topics q = topics p).
Proof.
  induction entries as [|[v|] rest IH]; intros it acc p s fuel Hs Hdrop Hp.
  - (* the iterator is exhausted: render *)
    unfold after. erewrite loadTopics_loop_spec by done.
    unfold JSSet.next. rewrite Hdrop. cbn [JSSet.scan snd].
    rewrite drain_idle by done. cbn [JSSet.values omap fmap list_fmap].
    rewrite topics_settled_nil. by split_and!.
  - (* a live entry: one request, then the rest of the loop *)
    unfold after at 1. erewrite loadTopics_loop_spec by done.
    unfold JSSet.next. rewrite Hdrop. cbn [JSSet.scan snd].
    change (JSSet.values (Some v :: rest)) with (v :: JSSet.values rest).
    destruct fuel as [|fuel].
    { cbn [drain]. split_and!.
      - simpl. lia.
      - unfold after, suspend, modify; simpl. rewrite Hp. done.
      - done. }
    cbn [drain].
    assert (pending (after (suspend (LoadTopics (S it) acc v)) p)
            = [LoadTopics (S it) acc v]) as ->.
    { unfold after, suspend, modify; simpl. by rewrite Hp. }
    cbn [awaiting]. rewrite (settle_topics_task _ _ s) by done. cbv zeta.
    rewrite fmap_cons.
    destruct (backend (GetTopics v)) as [e|result] eqn:Hb.
    + rewrite (topics_settled_rejected _ _ _ _ _ e) by done.
      rewrite drain_idle by done. by split_and!.
    + rewrite (topics_settled_replied _ _ _ _ _ result) by done.
      apply drop_cons_inv in Hdrop.
      destruct (IH (S it)
                  (if decide (status result = "success")
                   then JSSet.add_all (items result) acc else acc)
                  (with_fetched (fetched p ++ [GetTopics v]) p) s fuel)
        as (IH1 & IH2 & IH3); [done..|].
      split_and!; [|done..].
      intros Hle. apply IH1. simpl in Hle. lia.
  - (* an emptied slot is skipped *)
    assert (after (loadTopics_loop it acc) p
            = after (loadTopics_loop (S it) acc) p) as ->.
    { unfold after. rewrite !(loadTopics_loop_spec _ s) by done.
      unfold JSSet.next.
      rewrite Hdrop, (drop_cons_inv _ _ _ _ Hdrop). done. }
    apply (IH (S it) acc p s fuel); [done| |done].
    by apply drop_cons_inv in Hdrop.
Qed.
End topic_refresh.

(** ** The Subject change handler on a page that binds [selectedSubjects] *)

Lemma dispatch_normal {A} (m : JS A) p a q :
  m p = (Normal a, q) → dispatch m p = q.
Proof. unfold dispatch. by intros ->. Qed.

Lemma with_globals_id p s x :
  globals p !! x = Some s → with_globals (<[x:=s]> (globals p)) p = p.
Proof. intros H. unfold with_globals. rewrite insert_id by done. apply page_eta. Qed.

Lemma Set_clear_bound x s p :
  globals p !! x = Some s →
  Set_clear x p =
    (Normal tt, with_globals (<[x := JSSet.clear s]> (globals p)) p).
Proof.
  intros H. unfold Set_clear. by erewrite bind_normal by (by apply resolve_bound).
Qed.

Lemma Set_size_bound x s p :
  globals p !! x = Some s → Set_size x p = (Normal (JSSet.size s), p).
Proof.
  intros H. unfold Set_size. by erewrite bind_normal by (by apply resolve_bound).
Qed.

Lemma for_each_Set_add x vs :
  ∀ p s, globals p !! x = Some s →
    for_each vs (Set_add x) p =
      (Normal tt, with_globals (<[x := JSSet.add_all vs s]> (globals p)) p).
Proof.
  induction vs as [|v vs IH]; intros p s Hs; simpl.
  - unfold mret, JS_ret, ret. by rewrite with_globals_id.
  - erewrite bind_normal; last first.
    { unfold Set_add. by erewrite bind_normal by (by apply resolve_bound). }
    erewrite IH by (simpl; apply lookup_insert_eq).
    unfold with_globals; simpl. by rewrite insert_insert_eq.
Qed.

Lemma reselect_lookup x vs s p :
  globals (reselect x vs s p) !! x = Some (JSSet.add_all vs (JSSet.clear s)).
Proof. unfold reselect; simpl. apply lookup_insert_eq. Qed.

Lemma handleSubjectChange_bound p s :
  globals p !! selectedSubjects = Some s →
  let vs := checked_values (subjects p) in
  let p1 := reselect selectedSubjects vs s p in
  handleSubjectChange p =
    if decide (0 < length (distinct vs)) then loadTopics p1
    else (clearTopics ;; clearSubtopics) p1.
Proof.
  intros Hs vs p1. unfold handleSubjectChange.
  erewrite bind_normal by (eapply Set_clear_bound; eassumption).
  erewrite bind_normal by done.
  erewrite bind_normal; last first.
  { apply for_each_Set_add. simpl. apply lookup_insert_eq. }
  erewrite bind_normal; last first.
  { apply Set_size_bound. simpl. apply lookup_insert_eq. }
  unfold JSSet.size. rewrite values_add_all_clear.
  unfold p1, vs, reselect, with_globals; fields. rewrite insert_insert_eq.
  by case_decide.
Qed.

Lemma loadTopics_bound p s :
  globals p !! selectedSubjects = Some s →
  loadTopics p =
    (Normal tt,
     after (loadTopics_loop 0 JSSet.new)
       (with_topics (Spinner "Loading topics...") p)).
Proof.
  intros Hs. unfold loadTopics, try_catch, after.
  unfold mbind, JS_bind, bind, modify at 1.
  by erewrite (loadTopics_loop_spec (with_topics _ p)) by done.
Qed.

Section subject_change.
Context (backend : Request → Outcome).

(** What a Subject change followed by an uninterrupted refresh leaves. *)
Lemma subject_refresh p s fuel :
  globals p !! selectedSubjects = Some s →
  pending p = [] →
  let vs := checked_values (subjects p) in
  let p1 := reselect selectedSubjects vs s p in
  let q := drain backend fuel (dispatch handleSubjectChange p) in
  let final :=
    topics_settled backend (GetTopics <$> distinct vs) JSSet.new
      (with_topics (Spinner "Loading topics...") p1) in
  (vs = [] → q = after (clearTopics ;; clearSubtopics) p1) ∧
  (vs ≠ [] →
     (length (distinct vs) ≤ fuel → q = final) ∧
     (pending q = [] → q = final) ∧
     (pending q ≠ [] → topics q = Spinner "Loading topics...")).
Proof.
  intros Hs Hp vs p1 q final.
  pose proof (handleSubjectChange_bound p s Hs) as Hh. cbv zeta in Hh.
  fold vs in Hh. fold p1 in Hh. split.
  - intros Hvs. unfold q. rewrite Hvs in Hh.
    erewrite dispatch_normal; last first.
    { rewrite Hh. cbn. reflexivity. }
    by rewrite drain_idle.
  - intros Hvs. unfold q.
    destruct (decide (0 < length (distinct vs))) as [Hlt|Hlt]; last first.
    { destruct (distinct vs) eqn:Hd; simpl in Hlt; [|lia].
      by apply distinct_nil_inv in Hd. }
    erewrite dispatch_normal; last first.
    { rewrite Hh. eapply loadTopics_bound. apply reselect_lookup. }
    pose proof (drain_loadTopics_loop backend
                  (JSSet.add_all vs (JSSet.clear s)) 0 JSSet.new
                  (with_topics (Spinner "Loading topics...") p1)
                  (JSSet.add_all vs (JSSet.clear s)) fuel) as Hl.
    cbv zeta in Hl. rewrite values_add_all_clear in Hl.
    apply Hl; [apply reselect_lookup|done|done].
Qed.
End subject_change.

(** ** What [gather] collects *)

Section gather_facts.
Context (backend : Request → Outcome).

Lemma gather_normal reqs :
  ∀ acc issued acc',
    gather backend reqs acc = (issued, Normal acc') →
    issued = reqs ∧
    Forall (λ r, ∃ result, backend r = Replied result) reqs.
Proof.
  induction reqs as [|r reqs IH]; intros acc issued acc' H; simpl in *.
  - by injection H as <- _.
  - destruct (backend r) as [e|result] eqn:Hb; [done|].
    destruct (gather backend reqs _) as [issued' res] eqn:Hg.
    injection H as <- ->.
    destruct (IH _ _ _ Hg) as [-> Hall].
    split; [done|]. constructor; [by eexists|done].
Qed.

(** A rejection is the last request issued. *)
Lemma gather_throw reqs :
  ∀ acc issued e,
    gather backend reqs acc = (issued, Throw e) →
    ∃ done_ r rest,
      reqs = done_ ++ r :: rest ∧ issued = done_ ++ [r] ∧
      backend r = Rejected e ∧
      Forall (λ r, ∃ result, backend r = Replied result) done_.
Proof.
  induction reqs as [|r reqs IH]; intros acc issued e H; simpl in *; [done|].
  destruct (backend r) as [e'|result] eqn:Hb.
  - injection H as <- ->. by exists [], r, reqs.
  - destruct (gather backend reqs _) as [issued' res] eqn:Hg.
    injection H as <- ->.
    destruct (IH _ _ _ Hg) as (done_ & r' & rest & -> & -> & Hr & Hall).
    exists (r :: done_), r', rest. split_and!; [done..|].
    constructor; [by eexists|done].
Qed.

(** With every query answered [success], nothing stops the loop and the
    accumulator ends up holding exactly what was there plus every item
    returned. *)
Lemma gather_success reqs (answer : Request → list string) :
  ∀ acc,
    Forall (λ r, ∃ m, backend r = Replied (mkReply "success" (answer r) m)) reqs →
    ∃ acc', gather backend reqs acc = (reqs, Normal acc') ∧
      (NoDup (JSSet.values acc) → NoDup (JSSet.values acc')) ∧
      ∀ x, x ∈ JSSet.values acc' ↔
           x ∈ JSSet.values acc ∨ ∃ r, r ∈ reqs ∧ x ∈ answer r.
Proof.
  induction reqs as [|r reqs IH]; intros acc Hall; simpl.
  - exists acc. split_and!; [done..|]. intros x. split; [by left|].
    intros [?|(r & Hr & _)]; [done|]. by apply elem_of_nil in Hr.
  - apply Forall_cons in Hall as [[m Hr] Hall]. rewrite Hr. simpl.
    destruct (IH (JSSet.add_all (answer r) acc) Hall) as (acc' & -> & Hnd & Hin).
    exists acc'. split_and!; [done| |].
    + intros ?. by apply Hnd, NoDup_values_add_all.
    + intros x. rewrite Hin, elem_of_values_add_all. split.
      * intros [[?|?]|(r' & ? & ?)]; [right; exists r|by left|right; exists r'];
          (split; [|done]); [left|by right].
      * intros [?|(r' & [->|?]%elem_of_cons & ?)]; [left; by right|left; by left|].
        right. by exists r'.
Qed.
End gather_facts.

Lemma options_fresh_boxes vs : options (fresh_boxes vs) = vs.
Proof.
  unfold fresh_boxes, options. rewrite <-list_fmap_compose.
  induction vs as [|v vs IH]; [done|]. simpl. by f_equal.
Qed.

Lemma options_rendered text vs : options (rendered text vs) = vs.
Proof.
  unfold rendered. case_decide; [by destruct vs|apply options_fresh_boxes].
Qed.

Lemma options_renderTopics vs p : options (topics (after (renderTopics vs) p)) = vs.
Proof. apply options_rendered. Qed.


(** [Array_sort] returns the one ascending duplicate-free arrangement. *)
Lemma Array_sort_spec (l : list string) :
  StronglySorted String.le (Array_sort l) ∧
  (NoDup l → NoDup (Array_sort l)) ∧
  ∀ x, x ∈ Array_sort l ↔ x ∈ l.
Proof.
  unfold Array_sort. split_and!.
  - apply StronglySorted_merge_sort; apply _.
  - intros Hnd. by rewrite merge_sort_Permutation.
  - intros x. by rewrite merge_sort_Permutation.
Qed.

(** ** Topic refresh: what is published *)

(** On a page that binds [selectedSubjects], with nothing else in flight and
    every topics query answered [success], the Topic container ends up
    offering the ascending, duplicate-free union of the returned lists. *)
Lemma topic_refresh_sorted_union backend (answer : string → list string) p s fuel :
  globals p !! selectedSubjects = Some s →
  pending p = [] →
  checked_values (subjects p) ≠ [] →
  (∀ v, v ∈ checked_values (subjects p) →
        ∃ m, backend (GetTopics v) = Replied (mkReply "success" (answer v) m)) →
  length (checked_values (subjects p)) ≤ fuel →
  let q := drain backend fuel (dispatch handleSubjectChange p) in
  pending q = [] ∧
  fetched q = fetched p ++ (GetTopics <$> distinct (checked_values (subjects p))) ∧
  StronglySorted String.le (options (topics q)) ∧
  NoDup (options (topics q)) ∧
  ∀ x, x ∈ options (topics q) ↔
       ∃ v, v ∈ checked_values (subjects p) ∧ x ∈ answer v.
Proof.
  intros Hs Hp Hne Hok Hfuel q.
  destruct (subject_refresh backend p s fuel Hs Hp) as [_ Hq].
  destruct (Hq Hne) as [Hfinal _]. clear Hq.
  fold q in Hfinal. rewrite Hfinal; last first.
  { etrans; [apply length_distinct|done]. }
  clear Hfinal q.
  set (vs := checked_values (subjects p)) in *.
  destruct (gather_success backend (GetTopics <$> distinct vs)
              (λ r, match r with GetTopics v => answer v | _ => [] end)
              JSSet.new) as (acc' & Hg & Hnd & Hin).
  { apply Forall_fmap, Forall_forall. intros v Hv. simpl.
    apply Hok. by apply elem_of_distinct. }
  unfold topics_settled. rewrite Hg.
  destruct (Array_sort_spec (JSSet.values acc')) as (Hsorted & Hnodup & Hmem).
  split_and!.
  - unfold after, renderTopics, modify, reselect; simpl. done.
  - unfold after, renderTopics, modify, reselect; simpl. done.
  - by rewrite options_renderTopics.
  - rewrite options_renderTopics. apply Hnodup, Hnd. constructor.
  - intros x. rewrite options_renderTopics, Hmem, Hin. split.
    + intros [Hx|(r & Hr & Hx)]; [by apply elem_of_nil in Hx|].
      apply list_elem_of_fmap in Hr as (v & -> & Hv).
      exists v. split; [by apply elem_of_distinct|done].
    + intros (v & Hv & Hx). right. exists (GetTopics v). split; [|done].
      apply list_elem_of_fmap. exists v. split; [done|by apply elem_of_distinct].
Qed.

Lemma options_toggle i c c' : toggle i c = Some c' → options c' = options c.
Proof.
  destruct c as [| |boxes]; simpl; [done..|].
  destruct (boxes !! i) as [b|] eqn:Hb; simpl; [|done].
  intros [= <-]. simpl. rewrite list_fmap_insert. simpl.
  apply list_insert_id. by rewrite list_lookup_fmap, Hb.
Qed.

(** ** C2: the handlers cannot see the selection sets *)

(** C2, as stated, fails for [handleFormReset]: on the page the script
    builds for itself, with no global named [selectedSubjects], the call
    completes normally; all it does is schedule the timer. *)
Lemma C2_form_reset_returns_normally :
  globals (catalog ∅) !! selectedSubjects = None ∧
  fst (handleFormReset (catalog ∅)) = Normal tt ∧
  timers (after handleFormReset (catalog ∅)) = 1 ∧
  uncaught (step FormReset (catalog ∅)) = [].
Proof. vm_compute. done. Qed.

(** C2, amended.  Start from any document whose global scope has neither
    [selectedSubjects] nor [selectedTopics] and let any events happen.  The
    [DOMContentLoaded] callback binds the names in its own scope and leaves
    the global scope as it is.  So [handleSubjectChange] and
    [handleTopicChange] stop with a [ReferenceError] on their first
    statement and leave the page as it was; [handleFormReset] itself returns
    normally after scheduling the timer, and it is the timer's callback that
    stops with the [ReferenceError], again before changing anything.  Hence
    a click on a checkbox issues no request, parks no activation and leaves
    the options of both dependent containers as they were. *)
Theorem C2_handlers_stop_with_reference_error p es :
  globals p !! selectedSubjects = None →
  globals p !! selectedTopics = None →
  let q := run es p in
  (∃ scope, fst (on_DOMContentLoaded q) = Normal scope ∧
            is_Some (scope !! selectedSubjects) ∧
            is_Some (scope !! selectedTopics) ∧
            globals (after on_DOMContentLoaded q) = globals q) ∧
  handleSubjectChange q = (Throw (ReferenceError selectedSubjects), q) ∧
  handleTopicChange q = (Throw (ReferenceError selectedTopics), q) ∧
  handleFormReset q = (Normal tt, with_timers (S (timers q)) q) ∧
  reset_callback q = (Throw (ReferenceError selectedSubjects), q) ∧
  ∀ l i, let q' := step (Change l i) q in
         fetched q' = fetched q ∧ pending q' = pending q ∧
         options (topics q') = options (topics q) ∧
         options (subtopics q') = options (subtopics q).
Proof.
  intros Hs Ht q.
  assert (globals q !! selectedSubjects = None) as Hqs by by apply run_unbound.
  assert (globals q !! selectedTopics = None) as Hqt by by apply run_unbound.
  split_and!.
  - eexists. split; [reflexivity|]. by split_and!.
  - by apply handleSubjectChange_unbound.
  - by apply handleTopicChange_unbound.
  - done.
  - by apply reset_callback_unbound.
  - intros [] i; cbn [step].
    + destruct (toggle i (subjects q)) as [c|]; [|done].
      unfold dispatch. by rewrite handleSubjectChange_unbound.
    + destruct (toggle i (topics q)) as [c|] eqn:Hc; [|done].
      unfold dispatch. rewrite handleTopicChange_unbound by done. simpl.
      split_and!; [done..| |done]. by apply options_toggle in Hc.
    + destruct (toggle i (subtopics q)) as [c|] eqn:Hc; [|done]. simpl.
      split_and!; [done..|]. by apply options_toggle in Hc.
Qed.

Lemma C2_handlers_stop_with_reference_error_witness :
  let q := run [Loaded; Settle 0 (success ["Math"; "Physics"])] (blank ∅) in
  (∃ scope, fst (on_DOMContentLoaded q) = Normal scope ∧
            is_Some (scope !! selectedSubjects) ∧
            is_Some (scope !! selectedTopics) ∧
            globals (after on_DOMContentLoaded q) = globals q) ∧
  handleSubjectChange q = (Throw (ReferenceError selectedSubjects), q) ∧
  handleTopicChange q = (Throw (ReferenceError selectedTopics), q) ∧
  handleFormReset q = (Normal tt, with_timers (S (timers q)) q) ∧
  reset_callback q = (Throw (ReferenceError selectedSubjects), q) ∧
  ∀ l i, let q' := step (Change l i) q in
         fetched q' = fetched q ∧ pending q' = pending q ∧
         options (topics q') = options (topics q) ∧
         options (subtopics q') = options (subtopics q).
Proof.
  apply (C2_handlers_stop_with_reference_error (blank ∅)
           [Loaded; Settle 0 (success ["Math"; "Physics"])]);
    reflexivity.
Defined.

(** ** C1: the Topic options for a non-empty Subject selection *)

(** C1 at Subjects Math and Physics on the page the script builds for
    itself: both boxes are ticked, each click ends in the [ReferenceError]
    of C2, no topics query is issued and no topic is ever offered. *)
Theorem C1_topics_not_published_on_script_scope :
  let p := run [Change Subject 0; Change Subject 1] (catalog ∅) in
  checked_values (subjects p) = ["Math"; "Physics"] ∧
  uncaught p = [ReferenceError selectedSubjects; ReferenceError selectedSubjects] ∧
  fetched p = [GetSubjects] ∧
  pending p = [] ∧
  options (topics (drain school 4 p)) = [] ∧
  options (topics (both_ticked sets_global)) = ["Algebra"; "Geometry"; "Mechanics"].
Proof. vm_compute. done. Qed.

(** ** Nothing is offered while [selectedSubjects] is unbound *)

Lemma toggle_no_options i c : options c = [] → toggle i c = None.
Proof.
  destruct c as [| |boxes]; simpl; [done..|].
  intros Hb. apply fmap_nil_inv in Hb as ->. done.
Qed.

Lemma step_unbound_idle e p : unbound_idle p → unbound_idle (step e p).
Proof.
  intros Hinv Hun'.
  destruct (globals p !! selectedSubjects) as [s|] eqn:Hun.
  { assert (bound selectedSubjects (step e p)) as [s' Hs'].
    { apply step_bound. by exists s. }
    congruence. }
  destruct (Hinv Hun) as (Ht & Hst & Hpend). clear Hinv Hun'.
  destruct e as [|[] i|k o| |]; cbn [step].
  - unfold dispatch, on_DOMContentLoaded, loadSubjects, suspend; simpl.
    split_and!; [done..|]. apply Forall_app. split; [done|]. by constructor.
  - destruct (toggle i (subjects p)) as [c|]; [|done].
    unfold dispatch. by rewrite handleSubjectChange_unbound.
  - by rewrite toggle_no_options.
  - by rewrite toggle_no_options.
  - unfold settle. destruct (pending p !! k) as [t|] eqn:Hk; [|done].
    assert (t = LoadSubjects) as ->.
    { by apply (Forall_lookup_1 _ _ _ _ Hpend Hk). }
    assert (Forall (λ t, t = LoadSubjects) (delete k (pending p))) as Hdel.
    { by apply Forall_delete. }
    unfold dispatch, resume, loadSubjects_resume, try_catch.
    destruct o as [err|result]; simpl; [done|].
    unfold mbind, JS_bind, bind, mret, JS_ret, ret; simpl.
    by destruct (decide (status result = "success")).
  - done.
  - destruct (timers p) as [|n]; [done|].
    unfold dispatch. by rewrite reset_callback_unbound.
Qed.

Lemma run_unbound_idle es p : unbound_idle p → unbound_idle (run es p).
Proof.
  revert p. induction es as [|e es IH]; intros p Hp; [done|].
  apply IH. by apply step_unbound_idle.
Qed.

Lemma served_unbound_idle p : served p → unbound_idle p.
Proof. intros (Ht & Hst & Hp) _. rewrite Hp. by split_and!. Qed.

(** ** C5: deselecting the last Subject *)

(** C5.  Take a document as served, with whatever global scope, and let any
    events happen.  If a click on a Subject checkbox then leaves no Subject
    ticked, no topic and no subtopic is on offer afterwards, and the click
    issues no request and parks no activation.  Where [selectedSubjects] is
    bound this is the work of [clearTopics] and [clearSubtopics]. *)
Theorem C5_empty_subject_selection p0 es i c :
  served p0 →
  let p := run es p0 in
  toggle i (subjects p) = Some c →
  checked_values c = [] →
  let p' := step (Change Subject i) p in
  options (topics p') = [] ∧ options (subtopics p') = [] ∧
  fetched p' = fetched p ∧ pending p' = pending p ∧
  (bound selectedSubjects p →
   topics p' = Muted "Select subjects first to see available topics" ∧
   subtopics p' = Muted "Select topics first to see available subtopics").
Proof.
  intros Hserved p Hc Hnone p'.
  assert (unbound_idle p) as Hinv.
  { by apply run_unbound_idle, served_unbound_idle. }
  unfold p'. cbn [step]. rewrite Hc.
  destruct (globals p !! selectedSubjects) as [s|] eqn:Hs.
  - erewrite dispatch_normal; last first.
    { rewrite (handleSubjectChange_bound _ s) by done. cbv zeta.
      cbn [subjects with_subjects]. rewrite Hnone. cbn. reflexivity. }
    by split_and!.
  - unfold dispatch. rewrite handleSubjectChange_unbound by done. simpl.
    destruct (Hinv Hs) as (Ht & Hst & _). split_and!; [done..|].
    intros [s Hb]. unfold bound in *. congruence.
Qed.

Lemma C5_empty_subject_selection_witness :
  let p := run [Loaded; Settle 0 (school GetSubjects); Change Subject 0;
                Settle 0 (school (GetTopics "Math"))] (blank sets_global) in
  let p' := step (Change Subject 0) p in
  options (topics p) = ["Algebra"; "Geometry"] ∧
  options (topics p') = [] ∧ options (subtopics p') = [] ∧
  fetched p' = fetched p ∧ pending p' = pending p ∧
  (bound selectedSubjects p →
   topics p' = Muted "Select subjects first to see available topics" ∧
   subtopics p' = Muted "Select topics first to see available subtopics").
Proof.
  split; [vm_compute; reflexivity|].
  apply (C5_empty_subject_selection (blank sets_global)
           [Loaded; Settle 0 (school GetSubjects); Change Subject 0;
            Settle 0 (school (GetTopics "Math"))]
           0 (Boxes [mkCheckbox "Math" false; mkCheckbox "Physics" false])).
  - repeat split.
  - vm_compute. reflexivity.
  - reflexivity.
Defined.

(** ** The fields of a settled refresh *)

Lemma topics_settled_fields backend reqs acc p :
  let q := topics_settled backend reqs acc p in
  let '(issued, res) := gather backend reqs acc in
  globals q = globals p ∧ subjects q = subjects p ∧
  subtopics q = subtopics p ∧ pending q = pending p ∧
  fetched q = fetched p ++ issued ∧
  topics q = match res with
             | Normal acc' =>
                 rendered "No topics available for selected subjects"
                   (Array_sort (JSSet.values acc'))
             | Throw _ => topics p
             end ∧
  alerts q = match res with
             | Normal _ => alerts p
             | Throw e => alerts p ++ ["Error loading topics: " +:+ message e]
             end.
Proof.
  unfold topics_settled. destruct (gather backend reqs acc) as [issued [acc'|e]];
    by split_and!.
Qed.

Lemma subtopics_settled_fields backend reqs acc p :
  let q := subtopics_settled backend reqs acc p in
  let '(issued, res) := gather backend reqs acc in
  globals q = globals p ∧ subjects q = subjects p ∧
  topics q = topics p ∧ pending q = pending p ∧
  fetched q = fetched p ++ issued ∧
  subtopics q = match res with
                | Normal acc' =>
                    rendered "No subtopics available for selected topics"
                      (Array_sort (JSSet.values acc'))
                | Throw _ => subtopics p
                end ∧
  alerts q = match res with
             | Normal _ => alerts p
             | Throw e => alerts p ++ ["Error loading subtopics: " +:+ message e]
             end.
Proof.
  unfold subtopics_settled.
  destruct (gather backend reqs acc) as [issued [acc'|e]]; by split_and!.
Qed.

(** ** C8: the same Subject selection, twice *)

(** What a Subject change and its uninterrupted refresh leave in the Topic
    container depends on the page only through the ticked Subjects. *)
Lemma subject_refresh_topics backend p s fuel :
  globals p !! selectedSubjects = Some s →
  pending p = [] →
  length (checked_values (subjects p)) ≤ fuel →
  let vs := checked_values (subjects p) in
  let q := drain backend fuel (dispatch handleSubjectChange p) in
  bound selectedSubjects q ∧ pending q = [] ∧ subjects q = subjects p ∧
  topics q =
    if decide (vs = []) then Muted "Select subjects first to see available topics"
    else match snd (gather backend (GetTopics <$> distinct vs) JSSet.new) with
         | Normal acc' =>
             rendered "No topics available for selected subjects"
               (Array_sort (JSSet.values acc'))
         | Throw _ => Spinner "Loading topics..."
         end.
Proof.
  intros Hs Hp Hfuel vs q.
  destruct (subject_refresh backend p s fuel Hs Hp) as [Hnil Hcons].
  fold vs in Hnil, Hcons. fold q in Hnil, Hcons.
  destruct (decide (vs = [])) as [Hvs|Hvs].
  - rewrite (Hnil Hvs). split_and!; [|done..].
    eexists. apply reselect_lookup.
  - destruct (Hcons Hvs) as [Hfinal _]. rewrite Hfinal; last first.
    { etrans; [apply length_distinct|done]. }
    pose proof (topics_settled_fields backend (GetTopics <$> distinct vs)
                  JSSet.new
                  (with_topics (Spinner "Loading topics...")
                     (reselect selectedSubjects vs s p))) as Hf.
    cbv zeta in Hf.
    destruct (gather backend (GetTopics <$> distinct vs) JSSet.new)
      as [issued res].
    destruct Hf as (Hg & Hsub & _ & Hpend & _ & Htop & _).
    split_and!.
    + unfold bound. rewrite Hg. eexists. apply reselect_lookup.
    + by rewrite Hpend.
    + by rewrite Hsub.
    + by rewrite Htop.
Qed.

(** C8.  With no other refresh in flight, running the Subject change
    handler and its refresh to completion twice on the same ticked Subjects
    shows the same Topic container as running them once. *)
Theorem C8_subject_selection_idempotent backend p fuel :
  pending p = [] →
  length (checked_values (subjects p)) ≤ fuel →
  let refresh q := drain backend fuel (dispatch handleSubjectChange q) in
  topics (refresh (refresh p)) = topics (refresh p).
Proof.
  intros Hp Hfuel refresh.
  destruct (globals p !! selectedSubjects) as [s|] eqn:Hs.
  - destruct (subject_refresh_topics backend p s fuel Hs Hp Hfuel)
      as ([s' Hs'] & Hp' & Hsub & Htop).
    fold (refresh p) in Hs', Hp', Hsub, Htop.
    destruct (subject_refresh_topics backend (refresh p) s' fuel Hs' Hp')
      as (_ & _ & _ & Htop'); [by rewrite Hsub|].
    fold (refresh (refresh p)) in Htop'.
    by rewrite Htop', Htop, Hsub.
  - assert (∀ q, globals q !! selectedSubjects = None → pending q = [] →
                 refresh q = with_uncaught
                               (uncaught q ++ [ReferenceError selectedSubjects]) q)
      as Hthrow.
    { intros q Hq Hpq. unfold refresh, dispatch.
      rewrite handleSubjectChange_unbound by done. by rewrite drain_idle. }
    rewrite (Hthrow p) by done. by rewrite Hthrow.
Qed.

Lemma C8_subject_selection_idempotent_witness :
  let refresh q := drain school 2 (dispatch handleSubjectChange q) in
  options (topics (refresh (both_ticked sets_global)))
    = ["Algebra"; "Geometry"; "Mechanics"] ∧
  topics (refresh (refresh (both_ticked sets_global)))
    = topics (refresh (both_ticked sets_global)).
Proof.
  split; [vm_compute; reflexivity|].
  apply (C8_subject_selection_idempotent school (both_ticked sets_global) 2).
  - vm_compute. reflexivity.
  - vm_compute. lia.
Defined.

(** ** An uninterrupted Subtopic refresh *)

Lemma subtopics_settled_nil backend acc p :
  subtopics_settled backend [] acc p =
    after (renderSubtopics (Array_sort (JSSet.values acc))) p.
Proof.
  unfold subtopics_settled; simpl. destruct p; unfold with_fetched; simpl.
  by rewrite app_nil_r.
Qed.

Lemma subtopics_settled_rejected backend r reqs acc p e :
  backend r = Rejected e →
  subtopics_settled backend (r :: reqs) acc p =
    after (loadSubtopics_catch e) (with_fetched (fetched p ++ [r]) p).
Proof. intros Hr. unfold subtopics_settled; simpl. by rewrite Hr. Qed.

Lemma subtopics_settled_replied backend r reqs acc p result :
  backend r = Replied result →
  subtopics_settled backend (r :: reqs) acc p =
    subtopics_settled backend reqs
      (if decide (status result = "success")
       then JSSet.add_all (items result) acc else acc)
      (with_fetched (fetched p ++ [r]) p).
Proof.
  intros Hr. unfold subtopics_settled; simpl. rewrite Hr.
  destruct (gather backend reqs _) as [issued res].
  destruct p; unfold with_fetched; simpl. by rewrite <-app_assoc.
Qed.

Lemma loadSubtopics_scan_normal entries :
  ∀ it acc p t,
    globals p !! selectedTopics = Some t →
    fst (loadSubtopics_scan entries it acc p) = Normal tt.
Proof.
  induction entries as [|[v|] rest IH]; intros it acc p t Ht; simpl; [done| |by eapply IH].
  erewrite bind_normal by (by apply resolve_bound).
  destruct (JSSet.next t 0) as [[topic jt]|]; [done|by eapply IH].
Qed.

Lemma loadSubtopics_outer_normal it acc p s t :
  globals p !! selectedSubjects = Some s →
  globals p !! selectedTopics = Some t →
  loadSubtopics_outer it acc p = (Normal tt, after (loadSubtopics_outer it acc) p).
Proof.
  intros Hs Ht. unfold after, loadSubtopics_outer.
  erewrite bind_normal by (by apply resolve_bound).
  pose proof (loadSubtopics_scan_normal (drop it s) it acc p t Ht) as Hn.
  by destruct (loadSubtopics_scan (drop it s) it acc p) as [[[]|] ?].
Qed.

Lemma loadSubtopics_inner_spec it subject jt acc p s t :
  globals p !! selectedSubjects = Some s →
  globals p !! selectedTopics = Some t →
  loadSubtopics_inner it subject jt acc p =
    (Normal tt,
     match JSSet.next t jt with
     | Some (topic, jt') =>
         after (suspend (LoadSubtopics it subject jt' topic acc)) p
     | None => after (loadSubtopics_outer it acc) p
     end).
Proof.
  intros Hs Ht. unfold loadSubtopics_inner.
  erewrite bind_normal by (by apply resolve_bound).
  destruct (JSSet.next t jt) as [[topic jt']|]; [done|].
  by eapply loadSubtopics_outer_normal.
Qed.

(** Answering the only parked activation of [loadSubtopics]. *)
Lemma settle_subtopics_task backend p s t it subject jt topic acc :
  globals p !! selectedSubjects = Some s →
  globals p !! selectedTopics = Some t →
  pending p = [] →
  settle 0 (backend (GetSubtopics subject topic))
    (after (suspend (LoadSubtopics it subject jt topic acc)) p) =
    let q := with_fetched (fetched p ++ [GetSubtopics subject topic]) p in
    match backend (GetSubtopics subject topic) with
    | Rejected e => after (loadSubtopics_catch e) q
    | Replied result =>
        after (loadSubtopics_inner it subject jt
                 (if decide (status result = "success")
                  then JSSet.add_all (items result) acc else acc)) q
    end.
Proof.
  intros Hs Ht Hp. unfold settle, after, suspend, modify. simpl. rewrite Hp. simpl.
  unfold dispatch, loadSubtopics_resume, try_catch.
  destruct (backend (GetSubtopics subject topic)) as [e|result]; simpl.
  - unfold with_pending, with_fetched; simpl. by rewrite Hp.
  - unfold mbind, JS_bind, bind, mret, JS_ret, ret.
    erewrite loadSubtopics_inner_spec by done.
    erewrite (loadSubtopics_inner_spec _ _ _ _ (with_fetched _ p)) by done.
    unfold with_pending, with_fetched; simpl. by rewrite Hp.
Qed.

Section subtopic_refresh.
Context (backend : Request → Outcome) (s t : JSSet.t).

Local Abbreviation ready := (ready s t).

Lemma ready_fetched p r :
  ready p → ready (with_fetched (fetched p ++ [r]) p).
Proof. by intros (? & ? & ?). Qed.

(** The inner loop, given what the rest of the outer loop does. *)
Lemma drain_loadSubtopics_inner it subject reqs_outer :
  (∀ acc p fuel, ready p →
     settles_to backend fuel (length reqs_outer) subtopics (subtopics p)
       (after (loadSubtopics_outer it acc) p)
       (subtopics_settled backend reqs_outer acc p)) →
  ∀ entries jt acc p fuel,
    ready p → drop jt t = entries →
    settles_to backend fuel
      (length (JSSet.values entries) + length reqs_outer)
      subtopics (subtopics p)
      (after (loadSubtopics_inner it subject jt acc) p)
      (subtopics_settled backend
         ((GetSubtopics subject <$> JSSet.values entries) ++ reqs_outer)
         acc p).
Proof.
  intros Houter.
  induction entries as [|[topic|] rest IH]; intros jt acc p fuel Hr Hdrop.
  - destruct Hr as (Hs & Ht & Hp).
    unfold after at 1. erewrite loadSubtopics_inner_spec by done.
    unfold JSSet.next. rewrite Hdrop. cbn [JSSet.scan snd].
    by apply Houter.
  - pose proof Hr as (Hs & Ht & Hp).
    unfold after at 1. erewrite loadSubtopics_inner_spec by done.
    unfold JSSet.next. rewrite Hdrop. cbn [JSSet.scan snd].
    change (JSSet.values (Some topic :: rest)) with (topic :: JSSet.values rest).
    rewrite fmap_cons. cbn [app length Nat.add].
    unfold settles_to. destruct fuel as [|fuel].
    { cbn [drain]. split_and!.
      - lia.
      - unfold after, suspend, modify; simpl. rewrite Hp. done.
      - done. }
    cbn [drain].
    assert (pending (after (suspend (LoadSubtopics it subject (S jt) topic acc)) p)
            = [LoadSubtopics it subject (S jt) topic acc]) as ->.
    { unfold after, suspend, modify; simpl. by rewrite Hp. }
    cbn [awaiting]. rewrite (settle_subtopics_task _ _ s t) by done. cbv zeta.
    destruct (backend (GetSubtopics subject topic)) as [e|result] eqn:Hb.
    + rewrite (subtopics_settled_rejected _ _ _ _ _ e) by done.
      rewrite drain_idle by done. by split_and!.
    + rewrite (subtopics_settled_replied _ _ _ _ _ result) by done.
      apply drop_cons_inv in Hdrop.
      destruct (IH (S jt)
                  (if decide (status result = "success")
                   then JSSet.add_all (items result) acc else acc)
                  (with_fetched (fetched p ++ [GetSubtopics subject topic]) p)
                  fuel) as (IH1 & IH2 & IH3);
        [by apply ready_fetched|done|].
      split_and!; [|done..].
      intros Hle. apply IH1. lia.
  - pose proof Hr as (Hs & Ht & Hp).
    assert (after (loadSubtopics_inner it subject jt acc) p
            = after (loadSubtopics_inner it subject (S jt) acc) p) as ->.
    { unfold after. rewrite !(loadSubtopics_inner_spec _ _ _ _ _ s t) by done.
      unfold JSSet.next.
      rewrite Hdrop, (drop_cons_inv _ _ _ _ Hdrop). done. }
    apply (IH (S jt) acc p fuel); [done|].
    by apply drop_cons_inv in Hdrop.
Qed.

Lemma loadSubtopics_outer_cons it subject rest acc p :
  ready p → drop it s = Some subject :: rest →
  after (loadSubtopics_outer it acc) p =
    after (loadSubtopics_inner (S it) subject 0 acc) p.
Proof.
  intros (Hs & Ht & Hp) Hdrop. unfold after.
  rewrite (loadSubtopics_inner_spec _ _ _ _ _ s t) by done.
  unfold loadSubtopics_outer at 1.
  erewrite bind_normal by (by apply resolve_bound).
  rewrite Hdrop. cbn [loadSubtopics_scan].
  erewrite bind_normal by (by apply resolve_bound).
  destruct (JSSet.next t 0) as [[topic jt]|]; [done|].
  unfold after, loadSubtopics_outer.
  erewrite bind_normal by (by apply resolve_bound).
  by rewrite (drop_cons_inv _ _ _ _ Hdrop).
Qed.

Lemma loadSubtopics_outer_skip it rest acc p :
  ready p → drop it s = None :: rest →
  after (loadSubtopics_outer it acc) p =
    after (loadSubtopics_outer (S it) acc) p.
Proof.
  intros (Hs & Ht & Hp) Hdrop. unfold after, loadSubtopics_outer.
  erewrite !bind_normal by (by apply resolve_bound).
  by rewrite Hdrop, (drop_cons_inv _ _ _ _ Hdrop).
Qed.

Lemma drain_loadSubtopics_outer entries :
  ∀ it acc p fuel,
    ready p → drop it s = entries →
    let reqs := subtopic_requests (JSSet.values entries) (JSSet.values t) in
    settles_to backend fuel (length reqs) subtopics (subtopics p)
      (after (loadSubtopics_outer it acc) p)
      (subtopics_settled backend reqs acc p).
Proof.
  induction entries as [|[subject|] rest IH]; intros it acc p fuel Hr Hdrop reqs.
  - destruct Hr as (Hs & Ht & Hp).
    assert (after (loadSubtopics_outer it acc) p
            = after (renderSubtopics (Array_sort (JSSet.values acc))) p) as ->.
    { unfold after, loadSubtopics_outer.
      erewrite bind_normal by (by apply resolve_bound). by rewrite Hdrop. }
    unfold settles_to, reqs. cbn [JSSet.values omap subtopic_requests mbind list_bind].
    rewrite drain_idle by done. rewrite subtopics_settled_nil. by split_and!.
  - erewrite loadSubtopics_outer_cons by done.
    pose proof (drain_loadSubtopics_inner (S it) subject
                  (subtopic_requests (JSSet.values rest) (JSSet.values t)))
      as Hin.
    specialize (Hin (λ acc p fuel Hp,
                  IH (S it) acc p fuel Hp (drop_cons_inv _ _ _ _ Hdrop))).
    specialize (Hin t 0 acc p fuel Hr (drop_0 t)).
    unfold reqs.
    change (JSSet.values (Some subject :: rest))
      with (subject :: JSSet.values rest).
    unfold subtopic_requests at 1 2. cbn [mbind list_bind].
    by rewrite length_app, length_fmap.
  - erewrite loadSubtopics_outer_skip by done.
    apply (IH (S it) acc p fuel Hr). by apply drop_cons_inv in Hdrop.
Qed.
End subtopic_refresh.

(** ** The Topic change handler on a page that binds both Sets *)

Lemma handleTopicChange_bound p t :
  globals p !! selectedTopics = Some t →
  let vs := checked_values (topics p) in
  let p1 := reselect selectedTopics vs t p in
  handleTopicChange p =
    if decide (0 < length (distinct vs)) then loadSubtopics p1
    else clearSubtopics p1.
Proof.
  intros Ht vs p1. unfold handleTopicChange.
  erewrite bind_normal by (eapply Set_clear_bound; eassumption).
  erewrite bind_normal by done.
  erewrite bind_normal; last first.
  { apply for_each_Set_add. simpl. apply lookup_insert_eq. }
  erewrite bind_normal; last first.
  { apply Set_size_bound. simpl. apply lookup_insert_eq. }
  unfold JSSet.size. rewrite values_add_all_clear.
  unfold p1, vs, reselect, with_globals; fields. rewrite insert_insert_eq.
  by case_decide.
Qed.

Lemma loadSubtopics_bound p s t :
  globals p !! selectedSubjects = Some s →
  globals p !! selectedTopics = Some t →
  loadSubtopics p =
    (Normal tt,
     after (loadSubtopics_outer 0 JSSet.new)
       (with_subtopics (Spinner "Loading subtopics...") p)).
Proof.
  intros Hs Ht. unfold loadSubtopics, try_catch.
  unfold mbind, JS_bind, bind, modify at 1.
  by erewrite (loadSubtopics_outer_normal _ _ (with_subtopics _ p)) by done.
Qed.

Section topic_change.
Context (backend : Request → Outcome).

(** What a Topic change followed by an uninterrupted refresh leaves. *)
Lemma topic_refresh p s t fuel :
  ready s t p →
  let vs := checked_values (topics p) in
  let p1 := reselect selectedTopics vs t p in
  let reqs := subtopic_requests (JSSet.values s) (distinct vs) in
  (vs = [] →
     drain backend fuel (dispatch handleTopicChange p) = after clearSubtopics p1) ∧
  (vs ≠ [] →
     settles_to backend fuel (length reqs) subtopics
       (Spinner "Loading subtopics...")
       (dispatch handleTopicChange p)
       (subtopics_settled backend reqs JSSet.new
          (with_subtopics (Spinner "Loading subtopics...") p1))).
Proof.
  intros (Hs & Ht & Hp) vs p1 reqs.
  pose proof (handleTopicChange_bound p t Ht) as Hh. cbv zeta in Hh.
  fold vs in Hh. fold p1 in Hh.
  assert (globals p1 !! selectedSubjects = Some s) as Hs1.
  { unfold p1, reselect; simpl. by rewrite lookup_insert_ne. }
  split.
  - intros Hvs. rewrite Hvs in Hh.
    erewrite dispatch_normal; last first.
    { rewrite Hh. cbn. reflexivity. }
    by rewrite drain_idle.
  - intros Hvs.
    destruct (decide (0 < length (distinct vs))) as [Hlt|Hlt]; last first.
    { destruct (distinct vs) eqn:Hd; simpl in Hlt; [|lia].
      by apply distinct_nil_inv in Hd. }
    erewrite dispatch_normal; last first.
    { rewrite Hh. eapply loadSubtopics_bound; [done|apply reselect_lookup]. }
    pose proof (drain_loadSubtopics_outer backend s
                  (JSSet.add_all vs (JSSet.clear t)) s 0 JSSet.new
                  (with_subtopics (Spinner "Loading subtopics...") p1) fuel)
      as Hl.
    cbv zeta in Hl. rewrite values_add_all_clear in Hl.
    apply Hl; [|done].
    split_and!; [done|apply reselect_lookup|done].
Qed.
End topic_change.

Lemma gather_replied backend reqs :
  ∀ acc, Forall (λ r, ∃ result, backend r = Replied result) reqs →
         ∃ acc', gather backend reqs acc = (reqs, Normal acc').
Proof.
  induction reqs as [|r reqs IH]; intros acc Hall; simpl; [by eexists|].
  apply Forall_cons in Hall as [[result Hr] Hall]. rewrite Hr.
  destruct (IH (if decide (status result = "success")
                then JSSet.add_all (items result) acc else acc) Hall)
    as [acc' ->].
  by eexists.
Qed.



(** ** C3: a failed query during a refresh *)

(** C3 at an application-level failure.  Math and Physics are ticked one
    after the other while the Math topics query answers with a status other
    than [success]: the second refresh publishes the Physics topics alone,
    nothing is shown with [alert] and nothing is reported as uncaught.  The
    sibling [loadSubjects] does report such an answer. *)
Theorem C3_application_failure_not_signalled :
  let q := drain school_math_down 2
             (step (Change Subject 1)
                (drain school_math_down 1
                   (step (Change Subject 0) (catalog sets_global)))) in
  checked_values (subjects q) = ["Math"; "Physics"] ∧
  school_math_down (GetTopics "Math") = failure "database unavailable" ∧
  options (topics q) = ["Algebra"; "Mechanics"] ∧
  pending q = [] ∧ alerts q = [] ∧ uncaught q = [] ∧
  alerts (run [Loaded; Settle 0 (failure "database unavailable")]
            (blank sets_global))
    = ["Failed to load subjects: database unavailable"].
Proof. vm_compute. done. Qed.

(** Whatever the statuses, a refresh whose queries are all answered shows
    no message; a rejected query is the only thing that is reported. *)
Lemma answered_refresh_is_silent backend p s fuel :
  globals p !! selectedSubjects = Some s →
  pending p = [] →
  checked_values (subjects p) ≠ [] →
  Forall (λ r, ∃ result, backend r = Replied result)
    (GetTopics <$> distinct (checked_values (subjects p))) →
  length (checked_values (subjects p)) ≤ fuel →
  let q := drain backend fuel (dispatch handleSubjectChange p) in
  alerts q = alerts p ∧ uncaught q = uncaught p ∧
  ∃ vs, topics q = rendered "No topics available for selected subjects" vs.
Proof.
  intros Hs Hp Hne Hall Hfuel q.
  destruct (subject_refresh backend p s fuel Hs Hp) as [_ Hq].
  destruct (Hq Hne) as [Hfinal _]. fold q in Hfinal. rewrite Hfinal; last first.
  { etrans; [apply length_distinct|done]. }
  destruct (gather_replied backend _ JSSet.new Hall) as [acc' Hg].
  unfold topics_settled. rewrite Hg. split_and!; [done..|by eexists].
Qed.

(** ** C4: overlapping Topic refreshes *)

(** C4, as stated, fails.  With Math ticked, Physics is ticked and Math is
    unticked before any answer arrives, so a refresh for Math and Physics
    and a later refresh for Physics alone are both in flight.  When the
    later refresh is answered first it publishes the Physics topics; the
    earlier refresh then goes on and publishes, over them, a list that
    still holds Geometry, a topic of the deselected Math. *)
Lemma C4_earlier_refresh_published_last :
  checked_values (subjects overlap) = ["Physics"] ∧
  pending overlap = [LoadTopics 2 [] "Math"; LoadTopics 4 [] "Physics"] ∧
  let later_done := step (Settle 1 (school (GetTopics "Physics"))) overlap in
  options (topics later_done) = ["Algebra"; "Mechanics"] ∧
  let all_done :=
    run [Settle 0 (school (GetTopics "Math"));
         Settle 0 (school (GetTopics "Physics"))] later_done in
  pending all_done = [] ∧
  options (topics all_done) = ["Algebra"; "Geometry"; "Mechanics"].
Proof. vm_compute. done. Qed.

(** C4, amended.  There is no generation discipline.  Whenever the answer to
    the last query of a parked [loadTopics] activation arrives, that
    activation publishes the list it has accumulated, whatever is on display
    and whatever other activations are parked; those stay parked.  So the
    Topic options are those of the refresh that is completed last. *)
Theorem C4_each_completion_publishes p k it acc subject s result :
  pending p !! k = Some (LoadTopics it acc subject) →
  globals p !! selectedSubjects = Some s →
  JSSet.next s it = None →
  let q := settle k (Replied result) p in
  let acc' := if decide (status result = "success")
              then JSSet.add_all (items result) acc else acc in
  options (topics q) = Array_sort (JSSet.values acc') ∧
  pending q = delete k (pending p).
Proof.
  intros Hk Hs Hnext q acc'. unfold q, settle. rewrite Hk.
  erewrite dispatch_normal; last first.
  { unfold resume, loadTopics_resume, try_catch.
    unfold mbind, JS_bind, bind, await, mret, JS_ret, ret.
    erewrite (loadTopics_loop_spec (with_pending _ p)) by done.
    rewrite Hnext. reflexivity. }
  by rewrite options_renderTopics.
Qed.

Lemma C4_each_completion_publishes_witness :
  let p := step (Settle 0 (school (GetTopics "Math")))
             (step (Settle 1 (school (GetTopics "Physics"))) overlap) in
  let q := settle 0 (success ["Mechanics"; "Algebra"]) p in
  pending p = [LoadTopics 4 [Some "Algebra"; Some "Geometry"] "Physics"] ∧
  options (topics q) =
    Array_sort (JSSet.values
                  (JSSet.add_all ["Mechanics"; "Algebra"]
                     [Some "Algebra"; Some "Geometry"])) ∧
  pending q = [].
Proof.
  split; [vm_compute; reflexivity|].
  apply (C4_each_completion_publishes
           (step (Settle 0 (school (GetTopics "Math")))
              (step (Settle 1 (school (GetTopics "Physics"))) overlap))
           0 4 [Some "Algebra"; Some "Geometry"] "Physics"
           [None; None; None; Some "Physics"]
           (mkReply "success" ["Mechanics"; "Algebra"] "")).
  - vm_compute. reflexivity.
  - vm_compute. reflexivity.
  - reflexivity.
Defined.

(** ** C6: what a failed refresh leaves on display *)




(** ** C7: the requests of a refresh *)




(** ** C9: what stays selected below a changed Subject selection *)

(** C9 on the page where Math, its topic Algebra and the subtopic Linear
    are ticked.  Unticking Math empties the Subject Set and both
    containers, but Algebra stays in the Topic Set.  Ticking Physics
    instead rebuilds the Topic container with nothing ticked, while Algebra
    stays in the Topic Set and the Subtopic container keeps its options
    with Linear still ticked. *)
Theorem C9_dependent_selection_survives :
  let p := linear_ticked sets_global in
  let q := step (Change Subject 0) p in
  let r := drain school 2 (step (Change Subject 1) p) in
  (checked_values (subjects q) = [] ∧
   JSSet.values <$> globals q !! selectedSubjects = Some [] ∧
   JSSet.values <$> globals q !! selectedTopics = Some ["Algebra"]) ∧
  (checked_values (subjects r) = ["Math"; "Physics"] ∧
   pending r = [] ∧
   options (topics r) = ["Algebra"; "Geometry"; "Mechanics"] ∧
   checked_values (topics r) = [] ∧
   JSSet.values <$> globals r !! selectedTopics = Some ["Algebra"] ∧
   options (subtopics r) = ["Linear"; "Quadratic"] ∧
   checked_values (subtopics r) = ["Linear"]).
Proof. vm_compute. done. Qed.

(** ** C10: wrapping the selection of the markdown input *)

Section string_facts.
Implicit Types (s : string) (n m : nat).

Lemma string_length_app s1 s2 :
  String.length (s1 +:+ s2) = String.length s1 + String.length s2.
Proof. induction s1 as [|a s1 IH]; simpl; [done|]. by rewrite IH. Qed.

Lemma string_app_assoc s1 s2 s3 :
  (s1 +:+ s2) +:+ s3 = s1 +:+ (s2 +:+ s3).
Proof.
  induction s1 as [|a s1 IH]; [done|].
  change (String a ((s1 +:+ s2) +:+ s3) = String a (s1 +:+ s2 +:+ s3)).
  by rewrite IH.
Qed.

Lemma string_length_substring s :
  ∀ n m, n + m ≤ String.length s →
         String.length (String.substring n m s) = m.
Proof.
  induction s as [|a s IH]; intros n m Hle; simpl in *.
  - destruct n, m; simpl; lia.
  - destruct n as [|n]; [destruct m as [|m]|]; simpl; [done| |].
    + rewrite IH; lia.
    + apply IH. lia.
Qed.

Lemma string_substring_0_0 s : String.substring 0 0 s = "".
Proof. by destruct s. Qed.

Lemma string_substring_cut s :
  ∀ m, m ≤ String.length s →
    String.substring 0 m s +:+ String.substring m (String.length s - m) s = s.
Proof.
  induction s as [|a s IH]; intros m Hm; simpl in *.
  - by assert (m = 0) as -> by lia.
  - destruct m as [|m]; simpl.
    + change (String a (String.substring 0 (String.length s) s) = String a s).
      f_equal. specialize (IH 0). rewrite string_substring_0_0 in IH.
      rewrite Nat.sub_0_r in IH. apply IH. lia.
    + change (String a (String.substring 0 m s +:+
                        String.substring m (String.length s - m) s)
              = String a s).
      f_equal. apply IH. lia.
Qed.

(** Cutting a string at two positions loses nothing. *)
Lemma string_substring_split s :
  ∀ n m, n ≤ m → m ≤ String.length s →
    String.substring 0 n s +:+ String.substring n (m - n) s +:+
    String.substring m (String.length s - m) s = s.
Proof.
  induction s as [|a s IH]; intros n m Hnm Hm.
  - simpl in Hm. assert (m = 0) as -> by lia. by assert (n = 0) as -> by lia.
  - destruct n as [|n].
    + rewrite string_substring_0_0, Nat.sub_0_r.
      by apply (string_substring_cut (String a s)).
    + destruct m as [|m]; [lia|]. simpl in *.
      change (String a (String.substring 0 n s +:+
                        String.substring n (m - n) s +:+
                        String.substring m (String.length s - m) s)
              = String a s).
      f_equal. apply IH; lia.
Qed.
End string_facts.

Section markdown.
Import QuestionForm.

Lemma substring_in_range v a b :
  a ≤ b → b ≤ String.length v →
  substring v a b = String.substring a (b - a) v.
Proof.
  intros Hab Hb. unfold substring.
  rewrite (Nat.min_l a), (Nat.min_l b), (Nat.min_l a b), (Nat.max_r a b) by lia.
  done.
Qed.

(** C10.  For a selection [start ≤ end] inside the text [v],
    [insertMarkdownFormat before after] leaves in the input the text up to
    [start], then [before], the selected text, [after], and the text from
    [end] on; the selection is collapsed at
    [start + |before| + (end - start) + |after|]. *)
Theorem C10_insertMarkdownFormat (before after : string) (f : Form) :
  let v := value (markdownInput f) in
  let start := selectionStart (markdownInput f) in
  let end_ := selectionEnd (markdownInput f) in
  start ≤ end_ → end_ ≤ String.length v →
  let input' := markdownInput (insertMarkdownFormat before after f) in
  let cursor :=
    start + String.length before + (end_ - start) + String.length after in
  value input' =
    String.substring 0 start v +:+ before +:+
    String.substring start (end_ - start) v +:+ after +:+
    String.substring end_ (String.length v - end_) v ∧
  selectionStart input' = cursor ∧
  selectionEnd input' = cursor.
Proof.
  destruct f as [[v start end_] shown focus].
  cbn [markdownInput value selectionStart selectionEnd]. intros Hse He.
  unfold insertMarkdownFormat, updateMarkdownPreview, setSelectionRange,
    set_value.
  cbn [markdownInput value selectionStart selectionEnd]. cbv zeta.
  unfold substring_from.
  rewrite !substring_in_range by lia. rewrite Nat.sub_0_r.
  rewrite !string_length_app, !string_length_substring by lia.
  split; [by rewrite !string_app_assoc|]. lia.
Qed.

Lemma C10_insertMarkdownFormat_witness :
  let input' := markdownInput (insertMarkdownFormat "**" "**" sample) in
  value input' = "**2** + 2" ∧
  selectionStart input' = 5 ∧ selectionEnd input' = 5.
Proof.
  apply (C10_insertMarkdownFormat "**" "**" sample); simpl; lia.
Defined.
End markdown.


(** * More about the paper builder *)

(** ** What the change handlers leave in their Sets *)

Lemma loaders_keep_globals (P : gmap string JSSet.t → Prop) :
  preserves (λ q, P (globals q)) loadTopics ∧
  preserves (λ q, P (globals q)) loadSubtopics ∧
  preserves (λ q, P (globals q)) (clearTopics ;; clearSubtopics) ∧
  preserves (λ q, P (globals q)) clearSubtopics.
Proof.
  assert (∀ entries it acc,
            preserves (λ q, P (globals q)) (loadSubtopics_scan entries it acc))
    as Hscan.
  { induction entries as [|[v|] rest IH]; intros it acc; simpl.
    - unfold_script. frame ltac:(apply preserves_modify; by intros []).
    - unfold_script.
      frame ltac:(first [apply IH | apply preserves_modify; by intros []]).
    - apply IH. }
  split_and!; unfold_script;
    frame ltac:(first [apply Hscan | apply preserves_modify; by intros []]).
Qed.

(** Whatever a selection Set held, a change handler that can see it leaves
    in it exactly the values of the ticked boxes of its level, each once, in
    the order of their first ticked box. *)
Theorem change_handlers_rebuild_selection p s t :
  globals p !! selectedSubjects = Some s →
  globals p !! selectedTopics = Some t →
  (∃ s', globals (after handleSubjectChange p) !! selectedSubjects = Some s' ∧
         JSSet.values s' = distinct (checked_values (subjects p)) ∧
         NoDup (JSSet.values s') ∧
         ∀ x, x ∈ JSSet.values s' ↔ x ∈ checked_values (subjects p)) ∧
  (∃ t', globals (after handleTopicChange p) !! selectedTopics = Some t' ∧
         JSSet.values t' = distinct (checked_values (topics p)) ∧
         NoDup (JSSet.values t') ∧
         ∀ x, x ∈ JSSet.values t' ↔ x ∈ checked_values (topics p)).
Proof.
  intros Hs Ht.
  destruct (loaders_keep_globals
              (λ g, g !! selectedSubjects
                    = Some (JSSet.add_all (checked_values (subjects p))
                              (JSSet.clear s)))) as (Hl & _ & Hc & _).
  destruct (loaders_keep_globals
              (λ g, g !! selectedTopics
                    = Some (JSSet.add_all (checked_values (topics p))
                              (JSSet.clear t)))) as (_ & Hl' & _ & Hc').
  split.
  - exists (JSSet.add_all (checked_values (subjects p)) (JSSet.clear s)).
    rewrite values_add_all_clear. split_and!.
    + unfold after. rewrite (handleSubjectChange_bound p s Hs). cbv zeta.
      case_decide; [apply Hl|apply Hc]; apply reselect_lookup.
    + done.
    + apply NoDup_distinct.
    + intros x. apply elem_of_distinct.
  - exists (JSSet.add_all (checked_values (topics p)) (JSSet.clear t)).
    rewrite values_add_all_clear. split_and!.
    + unfold after. rewrite (handleTopicChange_bound p t Ht). cbv zeta.
      case_decide; [apply Hl'|apply Hc']; apply reselect_lookup.
    + done.
    + apply NoDup_distinct.
    + intros x. apply elem_of_distinct.
Qed.

Lemma change_handlers_rebuild_selection_witness :
  let p := algebra_ticked sets_global in
  (∃ s', globals (after handleSubjectChange p) !! selectedSubjects = Some s' ∧
         JSSet.values s' = distinct (checked_values (subjects p)) ∧
         NoDup (JSSet.values s') ∧
         ∀ x, x ∈ JSSet.values s' ↔ x ∈ checked_values (subjects p)) ∧
  (∃ t', globals (after handleTopicChange p) !! selectedTopics = Some t' ∧
         JSSet.values t' = distinct (checked_values (topics p)) ∧
         NoDup (JSSet.values t') ∧
         ∀ x, x ∈ JSSet.values t' ↔ x ∈ checked_values (topics p)).
Proof.
  apply (change_handlers_rebuild_selection (algebra_ticked sets_global)
           [None; Some "Math"; Some "Physics"] [Some "Algebra"]);
    vm_compute; reflexivity.
Defined.

(** ** What a refresh publishes when every query is answered *)








(** ** Rendering unticks *)

Lemma checked_values_fresh_boxes vs : checked_values (fresh_boxes vs) = [].
Proof.
  unfold fresh_boxes, checked_values.
  induction vs as [|v vs IH]; [done|]. simpl.
  rewrite filter_cons_False by (simpl; discriminate). exact IH.
Qed.

Lemma checked_values_rendered text vs : checked_values (rendered text vs) = [].
Proof.
  unfold rendered. case_decide; [done|apply checked_values_fresh_boxes].
Qed.

(** On a page that binds both Sets, with nothing else in flight: from the
    moment a Subject change handler has run, and at every stage of its
    refresh however it ends, no Topic is ticked; and likewise no Subtopic
    is ticked once a Topic change handler has run.  Ticks on options that
    are offered again are not kept. *)
Theorem change_unticks_dependent_level backend p s t fuel :
  ready s t p →
  checked_values
    (topics (drain backend fuel (dispatch handleSubjectChange p))) = [] ∧
  checked_values
    (subtopics (drain backend fuel (dispatch handleTopicChange p))) = [].
Proof.
  intros Hr. pose proof Hr as (Hs & Ht & Hp). split.
  - destruct (subject_refresh backend p s fuel Hs Hp) as [Hnil Hcons].
    cbv zeta in Hnil, Hcons.
    set (q := drain backend fuel (dispatch handleSubjectChange p)) in *.
    destruct (decide (checked_values (subjects p) = [])) as [Hvs|Hvs].
    { by rewrite (Hnil Hvs). }
    destruct (Hcons Hvs) as (_ & Hdone & Hparked).
    destruct (decide (pending q = [])) as [Hq|Hq]; [|by rewrite (Hparked Hq)].
    rewrite (Hdone Hq).
    pose proof (topics_settled_fields backend
                  (GetTopics <$> distinct (checked_values (subjects p)))
                  JSSet.new
                  (with_topics (Spinner "Loading topics...")
                     (reselect selectedSubjects (checked_values (subjects p))
                        s p))) as Hf.
    cbv zeta in Hf. destruct (gather backend _ JSSet.new) as [issued res].
    destruct Hf as (_ & _ & _ & _ & _ & -> & _).
    destruct res; [apply checked_values_rendered|done].
  - destruct (topic_refresh backend p s t fuel Hr) as [Hnil Hcons].
    unfold settles_to in Hcons. cbv zeta in Hnil, Hcons.
    set (q := drain backend fuel (dispatch handleTopicChange p)) in *.
    destruct (decide (checked_values (topics p) = [])) as [Hvs|Hvs].
    { by rewrite (Hnil Hvs). }
    destruct (Hcons Hvs) as (_ & Hdone & Hparked).
    destruct (decide (pending q = [])) as [Hq|Hq]; [|by rewrite (Hparked Hq)].
    rewrite (Hdone Hq).
    pose proof (subtopics_settled_fields backend
                  (subtopic_requests (JSSet.values s)
                     (distinct (checked_values (topics p))))
                  JSSet.new
                  (with_subtopics (Spinner "Loading subtopics...")
                     (reselect selectedTopics (checked_values (topics p))
                        t p))) as Hf.
    cbv zeta in Hf. destruct (gather backend _ JSSet.new) as [issued res].
    destruct Hf as (_ & _ & _ & _ & _ & -> & _).
    destruct res; [apply checked_values_rendered|done].
Qed.

Lemma change_unticks_dependent_level_witness :
  let p := algebra_ticked sets_global in
  checked_values (topics p) = ["Algebra"] ∧
  checked_values (topics (drain school 2 (dispatch handleSubjectChange p))) = [] ∧
  checked_values (subtopics (drain school 2 (dispatch handleTopicChange p))) = [].
Proof.
  split; [vm_compute; reflexivity|].
  apply (change_unticks_dependent_level school (algebra_ticked sets_global)
           [None; Some "Math"; Some "Physics"] [Some "Algebra"] 2).
  vm_compute. done.
Defined.

(** ** A rejected query ends the refresh *)

Lemma gather_stops backend before :
  ∀ acc r rest e,
    Forall (λ r, ∃ result, backend r = Replied result) before →
    backend r = Rejected e →
    gather backend (before ++ r :: rest) acc = (before ++ [r], Throw e).
Proof.
  induction before as [|b before IH]; intros acc r rest e Hall Hr; simpl.
  - by rewrite Hr.
  - apply Forall_cons in Hall as [[result Hb] Hall]. rewrite Hb.
    by rewrite (IH _ r rest e Hall Hr).
Qed.

(** On a page that binds [selectedSubjects], with nothing else in flight:
    when the query for one selected Subject is rejected after the queries
    for the Subjects before it were answered, the refresh stops there.  The
    Subjects after it are not queried, the error is shown once, and the
    Topic container keeps the loading indicator. *)
Theorem topic_refresh_stops_at_rejection backend p s fuel before v rest e :
  globals p !! selectedSubjects = Some s →
  pending p = [] →
  distinct (checked_values (subjects p)) = before ++ v :: rest →
  (∀ u, u ∈ before → ∃ result, backend (GetTopics u) = Replied result) →
  backend (GetTopics v) = Rejected e →
  length (checked_values (subjects p)) ≤ fuel →
  let q := drain backend fuel (dispatch handleSubjectChange p) in
  fetched q = fetched p ++ (GetTopics <$> before ++ [v]) ∧
  alerts q = alerts p ++ ["Error loading topics: " +:+ message e] ∧
  topics q = Spinner "Loading topics..." ∧
  pending q = [].
Proof.
  intros Hs Hp Hd Hok Hrej Hfuel q.
  assert (checked_values (subjects p) ≠ []) as Hne.
  { intros Hnil. rewrite Hnil in Hd. by destruct before. }
  destruct (subject_refresh backend p s fuel Hs Hp) as [_ Hq].
  destruct (Hq Hne) as [Hfinal _]. fold q in Hfinal. rewrite Hfinal; last first.
  { etrans; [apply length_distinct|done]. }
  unfold topics_settled. rewrite Hd, fmap_app, fmap_cons.
  rewrite (gather_stops backend _ _ _ _ e); [|by apply Forall_fmap, Forall_forall|done].
  by rewrite fmap_app.
Qed.

Lemma topic_refresh_stops_at_rejection_witness :
  let p := both_ticked sets_global in
  let q := drain school_offline 2 (dispatch handleSubjectChange p) in
  fetched q = fetched p ++ (GetTopics <$> [] ++ ["Math"]) ∧
  alerts q = alerts p ++ ["Error loading topics: " +:+
                          message (Rejection "Failed to fetch")] ∧
  topics q = Spinner "Loading topics..." ∧
  pending q = [].
Proof.
  apply (topic_refresh_stops_at_rejection school_offline
           (both_ticked sets_global) [None; Some "Math"; Some "Physics"] 2
           [] "Math" ["Physics"] (Rejection "Failed to fetch")).
  - vm_compute. reflexivity.
  - vm_compute. reflexivity.
  - vm_compute. reflexivity.
  - intros u Hu. by apply elem_of_nil in Hu.
  - reflexivity.
  - vm_compute. lia.
Defined.

(** ** A refresh in flight when the selection is emptied *)

Lemma scan_all_empty entries i :
  Forall (λ e, e = None) entries → JSSet.scan entries i = None.
Proof.
  intros Hall. revert i. induction Hall as [|e rest -> _ IH]; intros i; [done|].
  apply IH.
Qed.

Lemma next_clear s i : JSSet.next (JSSet.clear s) i = None.
Proof.
  unfold JSSet.next. apply scan_all_empty, Forall_drop.
  unfold JSSet.clear. apply Forall_fmap, Forall_true. done.
Qed.

(** On a page that binds [selectedSubjects]: when a click leaves no Subject
    ticked while a Topic refresh is parked, the handler clears the Topic
    container and leaves the refresh parked; when the answer it waits for
    arrives, the refresh ends at once (its iterator finds the Set emptied)
    and publishes what it has accumulated.  Topics are on offer again
    although the Subject Set is empty. *)
Theorem parked_refresh_outlives_deselection p s k it acc subject result :
  globals p !! selectedSubjects = Some s →
  pending p !! k = Some (LoadTopics it acc subject) →
  checked_values (subjects p) = [] →
  let p1 := dispatch handleSubjectChange p in
  let q := settle k (Replied result) p1 in
  let acc' := if decide (status result = "success")
              then JSSet.add_all (items result) acc else acc in
  topics p1 = Muted "Select subjects first to see available topics" ∧
  pending p1 = pending p ∧
  JSSet.values <$> globals q !! selectedSubjects = Some [] ∧
  options (topics q) = Array_sort (JSSet.values acc') ∧
  pending q = delete k (pending p) ∧
  fetched q = fetched p.
Proof.
  intros Hs Hk Hnone p1 q acc'.
  assert (p1 = after (clearTopics ;; clearSubtopics)
                 (reselect selectedSubjects [] s p)) as Hp1.
  { unfold p1. erewrite dispatch_normal; [reflexivity|].
    rewrite (handleSubjectChange_bound p s Hs). cbv zeta. rewrite Hnone.
    cbn. reflexivity. }
  assert (globals p1 !! selectedSubjects = Some (JSSet.clear s)) as Hs1.
  { rewrite Hp1. apply reselect_lookup. }
  assert (pending p1 = pending p) as Hpend by by rewrite Hp1.
  assert (q = after (renderTopics (Array_sort (JSSet.values acc')))
                (with_pending (delete k (pending p)) p1)) as Hq.
  { unfold q, settle. rewrite Hpend, Hk.
    erewrite dispatch_normal; [reflexivity|].
    unfold resume, loadTopics_resume, try_catch.
    unfold mbind, JS_bind, bind, await, mret, JS_ret, ret.
    erewrite (loadTopics_loop_spec (with_pending _ p1)) by exact Hs1.
    by rewrite next_clear. }
  split_and!.
  - by rewrite Hp1.
  - done.
  - rewrite Hq. unfold after, renderTopics, modify; simpl.
    by rewrite Hs1; simpl; rewrite values_clear.
  - rewrite Hq. apply options_rendered.
  - by rewrite Hq.
  - rewrite Hq, Hp1. done.
Qed.

Lemma parked_refresh_outlives_deselection_witness :
  let p := with_subjects
             (Boxes [mkCheckbox "Math" false; mkCheckbox "Physics" false])
             math_loading in
  let p1 := dispatch handleSubjectChange p in
  let q := settle 0 (success ["Algebra"; "Geometry"]) p1 in
  p1 = step (Change Subject 0) math_loading ∧
  topics p1 = Muted "Select subjects first to see available topics" ∧
  pending p1 = pending p ∧
  JSSet.values <$> globals q !! selectedSubjects = Some [] ∧
  options (topics q) = Array_sort (JSSet.values
                                     (JSSet.add_all ["Algebra"; "Geometry"] [])) ∧
  pending q = delete 0 (pending p) ∧
  fetched q = fetched p.
Proof.
  split; [reflexivity|].
  apply (parked_refresh_outlives_deselection
           (with_subjects
              (Boxes [mkCheckbox "Math" false; mkCheckbox "Physics" false])
              math_loading)
           [Some "Math"] 0 1 [] "Math"
           (mkReply "success" ["Algebra"; "Geometry"] "")).
  - vm_compute. reflexivity.
  - vm_compute. reflexivity.
  - reflexivity.
Defined.

(** ** [loadSubjects] *)



(** ** Form reset *)

Lemma reset_callback_bound p s t u :
  globals p !! selectedSubjects = Some s →
  globals p !! selectedTopics = Some t →
  globals p !! selectedSubtopics = Some u →
  reset_callback p =
    (Normal tt,
     with_was_validated false
       (with_subtopics (Muted "Select topics first to see available subtopics")
          (with_topics (Muted "Select subjects first to see available topics")
             (with_globals
                (<[selectedSubtopics := JSSet.clear u]>
                   (<[selectedTopics := JSSet.clear t]>
                      (<[selectedSubjects := JSSet.clear s]> (globals p))))
                p)))).
Proof.
  intros Hs Ht Hu. unfold reset_callback.
  erewrite bind_normal by (eapply Set_clear_bound; eassumption).
  erewrite bind_normal; last first.
  { eapply Set_clear_bound. simpl. rewrite lookup_insert_ne by done. exact Ht. }
  erewrite bind_normal; last first.
  { eapply Set_clear_bound. simpl. rewrite !lookup_insert_ne by done. exact Hu. }
  reflexivity.
Qed.

(** On a page that binds the three Sets, a form reset followed by its timer
    empties the three Sets, puts both dependent containers back to their
    prompts and removes the validation mark, without a request.  The
    script leaves the Subject boxes as they are, and a refresh that is
    parked stays parked. *)
Theorem form_reset_clears_selection p s t u :
  globals p !! selectedSubjects = Some s →
  globals p !! selectedTopics = Some t →
  globals p !! selectedSubtopics = Some u →
  let q := step TimerFires (step FormReset p) in
  (JSSet.values <$> globals q !! selectedSubjects = Some [] ∧
   JSSet.values <$> globals q !! selectedTopics = Some [] ∧
   JSSet.values <$> globals q !! selectedSubtopics = Some []) ∧
  topics q = Muted "Select subjects first to see available topics" ∧
  subtopics q = Muted "Select topics first to see available subtopics" ∧
  was_validated q = false ∧
  (timers q = timers p ∧ subjects q = subjects p ∧ pending q = pending p ∧
   fetched q = fetched p ∧ alerts q = alerts p ∧ uncaught q = uncaught p).
Proof.
  intros Hs Ht Hu q.
  assert (q = dispatch reset_callback (with_timers (timers p) (with_timers (S (timers p)) p)))
    as -> by reflexivity.
  erewrite dispatch_normal; last first.
  { apply (reset_callback_bound _ s t u); assumption. }
  simpl. rewrite lookup_insert_ne, lookup_insert_ne, lookup_insert_eq by done.
  rewrite lookup_insert_ne, lookup_insert_eq by done.
  rewrite lookup_insert_eq. simpl. rewrite !values_clear.
  split_and!; done.
Qed.

Lemma form_reset_clears_selection_witness :
  let p := linear_ticked sets_global in
  let q := step TimerFires (step FormReset p) in
  JSSet.values <$> globals p !! selectedTopics = Some ["Algebra"] ∧
  (JSSet.values <$> globals q !! selectedSubjects = Some [] ∧
   JSSet.values <$> globals q !! selectedTopics = Some [] ∧
   JSSet.values <$> globals q !! selectedSubtopics = Some []) ∧
  topics q = Muted "Select subjects first to see available topics" ∧
  subtopics q = Muted "Select topics first to see available subtopics" ∧
  was_validated q = false ∧
  (timers q = timers p ∧ subjects q = subjects p ∧ pending q = pending p ∧
   fetched q = fetched p ∧ alerts q = alerts p ∧ uncaught q = uncaught p).
Proof.
  split; [vm_compute; reflexivity|].
  apply (form_reset_clears_selection (linear_ticked sets_global)
           [Some "Math"] [Some "Algebra"] []);
    vm_compute; reflexivity.
Defined.

(** ** Exceptions *)

Section normal_facts.
Context (P : Page → Prop).

Lemma normal_ret {A} (a : A) : normal_on P (mret a).
Proof. intros p _. by exists a. Qed.

Lemma normal_read {A} (f : Page → A) : normal_on P (read f).
Proof. intros p _. by eexists. Qed.

Lemma normal_modify f : normal_on P (modify f).
Proof. intros p _. by exists tt. Qed.

Lemma normal_bind {A B} (m : JS A) (k : A → JS B) :
  normal_on P m → preserves P m → (∀ a, normal_on P (k a)) →
  normal_on P (m ≫= k).
Proof.
  intros Hm Hpres Hk p Hp.
  destruct (Hm p Hp) as [a Ha]. specialize (Hpres p Hp).
  unfold after, mbind, JS_bind, bind in *.
  destruct (m p) as [[a'|e] p']; simpl in *; [|done].
  by apply Hk.
Qed.

(** Whatever the body does, a [try] whose handler cannot throw completes
    normally. *)
Lemma normal_try_catch {A} (m : JS A) h :
  (∀ e q, ∃ a, fst (h e q) = Normal a) → normal_on P (try_catch m h).
Proof.
  intros Hh p _. unfold try_catch.
  destruct (m p) as [[a|e] p']; simpl; [by exists a|apply Hh].
Qed.

Lemma normal_for_each {A} (l : list A) f :
  (∀ x, normal_on P (f x)) → (∀ x, preserves P (f x)) →
  normal_on P (for_each l f).
Proof.
  intros Hf Hpres. induction l as [|x l IH]; simpl.
  - apply (normal_ret tt).
  - apply normal_bind; [apply Hf|apply Hpres|done].
Qed.

Lemma normal_update x (f : JSSet.t → JSSet.t) :
  (∀ p, P p → bound x p) →
  normal_on P (s ← resolve x; store x (f s)).
Proof.
  intros Hb p Hp. destruct (Hb p Hp) as [s Hs].
  erewrite bind_normal by (by apply resolve_bound). by exists tt.
Qed.

Lemma normal_size x :
  (∀ p, P p → bound x p) → normal_on P (Set_size x).
Proof.
  intros Hb p Hp. destruct (Hb p Hp) as [s Hs].
  rewrite (Set_size_bound _ s) by done. by eexists.
Qed.
End normal_facts.

Lemma showError_normal m q : ∃ a, fst (showError m q) = Normal a.
Proof. by exists tt. Qed.

Lemma normal_pair {A} (m : JS A) p :
  (∃ a, fst (m p) = Normal a) → ∃ a q, m p = (Normal a, q).
Proof.
  intros [a Ha]. destruct (m p) as [c q]; simpl in *. subst. by exists a, q.
Qed.

Lemma loadTopics_normal p : ∃ q, loadTopics p = (Normal tt, q).
Proof.
  destruct (normal_pair loadTopics p) as ([] & q & Hq); [|by exists q].
  apply (normal_try_catch (λ _, True)); [|done].
  intros; apply showError_normal.
Qed.

Lemma loadSubtopics_normal p : ∃ q, loadSubtopics p = (Normal tt, q).
Proof.
  destruct (normal_pair loadSubtopics p) as ([] & q & Hq); [|by exists q].
  apply (normal_try_catch (λ _, True)); [|done].
  intros; apply showError_normal.
Qed.

Lemma resume_normal t o p : ∃ q, resume t o p = (Normal tt, q).
Proof.
  destruct (normal_pair (resume t o) p) as ([] & q & Hq); [|by exists q].
  destruct t; apply (normal_try_catch (λ _, True)); try done;
    intros; apply showError_normal.
Qed.

(** No statement of the scripts touches the list of uncaught exceptions:
    only the event loop adds to it. *)
Ltac uncaught_leaf := apply preserves_modify; by intros [].

Lemma uncaught_loadSubtopics_scan u entries it acc :
  preserves (λ r, uncaught r = u) (loadSubtopics_scan entries it acc).
Proof.
  revert it acc. induction entries as [|[v|] rest IH]; intros it acc; simpl.
  - unfold_script. frame uncaught_leaf.
  - unfold_script. frame ltac:(first [apply IH | uncaught_leaf]).
  - apply IH.
Qed.

Lemma uncaught_resume u t o : preserves (λ r, uncaught r = u) (resume t o).
Proof.
  destruct t; unfold_script;
    frame ltac:(first [apply uncaught_loadSubtopics_scan | uncaught_leaf]).
Qed.

Lemma uncaught_handlers u :
  preserves (λ r, uncaught r = u) handleSubjectChange ∧
  preserves (λ r, uncaught r = u) handleTopicChange ∧
  preserves (λ r, uncaught r = u) handleFormReset ∧
  preserves (λ r, uncaught r = u) reset_callback ∧
  preserves (λ r, uncaught r = u) on_DOMContentLoaded.
Proof.
  split_and!; unfold_script; unfold Set_clear, Set_add, Set_size, store;
    frame ltac:(first [apply uncaught_loadSubtopics_scan | uncaught_leaf]).
Qed.

Lemma dispatch_keeps_uncaught {A} (m : JS A) p :
  (∃ a, fst (m p) = Normal a) →
  preserves (λ r, uncaught r = uncaught p) m →
  uncaught (dispatch m p) = uncaught p.
Proof.
  intros Hn Hkeep. destruct (normal_pair m p Hn) as (a & q & Hq).
  specialize (Hkeep p eq_refl). unfold after in Hkeep. rewrite Hq in Hkeep.
  by erewrite dispatch_normal by exact Hq.
Qed.

Lemma settle_keeps_uncaught k o p : uncaught (settle k o p) = uncaught p.
Proof.
  unfold settle. destruct (pending p !! k) as [t|]; [|done].
  set (q := with_pending (delete k (pending p)) p).
  change (uncaught p) with (uncaught q).
  apply dispatch_keeps_uncaught; [|apply uncaught_resume].
  destruct (resume_normal t o q) as [r Hr]. exists tt. by rewrite Hr.
Qed.

(** The three loaders never throw to their caller, at their start or when
    they are resumed, whatever the global scope and whatever the outcome
    of the request: each exception ends in their [catch].  So the answer to
    a request never leaves an uncaught exception behind. *)
Theorem loaders_never_throw p :
  (∃ q, loadSubjects p = (Normal tt, q)) ∧
  (∃ q, loadTopics p = (Normal tt, q)) ∧
  (∃ q, loadSubtopics p = (Normal tt, q)) ∧
  (∀ t o, ∃ q, resume t o p = (Normal tt, q)) ∧
  (∀ k o, uncaught (settle k o p) = uncaught p).
Proof.
  split_and!.
  - by eexists.
  - apply loadTopics_normal.
  - apply loadSubtopics_normal.
  - intros t o. apply resume_normal.
  - intros k o. apply settle_keeps_uncaught.
Qed.

Lemma all_bound_preserved {A} (m : JS A) :
  (∀ x, preserves (bound x) m) → preserves all_bound m.
Proof.
  intros Hm p (H1 & H2 & H3). split_and!; by apply Hm.
Qed.

Lemma all_bound_handlers :
  preserves all_bound handleSubjectChange ∧
  preserves all_bound handleTopicChange ∧
  preserves all_bound reset_callback.
Proof.
  split_and!; apply all_bound_preserved; intros x;
    destruct (bound_handlers x) as (? & ? & ? & ? & ?); done.
Qed.

Lemma normal_handlers :
  normal_on all_bound handleSubjectChange ∧
  normal_on all_bound handleTopicChange ∧
  normal_on all_bound reset_callback.
Proof.
  assert (∀ x f, x ∈ [selectedSubjects; selectedTopics; selectedSubtopics] →
            normal_on all_bound (s ← resolve x; store x (f s))) as Hupd.
  { intros x f Hx. apply normal_update. intros p (H1 & H2 & H3).
    set_unfold. by destruct Hx as [->|[->|[->|[]]]]. }
  assert (∀ x f, preserves all_bound (s ← resolve x; store x (f s))) as Hkeep.
  { intros x f. apply all_bound_preserved. intros y.
    frame ltac:(apply bound_store). }
  assert (∀ x, x ∈ [selectedSubjects; selectedTopics; selectedSubtopics] →
            normal_on all_bound (Set_size x)) as Hsize.
  { intros x Hx. apply normal_size. intros p (H1 & H2 & H3).
    set_unfold. by destruct Hx as [->|[->|[->|[]]]]. }
  assert (∀ x, preserves all_bound (Set_size x)) as Hsize_keep.
  { intros x. apply all_bound_preserved. intros y. unfold Set_size.
    frame fail. }
  assert (∀ A (f : Page → A), preserves all_bound (read f)) as Hread.
  { intros A f. apply preserves_read. }
  assert (∀ (m : JS unit) p, (∃ q, m p = (Normal tt, q)) →
            ∃ a, fst (m p) = Normal a) as Hfst.
  { intros m p [q Hq]. exists tt. by rewrite Hq. }
  split_and!.
  - unfold handleSubjectChange, Set_clear, Set_add.
    apply normal_bind; [apply Hupd; set_solver|apply Hkeep|intros _].
    apply normal_bind; [apply normal_read|apply Hread|intros vs].
    apply normal_bind; [|apply preserves_for_each; intros; apply Hkeep|intros _].
    { apply normal_for_each; intros v; [apply Hupd; set_solver|apply Hkeep]. }
    apply normal_bind; [apply Hsize; set_solver|apply Hsize_keep|intros n].
    destruct (decide (0 < n)).
    + intros p _. apply Hfst, loadTopics_normal.
    + intros p _. by exists tt.
  - unfold handleTopicChange, Set_clear, Set_add.
    apply normal_bind; [apply Hupd; set_solver|apply Hkeep|intros _].
    apply normal_bind; [apply normal_read|apply Hread|intros vs].
    apply normal_bind; [|apply preserves_for_each; intros; apply Hkeep|intros _].
    { apply normal_for_each; intros v; [apply Hupd; set_solver|apply Hkeep]. }
    apply normal_bind; [apply Hsize; set_solver|apply Hsize_keep|intros n].
    destruct (decide (0 < n)).
    + intros p _. apply Hfst, loadSubtopics_normal.
    + intros p _. by exists tt.
  - unfold reset_callback, Set_clear.
    apply normal_bind; [apply Hupd; set_solver|apply Hkeep|intros _].
    apply normal_bind; [apply Hupd; set_solver|apply Hkeep|intros _].
    apply normal_bind; [apply Hupd; set_solver|apply Hkeep|intros _].
    intros p _. by exists tt.
Qed.

Lemma step_all_bound e p : all_bound p → all_bound (step e p).
Proof. intros (H1 & H2 & H3). split_and!; by apply step_bound. Qed.

Lemma step_keeps_uncaught e p :
  all_bound p → uncaught (step e p) = uncaught p.
Proof.
  intros Hp.
  destruct normal_handlers as (Hs & Ht & Hr).
  destruct e as [|[] i|k o| |]; cbn [step].
  - apply dispatch_keeps_uncaught; [by eexists|].
    by destruct (uncaught_handlers (uncaught p)) as (_ & _ & _ & _ & ?).
  - destruct (toggle i (subjects p)) as [c|]; [|done].
    change (uncaught p) with (uncaught (with_subjects c p)).
    apply dispatch_keeps_uncaught; [by apply Hs|].
    by destruct (uncaught_handlers (uncaught p)) as (? & _).
  - destruct (toggle i (topics p)) as [c|]; [|done].
    change (uncaught p) with (uncaught (with_topics c p)).
    apply dispatch_keeps_uncaught; [by apply Ht|].
    by destruct (uncaught_handlers (uncaught p)) as (_ & ? & _).
  - by destruct (toggle i (subtopics p)).
  - apply settle_keeps_uncaught.
  - apply dispatch_keeps_uncaught; [by eexists|].
    by destruct (uncaught_handlers (uncaught p)) as (_ & _ & ? & _).
  - destruct (timers p) as [|n]; [done|].
    change (uncaught p) with (uncaught (with_timers n p)).
    apply dispatch_keeps_uncaught; [by apply Hr|].
    by destruct (uncaught_handlers (uncaught p)) as (_ & _ & _ & ? & _).
Qed.

(** Once the three Sets are bindings of the global scope, no event of the
    page ends in an uncaught exception, whatever the boxes ticked, the
    answers of the server and the order of the events. *)
Theorem bound_sets_no_uncaught_exception es p :
  all_bound p → uncaught (run es p) = uncaught p.
Proof.
  revert p. induction es as [|e es IH]; intros p Hp; [done|].
  change (run (e :: es) p) with (run es (step e p)).
  rewrite IH by by apply step_all_bound. by apply step_keeps_uncaught.
Qed.

Lemma bound_sets_no_uncaught_exception_witness :
  all_bound (catalog sets_global) ∧
  uncaught (run [Change Subject 0; Settle 0 (Rejected (Rejection "offline"));
                 Change Subject 0; FormReset; TimerFires]
              (catalog sets_global)) = [].
Proof.
  assert (all_bound (catalog sets_global)) as H.
  { split_and!; by eexists. }
  split; [done|].
  by rewrite (bound_sets_no_uncaught_exception _ _ H).
Defined.

(** ** Requests *)

Lemma issues_quiet {A} n (m : JS A) : quiet m → issues n m.
Proof.
  intros Hm p. exists []. destruct (Hm _ _ p (conj eq_refl eq_refl)) as [-> ->].
  rewrite !app_nil_r. split_and!; [simpl; lia|done..].
Qed.

Lemma issues_bind {A B} n (m : JS A) (k : A → JS B) :
  quiet m → (∀ a, issues n (k a)) → issues n (m ≫= k).
Proof.
  intros Hm Hk p. specialize (Hm _ _ p (conj eq_refl eq_refl)).
  unfold after, mbind, JS_bind, bind in *.
  destruct (m p) as [[a|e] q]; simpl in *; destruct Hm as [<- <-].
  - apply Hk.
  - exists []. rewrite !app_nil_r. split_and!; [simpl; lia|done..].
Qed.

Lemma issues_try_catch {A} n (m : JS A) h :
  issues n m → (∀ e, quiet (h e)) → issues n (try_catch m h).
Proof.
  intros Hm Hh p. destruct (Hm p) as (ts & Hn & Hp & Hf).
  exists ts. split; [done|].
  pose proof (λ e q, Hh e _ _ q (conj eq_refl eq_refl)) as Hq.
  unfold after, try_catch in *.
  destruct (m p) as [[a|e] q]; simpl in *; [done|].
  by destruct (Hq e q) as [-> ->].
Qed.

Lemma issues_suspend t : issues 1 (suspend t).
Proof. intros p. by exists [t]. Qed.

Ltac quiet_leaf := apply preserves_modify; by intros [].

Lemma quiet_catch :
  (∀ e, quiet (loadTopics_catch e)) ∧ (∀ e, quiet (loadSubtopics_catch e)).
Proof. split; intros e ts rs; unfold_script; frame quiet_leaf. Qed.

Lemma issues_loadTopics_loop it acc : issues 1 (loadTopics_loop it acc).
Proof.
  unfold loadTopics_loop. apply issues_bind.
  { intros ts rs. apply preserves_resolve. }
  intros s. destruct (JSSet.next s it) as [[subject it']|].
  - apply issues_suspend.
  - apply issues_quiet. intros ts rs. unfold_script. frame quiet_leaf.
Qed.

Lemma issues_loadSubtopics_scan entries it acc :
  issues 1 (loadSubtopics_scan entries it acc).
Proof.
  revert it acc. induction entries as [|[v|] rest IH]; intros it acc; simpl.
  - apply issues_quiet. intros ts rs. unfold_script. frame quiet_leaf.
  - apply issues_bind; [intros ts rs; apply preserves_resolve|].
    intros t. destruct (JSSet.next t 0) as [[topic jt]|]; [|apply IH].
    apply issues_suspend.
  - apply IH.
Qed.

Lemma issues_loadSubtopics_outer it acc : issues 1 (loadSubtopics_outer it acc).
Proof.
  unfold loadSubtopics_outer.
  apply issues_bind; [intros ts rs; apply preserves_resolve|].
  intros s. apply issues_loadSubtopics_scan.
Qed.

Lemma issues_loadSubtopics_inner it subject jt acc :
  issues 1 (loadSubtopics_inner it subject jt acc).
Proof.
  unfold loadSubtopics_inner.
  apply issues_bind; [intros ts rs; apply preserves_resolve|].
  intros t. destruct (JSSet.next t jt) as [[topic jt']|].
  - apply issues_suspend.
  - apply issues_loadSubtopics_outer.
Qed.

Lemma issues_loaders :
  issues 1 loadTopics ∧ issues 1 loadSubtopics ∧ ∀ t o, issues 1 (resume t o).
Proof.
  destruct quiet_catch as [Ht Hs].
  split_and!.
  - apply issues_try_catch; [|done]. apply issues_bind.
    { intros ts rs. quiet_leaf. }
    intros _. apply issues_loadTopics_loop.
  - apply issues_try_catch; [|done]. apply issues_bind.
    { intros ts rs. quiet_leaf. }
    intros _. apply issues_loadSubtopics_outer.
  - intros [|it acc subject|it subject jt topic acc] o; simpl.
    + apply issues_quiet. intros ts rs. unfold_script. frame quiet_leaf.
    + apply issues_try_catch; [|done]. apply issues_bind.
      { intros ts rs. apply preserves_await. }
      intros result. apply issues_loadTopics_loop.
    + apply issues_try_catch; [|done]. apply issues_bind.
      { intros ts rs. apply preserves_await. }
      intros result. apply issues_loadSubtopics_inner.
Qed.

Lemma quiet_selection x :
  quiet (Set_clear x ;;
         vs ← read (λ p, checked_values (subjects p));
         for_each vs (Set_add x)) ∧
  quiet (Set_clear x ;;
         vs ← read (λ p, checked_values (topics p));
         for_each vs (Set_add x)) ∧
  quiet (Set_size x) ∧ quiet (Set_clear x).
Proof.
  split_and!; intros ts rs; unfold Set_clear, Set_add, Set_size, store;
    frame quiet_leaf.
Qed.

Lemma issues_handlers :
  issues 1 handleSubjectChange ∧ issues 1 handleTopicChange ∧
  issues 1 reset_callback ∧ issues 1 handleFormReset ∧
  issues 1 on_DOMContentLoaded.
Proof.
  destruct issues_loaders as (Ht & Hs & _).
  assert (∀ x, quiet (Set_clear x)) as Hclear.
  { intros x. apply quiet_selection. }
  assert (∀ x, quiet (Set_size x)) as Hsize.
  { intros x. apply quiet_selection. }
  assert (∀ x v, quiet (Set_add x v)) as Hadd.
  { intros x v ts rs. unfold Set_add, store. frame quiet_leaf. }
  assert (∀ A (f : Page → A), quiet (read f)) as Hread.
  { intros A f ts rs. apply preserves_read. }
  assert (∀ x vs, quiet (for_each vs (Set_add x))) as Heach.
  { intros x vs ts rs. apply preserves_for_each. intros v. apply Hadd. }
  split_and!.
  - unfold handleSubjectChange.
    apply issues_bind; [done|intros _].
    apply issues_bind; [done|intros vs].
    apply issues_bind; [done|intros _].
    apply issues_bind; [done|intros n].
    destruct (decide (0 < n)); [done|].
    apply issues_quiet. intros ts rs. unfold_script. frame quiet_leaf.
  - unfold handleTopicChange.
    apply issues_bind; [done|intros _].
    apply issues_bind; [done|intros vs].
    apply issues_bind; [done|intros _].
    apply issues_bind; [done|intros n].
    destruct (decide (0 < n)); [done|].
    apply issues_quiet. intros ts rs. unfold_script. frame quiet_leaf.
  - apply issues_quiet. intros ts rs. unfold_script.
    unfold Set_clear, store. frame quiet_leaf.
  - apply issues_quiet. intros ts rs. unfold_script. frame quiet_leaf.
  - unfold on_DOMContentLoaded, loadSubjects. intros p. by exists [LoadSubjects].
Qed.

Lemma issues_dispatch {A} n (m : JS A) p :
  issues n m →
  ∃ ts, length ts ≤ n ∧
    pending (dispatch m p) = pending p ++ ts ∧
    fetched (dispatch m p) = fetched p ++ map awaiting ts.
Proof.
  intros Hm. destruct (Hm p) as (ts & Hn & Hp & Hf). exists ts.
  unfold dispatch, after in *. by destruct (m p) as [[a|e] q].
Qed.

(** Requests go out one at a time.  An event issues at most one request and
    parks exactly one activation for each request it issues; apart from
    that, the only change to the parked activations is that the answered
    one is taken out.  A refresh with several subjects or topics therefore
    asks its questions in sequence, the next one only after the answer to
    the one before. *)
Theorem one_request_per_event e p :
  ∃ ts, length ts ≤ 1 ∧
    fetched (step e p) = fetched p ++ map awaiting ts ∧
    pending (step e p) =
      match e with
      | Settle k _ => delete k (pending p)
      | _ => pending p
      end ++ ts.
Proof.
  destruct issues_handlers as (Hs & Ht & Hr & Hf & Hl).
  destruct issues_loaders as (_ & _ & Hres).
  assert (∃ ts : list Task, length ts ≤ 1 ∧
            fetched p = fetched p ++ map awaiting ts ∧
            pending p = pending p ++ ts) as Hnone.
  { exists []. rewrite !app_nil_r. split_and!; [simpl; lia|done..]. }
  assert (∀ A (m : JS A) q, issues 1 m →
            ∃ ts, length ts ≤ 1 ∧
              fetched (dispatch m q) = fetched q ++ map awaiting ts ∧
              pending (dispatch m q) = pending q ++ ts) as Hd.
  { intros A m q Hm. destruct (issues_dispatch 1 m q Hm) as (ts & ? & ? & ?).
    by exists ts. }
  destruct e as [|[] i|k o| |]; cbn [step].
  - by apply Hd.
  - destruct (toggle i (subjects p)) as [c|]; [|done].
    by apply (Hd _ _ (with_subjects c p)).
  - destruct (toggle i (topics p)) as [c|]; [|done].
    by apply (Hd _ _ (with_topics c p)).
  - by destruct (toggle i (subtopics p)).
  - unfold settle. destruct (pending p !! k) as [t|] eqn:Hk.
    + by apply (Hd _ _ (with_pending (delete k (pending p)) p)).
    + apply lookup_ge_None in Hk.
      by rewrite delete_take_drop, take_ge, drop_ge, app_nil_r by lia.
  - by apply Hd.
  - destruct (timers p) as [|n]; [done|].
    by apply (Hd _ _ (with_timers n p)).
Qed.
(** * Properties of the practice page *)

Section practice.
Import Practice.
Implicit Types (p q : State) (t : list SubjectElement) (n : Node).

Lemma node_at_each_node f i j k t :
  node_at i j k (each_node f t) = f <$> node_at i j k t.
Proof.
  unfold node_at, each_node. rewrite list_lookup_fmap.
  destruct (t !! i) as [s|]; simpl; [|done].
  rewrite list_lookup_fmap.
  destruct (topic_elements s !! j) as [e|]; simpl; [|done].
  by rewrite list_lookup_fmap.
Qed.

Lemma node_at_alter_node f i j k t :
  node_at i j k (alter_node f i j k t) = f <$> node_at i j k t.
Proof.
  unfold node_at, alter_node. rewrite list_lookup_alter_eq.
  destruct (t !! i) as [s|]; simpl; [|done].
  rewrite list_lookup_alter_eq.
  destruct (topic_elements s !! j) as [e|]; simpl; [|done].
  by rewrite list_lookup_alter_eq.
Qed.

Lemma node_at_alter_node_ne f i j k i' j' k' t :
  (i, j, k) ≠ (i', j', k') →
  node_at i' j' k' (alter_node f i j k t) = node_at i' j' k' t.
Proof.
  intros Hne. unfold node_at, alter_node.
  destruct (decide (i = i')) as [<-|Hi]; [|by rewrite list_lookup_alter_ne].
  rewrite list_lookup_alter_eq.
  destruct (t !! i) as [s|]; simpl; [|done].
  destruct (decide (j = j')) as [<-|Hj]; [|by rewrite list_lookup_alter_ne].
  rewrite list_lookup_alter_eq.
  destruct (topic_elements s !! j) as [e|]; simpl; [|done].
  destruct (decide (k = k')) as [<-|Hk]; [done|].
  by rewrite list_lookup_alter_ne.
Qed.

Lemma inactive_each_node t :
  Forall (λ n, active n = false)
    (tree_nodes (each_node (with_active false) t)).
Proof.
  unfold tree_nodes, each_node.
  induction t as [|s t IH]; [constructor|].
  rewrite fmap_cons, bind_cons. apply Forall_app. split; [|done].
  constructor; [done|]. simpl.
  induction (topic_elements s) as [|e es IHe]; [constructor|].
  rewrite fmap_cons, bind_cons. apply Forall_app. split; [|done].
  constructor; [done|]. simpl.
  induction (subtopic_nodes e) as [|n ns IHn]; constructor; done.
Qed.

Lemma filter_inactive (l : list Node) :
  Forall (λ n, active n = false) l → filter (λ n, active n = true) l = [].
Proof.
  induction 1 as [|n l Hn _ IH]; [done|].
  rewrite filter_cons_False by congruence. done.
Qed.

Lemma filter_alter_active (l : list Node) k n :
  Forall (λ n, active n = false) l → l !! k = Some n →
  filter (λ n, active n = true) (alter (with_active true) k l)
  = [with_active true n].
Proof.
  intros Hl. revert k. induction Hl as [|m l Hm Hl IH]; intros k Hk; [done|].
  destruct k as [|k]; simpl in *.
  - injection Hk as ->. rewrite filter_cons_True by done.
    by rewrite filter_inactive.
  - rewrite filter_cons_False by congruence. by apply IH.
Qed.

Lemma nodes_cons s t :
  tree_nodes (s :: t) =
    subject_node s ::
      (topic_elements s ≫= λ e, topic_node e :: subtopic_nodes e) ++
      tree_nodes t.
Proof. done. Qed.

Lemma one_active_topics (es : list TopicElement) j k n :
  Forall (λ n, active n = false)
    (es ≫= λ e, topic_node e :: subtopic_nodes e) →
  (e ← es !! j; subtopic_nodes e !! k) = Some n →
  filter (λ n, active n = true)
    (alter (λ e, mkTopicElement (topic_node e)
                   (alter (with_active true) k (subtopic_nodes e))) j es
     ≫= λ e, topic_node e :: subtopic_nodes e)
  = [with_active true n].
Proof.
  revert j. induction es as [|e es IH]; intros j Hes Hn; [done|].
  rewrite bind_cons in Hes. apply Forall_app in Hes as [He Hes].
  apply Forall_cons in He as [He Hns].
  destruct j as [|j]; simpl in Hn.
  - change (alter ?f 0 (e :: es)) with (f e :: es).
    rewrite bind_cons. cbn [topic_node subtopic_nodes].
    rewrite filter_app, (filter_inactive _ Hes), app_nil_r.
    rewrite filter_cons_False by congruence.
    by apply filter_alter_active.
  - change (alter ?f (S j) (e :: es)) with (e :: alter f j es).
    rewrite bind_cons, filter_app, filter_cons_False by congruence.
    rewrite (filter_inactive _ Hns). by apply IH.
Qed.

Lemma one_active_after_alter t i j k n :
  Forall (λ n, active n = false) (tree_nodes t) →
  node_at i j k t = Some n →
  filter (λ n, active n = true)
    (tree_nodes (alter_node (with_active true) i j k t))
  = [with_active true n].
Proof.
  unfold node_at, alter_node.
  revert i. induction t as [|s t IH]; intros i Ht Hn; [done|].
  rewrite nodes_cons in Ht. apply Forall_cons in Ht as [Hs Ht].
  apply Forall_app in Ht as [Hes Ht].
  destruct i as [|i]; simpl in Hn.
  - change (alter ?f 0 (s :: t)) with (f s :: t).
    rewrite nodes_cons. cbn [subject_node topic_elements].
    rewrite filter_cons_False by congruence.
    rewrite filter_app, (filter_inactive _ Ht), app_nil_r.
    by apply one_active_topics.
  - change (alter ?f (S i) (s :: t)) with (s :: alter f i t).
    rewrite nodes_cons, filter_cons_False by congruence.
    rewrite filter_app, (filter_inactive _ Hes). by apply IH.
Qed.

Lemma node_at_after_click i j k i' j' k' t :
  node_at i' j' k'
    (alter_node (with_active true) i j k (each_node (with_active false) t))
  = with_active (bool_decide ((i, j, k) = (i', j', k')))
      <$> node_at i' j' k' t.
Proof.
  case_bool_decide as Heq.
  - injection Heq as <- <- <-.
    rewrite node_at_alter_node, node_at_each_node.
    by destruct (node_at i j k t).
  - rewrite node_at_alter_node_ne by done. by rewrite node_at_each_node.
Qed.

Lemma loadQuestions_sloppy subject topic subtopic p :
  strict p = false →
  loadQuestions subject topic subtopic p
  = suspend (LoadQuestions subject topic subtopic)
      (showQuestionDetail false
         (showQuestionList false
            (showWelcomeMessage false
               (with_currentSelection
                  (Some (mkSelection subject topic subtopic)) p)))).
Proof.
  intros Hp. unfold loadQuestions, assign_currentSelection. by rewrite Hp.
Qed.

Lemma loadQuestions_resume_sloppy subject topic subtopic r p :
  strict p = false → status r = "success" →
  loadQuestions_resume subject topic subtopic (Replied r) p
  = showQuestionList true
      (renderQuestionList (questions r) subject topic subtopic
         (with_currentQuestions (Some (questions r)) p)).
Proof.
  intros Hp Hr. unfold loadQuestions_resume, assign_currentQuestions.
  by rewrite decide_True, Hp by done.
Qed.

Lemma question_tree_run_handler h p :
  question_tree (run_handler h p) = question_tree p.
Proof.
  destruct h as [|subject topic subtopic]; [done|].
  cbn [run_handler]. unfold loadQuestions.
  by destruct (assign_currentSelection _ p) as [error|p1] eqn:Hp;
    [|unfold assign_currentSelection in Hp; destruct (_ && _);
      [|injection Hp as <-]].
Qed.

Lemma strict_renderQuestionList qs subject topic subtopic p :
  strict (renderQuestionList qs subject topic subtopic p) = strict p.
Proof. unfold renderQuestionList. by destruct (decide _). Qed.

Lemma strict_resume a o p : strict (resume a o p) = strict p.
Proof.
  destruct a as [|subject topic subtopic|questionId m], o as [e|r];
    cbn [resume loadQuestionTree_resume loadQuestions_resume
         loadQuestionDetail_resume]; try done.
  - by destruct (decide _).
  - destruct (decide _); [|done].
    unfold assign_currentQuestions. destruct (_ && _); [done|].
    cbn. by rewrite strict_renderQuestionList.
  - by destruct (decide _).
Qed.

Lemma strict_step e p : strict (step e p) = strict p.
Proof.
  destruct e as [|i j k|i j k|i j k|i|i|i| |k o]; cbn [step]; try done.
  - destruct (_ ≫= _) as [[|subject topic subtopic]|]; try done.
    unfold node_click. cbn [run_handler]. unfold loadQuestions.
    set (p1 := with_question_tree _ p).
    unfold assign_currentSelection. by destruct (_ && _).
  - by destruct (_ ≫= _).
  - by destruct (_ ≫= _).
  - by destruct (_ !! i).
  - destruct (pending p !! k) as [a|]; [|done]. by rewrite strict_resume.
Qed.

Lemma node_at_renderQuestionTree
    (tree : list (string * list (string * list (string * string)))) i j k :
  node_at i j k (renderQuestionTree tree) =
    '(subject, topics) ← tree !! i;
    '(topic, subtopics) ← topics !! j;
    '(subtopic, count) ← subtopics !! k;
    Some (createTreeNode (subtopic +:+ " (" +:+ count +:+ ")") "subtopic"
            (LoadQuestionsOf subject topic subtopic)).
Proof.
  unfold node_at, renderQuestionTree. rewrite list_lookup_fmap.
  destruct (tree !! i) as [[subject topics]|]; [|done].
  cbn -[createTreeNode].
  rewrite list_lookup_fmap.
  destruct (topics !! j) as [[topic subtopics]|]; [|done].
  cbn -[createTreeNode].
  rewrite list_lookup_fmap.
  by destruct (subtopics !! k) as [[subtopic count]|].
Qed.

(** A click on a subtopic node leaves exactly one node of the tree
    marked active, the node clicked, whatever was marked before. *)
Theorem click_marks_exactly_one_node p i j k n h :
  node_at i j k (question_tree p) = Some n → listeners n = Some h →
  let q := step (ClickNode i j k) p in
  filter (λ m, active m = true) (tree_nodes (question_tree q))
    = [with_active true n] ∧
  node_at i j k (question_tree q) = Some (with_active true n).
Proof.
  intros Hn Hh. cbn [step]. rewrite Hn. cbn [mbind option_bind]. rewrite Hh.
  unfold node_click. rewrite question_tree_run_handler. cbn [question_tree with_question_tree].
  split.
  - rewrite (one_active_after_alter _ i j k (with_active false n));
      [done|apply inactive_each_node|].
    by rewrite node_at_each_node, Hn.
  - rewrite node_at_after_click, Hn. by rewrite bool_decide_true.
Qed.

Lemma click_marks_exactly_one_node_witness :
  let q := step (ClickNode 1 0 0) listing in
  let lenses :=
    createTreeNode "Lenses (1)" "subtopic"
      (LoadQuestionsOf "Physics" "Optics" "Lenses") in
  filter (λ m, active m = true) (tree_nodes (question_tree q))
    = [with_active true lenses] ∧
  node_at 1 0 0 (question_tree q) = Some (with_active true lenses).
Proof.
  by apply (click_marks_exactly_one_node listing 1 0 0 _
              (LoadQuestionsOf "Physics" "Optics" "Lenses")).
Defined.

Lemma settle_last p (a : Task) o :
  step (Settle (length (pending p)) o) (suspend a p)
  = resume a o (with_fetched (fetched p ++ [awaiting a]) p).
Proof.
  cbn [step]. unfold suspend. cbn [pending with_pending with_fetched].
  rewrite lookup_app_r, Nat.sub_diag by done. cbn [lookup list_lookup].
  f_equal. destruct p. cbn.
  f_equal. rewrite delete_take_drop, take_app_length.
  rewrite drop_ge by (rewrite length_app; simpl; lia).
  by rewrite app_nil_r.
Qed.

(** The request that a click on a node of the tree sends names the
    subject, topic and subtopic on the path of the node: each node keeps
    the names it was made with.  In sloppy mode, after the tree has been
    answered with [tree], clicking the [k]-th subtopic of the [j]-th
    topic of the [i]-th subject asks for the questions of exactly these
    three. *)
Theorem click_requests_subtopic_on_its_path p (w : nat) r i j k
    subject topics topic subtopics subtopic count :
  strict p = false →
  pending p !! w = Some LoadQuestionTree →
  status r = "success" →
  tree r !! i = Some (subject, topics) →
  topics !! j = Some (topic, subtopics) →
  subtopics !! k = Some (subtopic, count) →
  let q := run [Settle w (Replied r); ClickNode i j k] p in
  fetched q = fetched p ++ [GetQuestions subject topic subtopic] ∧
  pending q
    = delete w (pending p) ++ [LoadQuestions subject topic subtopic] ∧
  currentSelection q = Some (mkSelection subject topic subtopic) ∧
  (text <$> node_at i j k (question_tree q))
    = Some (subtopic +:+ " (" +:+ count +:+ ")").
Proof.
  intros Hp Hw Hr Hi Hj Hk. cbn [run foldl].
  assert (step (Settle w (Replied r)) p
          = with_question_tree_display "block"
              (with_loading_tree "none"
                 (with_question_tree (renderQuestionTree (tree r))
                    (with_pending (delete w (pending p)) p)))) as ->.
  { cbn [step]. rewrite Hw. cbn [resume loadQuestionTree_resume].
    by rewrite decide_True by done. }
  cbn [step question_tree with_question_tree_display with_loading_tree
       with_question_tree].
  unfold Tree in *.
  rewrite node_at_renderQuestionTree, Hi. cbn [mbind option_bind].
  rewrite Hj. cbn [mbind option_bind]. rewrite Hk.
  cbn [mbind option_bind createTreeNode listeners].
  rewrite decide_True by done.
  unfold node_click.
  split_and!;
    try (cbn [run_handler]; rewrite loadQuestions_sloppy by done; done).
  rewrite question_tree_run_handler.
  cbn [question_tree with_question_tree with_question_tree_display
       with_loading_tree].
  rewrite node_at_after_click, node_at_renderQuestionTree, Hi.
  cbn [mbind option_bind]. rewrite Hj. cbn [mbind option_bind]. by rewrite Hk.
Qed.

Lemma click_requests_subtopic_on_its_path_witness :
  let q := run [Settle 0 (Replied tree_reply); ClickNode 0 1 0]
               (step Loaded served) in
  fetched q = [GetTree; GetQuestions "Math" "Geometry" "Circles"] ∧
  pending q = [LoadQuestions "Math" "Geometry" "Circles"] ∧
  currentSelection q = Some (mkSelection "Math" "Geometry" "Circles") ∧
  (text <$> node_at 0 1 0 (question_tree q)) = Some "Circles (0)".
Proof.
  by apply (click_requests_subtopic_on_its_path (step Loaded served) 0
              tree_reply 0 1 0
              "Math" [("Algebra", [("Linear", "2"); ("Quadratic", "1")]);
                      ("Geometry", [("Circles", "0")])]
              "Geometry" [("Circles", "0")] "Circles" "0").
Defined.

(** In sloppy mode, when the questions of a subtopic cannot be loaded,
    because the request is rejected or the reply is not a success, the
    main area is left empty: the click has hidden the welcome text, the list and the
    detail view, and the failure only raises an alert.  The list keeps
    its old content, hidden. *)
Theorem failed_question_load_leaves_main_area_empty p i j k n
    subject topic subtopic o :
  strict p = false →
  node_at i j k (question_tree p) = Some n →
  listeners n = Some (LoadQuestionsOf subject topic subtopic) →
  failed o →
  let q := run [ClickNode i j k; Settle (length (pending p)) o] p in
  welcome_message q = "none" ∧ question_list q = "none" ∧
  question_detail q = "none" ∧
  questions_container q = questions_container p ∧
  question_count_badge q = question_count_badge p ∧
  pending q = pending p ∧
  ∃ m, alerts q = alerts p ++ [m].
Proof.
  intros Hp Hn Hh Ho. cbn [run foldl].
  assert (step (ClickNode i j k) p
          = loadQuestions subject topic subtopic
              (with_question_tree
                 (alter_node (with_active true) i j k
                    (each_node (with_active false) (question_tree p))) p))
    as ->.
  { cbn [step]. rewrite Hn. cbn [mbind option_bind]. by rewrite Hh. }
  rewrite loadQuestions_sloppy by done.
  set (p1 := showQuestionDetail false _).
  assert (pending p1 = pending p) as <- by done.
  rewrite settle_last.
  destruct o as [e|r]; cbn [failed] in Ho; cbn [resume loadQuestions_resume].
  - split_and!; try done. by eexists.
  - rewrite decide_False by done. split_and!; try done. by eexists.
Qed.

Lemma failed_question_load_leaves_main_area_empty_witness :
  let q := run [ClickNode 1 0 0; Settle 0 (Rejected (Rejection "offline"))]
               listing in
  welcome_message q = "none" ∧ question_list q = "none" ∧
  question_detail q = "none" ∧
  questions_container q = questions_container listing ∧
  question_count_badge q = "2 questions" ∧
  pending q = [] ∧
  ∃ m, alerts q = [] ++ [m].
Proof.
  by apply (failed_question_load_leaves_main_area_empty listing 1 0 0
              (createTreeNode "Lenses (1)" "subtopic"
                 (LoadQuestionsOf "Physics" "Optics" "Lenses"))
              "Physics" "Optics" "Lenses"
              (Rejected (Rejection "offline"))).
Defined.

Lemma welcome_step e p :
  welcome_message (step e p) = welcome_message p ∨
  welcome_message (step e p) = "none".
Proof.
  destruct e as [|i j k|i j k|i j k|i|i|i| |k o]; cbn [step]; try by left.
  - destruct (node_at i j k (question_tree p) ≫= listeners) as [[|s t u]|];
      [by left| |by left].
    unfold node_click. cbn [run_handler].
    unfold loadQuestions, assign_currentSelection.
    destruct (_ && _); [by left|by right].
  - destruct (_ ≫= _); by left.
  - destruct (_ ≫= _); by left.
  - destruct (_ !! _); by left.
  - destruct (pending p !! k) as [[|s t u|questionId m]|]; [..|by left].
    + destruct o as [e|r]; cbn; [by left|]. destruct (decide _); by left.
    + destruct o as [e|r]; cbn [resume loadQuestions_resume]; [by left|].
      destruct (decide _); [|by left].
      unfold assign_currentQuestions. destruct (_ && _); [by left|].
      unfold renderQuestionList. destruct (decide _); by left.
    + destruct o as [e|r]; cbn; [by left|]. destruct (decide _); by left.
Qed.

(** The welcome text is never shown again: no event of the page sets its
    [display] to anything but [none]. *)
Theorem welcome_message_never_shown_again es p :
  welcome_message (run es p) = welcome_message p ∨
  welcome_message (run es p) = "none".
Proof.
  revert p. induction es as [|e es IH]; intros p; [by left|].
  change (run (e :: es) p) with (run es (step e p)).
  destruct (IH (step e p)) as [H|H]; rewrite H;
    [apply welcome_step|by right].
Qed.

Lemma settle_at q (l l' : list Task) a o :
  pending q = l ++ a :: l' →
  step (Settle (length l) o) q = resume a o (with_pending (l ++ l') q).
Proof.
  intros Hq. cbn [step]. rewrite Hq, list_lookup_middle by done.
  by rewrite delete_middle.
Qed.

Lemma click_step p i j k n h :
  node_at i j k (question_tree p) = Some n → listeners n = Some h →
  step (ClickNode i j k) p = node_click i j k h p.
Proof.
  intros Hn Hh. cbn [step]. rewrite Hn. cbn [mbind option_bind].
  by rewrite Hh.
Qed.

Lemma node_click_sloppy i j k subject topic subtopic p :
  strict p = false →
  let q := node_click i j k (LoadQuestionsOf subject topic subtopic) p in
  strict q = false ∧
  pending q = pending p ++ [LoadQuestions subject topic subtopic] ∧
  currentSelection q = Some (mkSelection subject topic subtopic) ∧
  question_tree q
    = alter_node (with_active true) i j k
        (each_node (with_active false) (question_tree p)).
Proof.
  intros Hp. unfold node_click. cbn [run_handler].
  by rewrite loadQuestions_sloppy.
Qed.

Lemma loadQuestions_resume_success subject topic subtopic r p :
  strict p = false → status r = "success" →
  let q := loadQuestions_resume subject topic subtopic (Replied r) p in
  (strict q = false ∧ pending q = pending p ∧
   question_tree q = question_tree p ∧
   currentSelection q = currentSelection p) ∧
  heading (questions_container q)
    = subject +:+ " > " +:+ topic +:+ " > " +:+ subtopic ∧
  shown <$> cards (questions_container q) = questions r ∧
  currentQuestions q = Some (questions r) ∧
  question_list q = "block".
Proof.
  intros Hp Hr. cbv zeta. rewrite loadQuestions_resume_sloppy by done.
  unfold renderQuestionList.
  destruct (decide (length (questions r) = 0)) as [H0|H0].
  - apply nil_length_inv in H0 as Hnil. by rewrite Hnil.
  - split_and!; try done. cbn.
    rewrite <-list_fmap_compose. apply list_fmap_id.
Qed.

(** The list shows the questions of the request answered last, not of
    the subtopic clicked last.  In sloppy mode, after a click on one
    subtopic node and then on another, with the second request answered
    before the first, the list is headed by the first subtopic and holds
    its questions, while the second node is the one marked active and
    [currentSelection] names the second subtopic. *)
Theorem answer_to_earlier_click_replaces_later_one p
    i j k na sa ta ua ra i' j' k' nb sb tb ub rb :
  strict p = false →
  node_at i j k (question_tree p) = Some na →
  listeners na = Some (LoadQuestionsOf sa ta ua) →
  node_at i' j' k' (question_tree p) = Some nb →
  listeners nb = Some (LoadQuestionsOf sb tb ub) →
  status ra = "success" → status rb = "success" →
  let w := length (pending p) in
  let q := run [ClickNode i j k; ClickNode i' j' k';
                Settle (S w) (Replied rb); Settle w (Replied ra)] p in
  heading (questions_container q)
    = sa +:+ " > " +:+ ta +:+ " > " +:+ ua ∧
  shown <$> cards (questions_container q) = questions ra ∧
  currentQuestions q = Some (questions ra) ∧
  question_list q = "block" ∧
  currentSelection q = Some (mkSelection sb tb ub) ∧
  filter (λ m, active m = true) (tree_nodes (question_tree q))
    = [with_active true nb] ∧
  pending q = pending p.
Proof.
  intros Hp Ha Hla Hb Hlb Hra Hrb w q. unfold q. clear q. cbn [run foldl].
  (* the first click *)
  rewrite (click_step p i j k na _ Ha Hla).
  destruct (node_click_sloppy i j k sa ta ua p Hp)
    as (Hs1 & Hp1 & _ & Ht1).
  set (p1 := node_click i j k _ p) in *. clearbody p1.
  assert (node_at i' j' k' (question_tree p1)
          = Some (with_active (bool_decide ((i, j, k) = (i', j', k'))) nb))
    as Hb1 by by rewrite Ht1, node_at_after_click, Hb.
  (* the second click *)
  rewrite (click_step p1 i' j' k' _ (LoadQuestionsOf sb tb ub) Hb1)
    by done.
  destruct (node_click_sloppy i' j' k' sb tb ub p1 Hs1)
    as (Hs2 & Hp2 & Hsel2 & Ht2).
  set (p2 := node_click i' j' k' _ p1) in *. clearbody p2.
  assert (filter (λ m, active m = true) (tree_nodes (question_tree p2))
          = [with_active true nb]) as Hact.
  { rewrite Ht2.
    rewrite (one_active_after_alter _ i' j' k'
               (with_active false
                  (with_active (bool_decide ((i, j, k) = (i', j', k')))
                     nb))); [done|apply inactive_each_node|].
    by rewrite node_at_each_node, Hb1. }
  rewrite Hp1 in Hp2. clear Ht1 Ht2 Hb1 Hp1 Hs1 p1.
  (* the answer to the second request *)
  assert (S w = length (pending p ++ [LoadQuestions sa ta ua])) as ->.
  { rewrite length_app. simpl. unfold w. lia. }
  rewrite (settle_at p2 _ [] (LoadQuestions sb tb ub)) by done.
  rewrite app_nil_r. cbn [resume].
  set (p2' := with_pending _ p2).
  assert (strict p2' = false ∧ question_tree p2' = question_tree p2 ∧
          currentSelection p2' = currentSelection p2 ∧
          pending p2' = pending p ++ [LoadQuestions sa ta ua])
    as (Hs2' & Ht2' & Hsel2' & Hp2') by done.
  clearbody p2'.
  destruct (loadQuestions_resume_success sb tb ub rb p2' Hs2' Hrb)
    as ((Hs3 & Hp3 & Ht3 & Hsel3) & _).
  set (p3 := loadQuestions_resume sb tb ub _ p2') in *. clearbody p3.
  rewrite Hp2' in Hp3. rewrite Ht2' in Ht3. rewrite Hsel2', Hsel2 in Hsel3.
  rewrite <-Ht3 in Hact.
  clear Hp2 Hs2 Hsel2 Hs2' Ht2' Hsel2' Hp2' Ht3 p2 p2'.
  (* the answer to the first request *)
  unfold w. rewrite (settle_at p3 _ [] (LoadQuestions sa ta ua)) by done.
  rewrite app_nil_r. cbn [resume].
  set (p3' := with_pending _ p3).
  assert (strict p3' = false ∧ question_tree p3' = question_tree p3 ∧
          currentSelection p3' = currentSelection p3 ∧
          pending p3' = pending p) as (Hs3' & Ht3' & Hsel3' & Hp3') by done.
  clearbody p3'.
  destruct (loadQuestions_resume_success sa ta ua ra p3' Hs3' Hra)
    as ((_ & Hp4 & Ht4 & Hsel4) & Hhead & Hcards & Hqs & Hlist).
  set (p4 := loadQuestions_resume sa ta ua _ p3') in *. clearbody p4.
  split_and!; [done..| | |]; congruence.
Qed.

Lemma answer_to_earlier_click_replaces_later_one_witness :
  let q := run [ClickNode 0 0 0; ClickNode 1 0 0;
                Settle 1 (Replied (questions_reply []));
                Settle 0 (Replied (questions_reply linear_questions))]
               browsing in
  heading (questions_container q) = "Math > Algebra > Linear" ∧
  shown <$> cards (questions_container q) = linear_questions ∧
  currentQuestions q = Some linear_questions ∧
  question_list q = "block" ∧
  currentSelection q = Some (mkSelection "Physics" "Optics" "Lenses") ∧
  filter (λ m, active m = true) (tree_nodes (question_tree q))
    = [with_active true
         (createTreeNode "Lenses (1)" "subtopic"
            (LoadQuestionsOf "Physics" "Optics" "Lenses"))] ∧
  pending q = [].
Proof.
  by apply (answer_to_earlier_click_replaces_later_one browsing
              0 0 0
              (createTreeNode "Linear (2)" "subtopic"
                 (LoadQuestionsOf "Math" "Algebra" "Linear"))
              "Math" "Algebra" "Linear"
              (questions_reply linear_questions)
              1 0 0
              (createTreeNode "Lenses (1)" "subtopic"
                 (LoadQuestionsOf "Physics" "Optics" "Lenses"))
              "Physics" "Optics" "Lenses" (questions_reply [])).
Defined.

(** What keeps [hide] from ever being called on a modal: it has been made
    and shown, [hide] has not been called on it, and no parked activation
    holds it. *)
Lemma left_open_step (m : nat) e q :
  (m < modals q ∧ (m, Show) ∈ modal_log q ∧ ((m, Hide) ∉ modal_log q) ∧
   (∀ questionId, LoadQuestionDetail questionId m ∉ pending q)) →
  m < modals (step e q) ∧ (m, Show) ∈ modal_log (step e q) ∧
  ((m, Hide) ∉ modal_log (step e q)) ∧
  (∀ questionId, LoadQuestionDetail questionId m ∉ pending (step e q)).
Proof.
  intros (Hm & Hshow & Hhide & Hpend).
  destruct e as [|i j k|i j k|i j k|i|i|i| |k o]; cbn [step]; try done.
  - split_and!; try done. intros questionId. cbn. set_solver.
  - destruct (_ ≫= _) as [[|subject topic subtopic]|]; try done.
    unfold node_click. cbn [run_handler].
    unfold loadQuestions, assign_currentSelection.
    destruct (_ && _); [done|].
    split_and!; try done. intros questionId. cbn. set_solver.
  - by destruct (_ ≫= _).
  - by destruct (_ ≫= _).
  - destruct (_ !! i) as [c|]; [|done]. cbn. split_and!.
    + lia.
    + set_solver.
    + intros [?|Hin]%elem_of_app; [done|]. set_solver.
    + intros questionId [?|Hin]%elem_of_app; [by eapply Hpend|].
      apply list_elem_of_singleton in Hin. injection Hin as _ ->. lia.
  - destruct (pending q !! k) as [a|] eqn:Hk; [|done].
    assert (∀ questionId,
              LoadQuestionDetail questionId m ∉ delete k (pending q))
      as Hdel.
    { intros questionId Hin. apply (Hpend questionId).
      eapply elem_of_submseteq; [exact Hin|].
      apply sublist_submseteq, sublist_delete. }
    destruct a as [|subject topic subtopic|questionId m'];
      cbn [resume].
    + destruct o as [e|r]; cbn; [done|]. by destruct (decide _).
    + destruct o as [e|r]; cbn [loadQuestions_resume]; [done|].
      destruct (decide _); [|done].
      unfold assign_currentQuestions. destruct (_ && _); [done|].
      unfold renderQuestionList. by destruct (decide _).
    + assert (m' ≠ m) as Hne.
      { intros ->. apply (Hpend questionId).
        by eapply list_elem_of_lookup_2. }
      destruct o as [e|r]; cbn; [done|].
      destruct (decide _); cbn; split_and!; try done; set_solver.
Qed.

(** When the request for a question is rejected, [hide] is never called
    on the loading modal that the click has made and shown: the
    activation ends in its [catch] without the call, and nothing that
    happens on the page afterwards makes it (a later click makes a modal
    object of its own). *)
Theorem loading_modal_left_open_after_rejection p i c e es :
  modals_fresh p →
  cards (questions_container p) !! i = Some c →
  let q := run ([ClickCard i; Settle (length (pending p)) (Rejected e)]
                  ++ es) p in
  (modals p, Show) ∈ modal_log q ∧ (modals p, Hide) ∉ modal_log q.
Proof.
  intros [Hpend Hlog] Hc q.
  set (q0 := run [ClickCard i; Settle (length (pending p)) (Rejected e)] p).
  assert (modals p < modals q0 ∧ (modals p, Show) ∈ modal_log q0 ∧
          ((modals p, Hide) ∉ modal_log q0) ∧
          (∀ questionId,
             LoadQuestionDetail questionId (modals p) ∉ pending q0)) as H0.
  { unfold q0. cbn [run foldl].
    assert (step (ClickCard i) p
            = loadQuestionDetail (question_id (shown c)) p) as ->.
    { cbn [step]. by rewrite Hc. }
    unfold loadQuestionDetail.
    set (p1 := with_modal_log _ _).
    assert (pending p1 = pending p) as <- by done.
    rewrite settle_last. cbn. split_and!.
    - lia.
    - set_solver.
    - intros [Hin|Hin]%elem_of_app; [|set_solver].
      apply Hlog in Hin. lia.
    - intros questionId Hin. apply Hpend in Hin. lia. }
  assert (q = run es q0) as ->.
  { unfold q, q0, run. by rewrite foldl_app. }
  clearbody q0. revert q0 H0.
  induction es as [|ev es IH]; intros q0 H0; [by destruct H0 as (_ & ? & ? & _)|].
  change (run (ev :: es) q0) with (run es (step ev q0)).
  apply IH. by apply left_open_step.
Qed.

Lemma loading_modal_left_open_after_rejection_witness :
  let q := run ([ClickCard 1; Settle 0 (Rejected (Rejection "offline"))]
                  ++ [ClickCard 0; Settle 0 (Replied tree_reply); Back])
               listing in
  (0, Show) ∈ modal_log q ∧ (0, Hide) ∉ modal_log q.
Proof.
  apply (loading_modal_left_open_after_rejection listing 1
           (mkCard (mkQuestion "q2" "Slopes" "MCQ" "Hard" "9" "Analyze"
                      "Find the slope") "" "")
           (Rejection "offline") [ClickCard 0; Settle 0 (Replied tree_reply); Back]).
  - split; intros ??; vm_compute; by intros ?%elem_of_nil.
  - reflexivity.
Defined.

(** The spinner of the tree is taken away by a successful answer to the
    tree request and by nothing else: when that request fails, the
    spinner stays. *)
Theorem tree_spinner_hidden_only_by_successful_load e p :
  loading_tree (step e p) ≠ loading_tree p →
  ∃ k r, e = Settle k (Replied r) ∧
         pending p !! k = Some LoadQuestionTree ∧ status r = "success".
Proof.
  intros Hne.
  destruct e as [|i j k|i j k|i j k|i|i|i| |k o]; cbn [step] in Hne;
    try done.
  - destruct (_ ≫= _) as [[|subject topic subtopic]|]; try done.
    unfold node_click in Hne. cbn [run_handler] in Hne.
    unfold loadQuestions, assign_currentSelection in Hne.
    by destruct (_ && _).
  - by destruct (_ ≫= _).
  - by destruct (_ ≫= _).
  - by destruct (_ !! i).
  - destruct (pending p !! k) as [a|] eqn:Hk; [|done].
    destruct a as [|subject topic subtopic|questionId m], o as [err|r];
      cbn [resume loadQuestionTree_resume loadQuestions_resume
           loadQuestionDetail_resume] in Hne; try done.
    + destruct (decide (status r = "success")); [|done]. by exists k, r.
    + destruct (decide _); [|done].
      unfold assign_currentQuestions in Hne. destruct (_ && _); [done|].
      unfold renderQuestionList in Hne. by destruct (decide _).
    + by destruct (decide _).
Qed.

Lemma tree_spinner_hidden_only_by_successful_load_witness :
  ∃ k r, Settle 0 (Replied tree_reply) = Settle k (Replied r) ∧
         pending (step Loaded served) !! k = Some LoadQuestionTree ∧
         status r = "success".
Proof.
  by apply (tree_spinner_hidden_only_by_successful_load
              (Settle 0 (Replied tree_reply)) (step Loaded served)).
Defined.

(** The hover colour of a node can outlive the hover.  The pointer
    enters a node, clicks it and leaves it: the colour is kept, since the
    node is active.  When another node is clicked next, the first one is
    no longer active but still has the hover colour. *)
Theorem hover_colour_survives_deactivation p i j k na ha i' j' k' nb hb :
  node_at i j k (question_tree p) = Some na → listeners na = Some ha →
  active na = false →
  node_at i' j' k' (question_tree p) = Some nb → listeners nb = Some hb →
  (i, j, k) ≠ (i', j', k') →
  let q := run [EnterNode i j k; ClickNode i j k; LeaveNode i j k;
                ClickNode i' j' k'] p in
  node_at i j k (question_tree q)
    = Some (with_backgroundColor "rgba(88, 166, 255, 0.1)" na).
Proof.
  intros Ha Hla Hia Hb Hlb Hne. cbn [run foldl].
  assert (step (EnterNode i j k) p
          = with_question_tree
              (alter_node node_mouseenter i j k (question_tree p)) p) as ->.
  { cbn [step]. rewrite Ha. cbn [mbind option_bind]. by rewrite Hla. }
  set (p1 := with_question_tree _ p).
  assert (node_at i j k (question_tree p1)
          = Some (with_backgroundColor "rgba(88, 166, 255, 0.1)" na) ∧
          node_at i' j' k' (question_tree p1) = Some nb) as [Ha1 Hb1].
  { unfold p1. cbn [question_tree with_question_tree].
    rewrite node_at_alter_node, node_at_alter_node_ne, Ha by done.
    split; [|done]. cbn [fmap option_fmap option_map].
    unfold node_mouseenter. by rewrite Hia. }
  rewrite (click_step p1 i j k _ ha Ha1) by done.
  set (p2 := node_click i j k ha p1).
  assert (node_at i j k (question_tree p2)
          = Some (with_active true
                    (with_backgroundColor "rgba(88, 166, 255, 0.1)" na)) ∧
          node_at i' j' k' (question_tree p2)
          = Some (with_active false nb)) as [Ha2 Hb2].
  { unfold p2, node_click. rewrite question_tree_run_handler.
    cbn [question_tree with_question_tree].
    rewrite !node_at_after_click, Ha1, Hb1.
    by rewrite bool_decide_true, bool_decide_false by done. }
  clearbody p2. clear p1 Ha1 Hb1.
  assert (step (LeaveNode i j k) p2
          = with_question_tree
              (alter_node node_mouseleave i j k (question_tree p2)) p2) as ->.
  { cbn [step]. rewrite Ha2. cbn [mbind option_bind listeners with_active
      with_backgroundColor]. by rewrite Hla. }
  set (p3 := with_question_tree _ p2).
  assert (node_at i j k (question_tree p3)
          = Some (with_active true
                    (with_backgroundColor "rgba(88, 166, 255, 0.1)" na)) ∧
          node_at i' j' k' (question_tree p3)
          = Some (with_active false nb)) as [Ha3 Hb3].
  { unfold p3. cbn [question_tree with_question_tree].
    by rewrite node_at_alter_node, node_at_alter_node_ne, Ha2 by done. }
  clearbody p3. clear p2 Ha2 Hb2.
  rewrite (click_step p3 i' j' k' _ hb Hb3) by done.
  unfold node_click. rewrite question_tree_run_handler.
  cbn [question_tree with_question_tree].
  rewrite node_at_after_click, Ha3, bool_decide_false by done.
  cbn. unfold with_backgroundColor. by rewrite <-Hia; destruct na.
Qed.

Lemma hover_colour_survives_deactivation_witness :
  let q := run [EnterNode 0 0 0; ClickNode 0 0 0; LeaveNode 0 0 0;
                ClickNode 0 0 1] browsing in
  node_at 0 0 0 (question_tree q)
    = Some (with_backgroundColor "rgba(88, 166, 255, 0.1)"
              (createTreeNode "Linear (2)" "subtopic"
                 (LoadQuestionsOf "Math" "Algebra" "Linear"))).
Proof.
  by apply (hover_colour_survives_deactivation browsing 0 0 0
              (createTreeNode "Linear (2)" "subtopic"
                 (LoadQuestionsOf "Math" "Algebra" "Linear"))
              (LoadQuestionsOf "Math" "Algebra" "Linear")
              0 0 1
              (createTreeNode "Quadratic (1)" "subtopic"
                 (LoadQuestionsOf "Math" "Algebra" "Quadratic"))
              (LoadQuestionsOf "Math" "Algebra" "Quadratic")).
Defined.

End practice.

Section practice_detail.
Import Practice.
Implicit Types (p q : State).

(** Opening a question and going back.  A click on a question card
    shows a loading modal and asks for the question; a successful
    answer calls [hide] on that modal, fills the detail view from the
    question of the reply and shows it in place of the list;
    [goBackToList] then shows the list again, with the heading, the
    cards and the badge it had.  The welcome text stays as it was. *)
Theorem detail_and_back_returns_to_list p i c r :
  cards (questions_container p) !! i = Some c →
  status r = "success" →
  let opened := run [ClickCard i; Settle (length (pending p)) (Replied r)] p in
  let q := step Back opened in
  (question_detail opened = "block" ∧ question_list opened = "none") ∧
  (question_detail q = "none" ∧ question_list q = "block") ∧
  (questions_container q = questions_container p ∧
   question_count_badge q = question_count_badge p ∧
   welcome_message q = welcome_message p) ∧
  detail q = mkDetailView (title (question r)) (question_type (question r))
               (difficulty_level (question r)) (estimated_time (question r))
               (bloom_level (question r)) (content (question r)) ∧
  fetched q = fetched p ++ [GetQuestion (question_id (shown c))] ∧
  modal_log q = modal_log p ++ [(modals p, Show); (modals p, Hide)] ∧
  pending q = pending p.
Proof.
  intros Hc Hr opened q.
  assert (opened =
          showQuestionList false
            (showQuestionDetail true
               (renderQuestionDetail (question r)
                  (with_modal_log
                     (modal_log p ++ [(modals p, Show); (modals p, Hide)])
                     (with_fetched
                        (fetched p ++ [GetQuestion (question_id (shown c))])
                        (with_modals (S (modals p)) p)))))) as Hopened.
  { unfold opened. cbn [run foldl].
    assert (step (ClickCard i) p
            = loadQuestionDetail (question_id (shown c)) p) as ->.
    { cbn [step]. by rewrite Hc. }
    unfold loadQuestionDetail.
    set (p1 := with_modal_log _ _).
    assert (pending p1 = pending p) as <- by done.
    rewrite settle_last. cbn [resume loadQuestionDetail_resume].
    rewrite decide_True by done. unfold p1. cbn.
    by rewrite <-app_assoc. }
  unfold q. rewrite Hopened. by destruct p.
Qed.

Lemma detail_and_back_returns_to_list_witness :
  let opened :=
    run [ClickCard 1;
         Settle 0 (Replied (mkReply "success" "" [] []
                              (mkQuestion "q2" "Slopes" "MCQ" "Hard" "9"
                                 "Analyze" "Find the slope")))]
        listing in
  let q := step Back opened in
  (question_detail opened = "block" ∧ question_list opened = "none") ∧
  (question_detail q = "none" ∧ question_list q = "block") ∧
  (questions_container q = questions_container listing ∧
   question_count_badge q = "2 questions" ∧
   welcome_message q = "none") ∧
  detail q = mkDetailView "Slopes" "MCQ" "Hard" "9" "Analyze"
               "Find the slope" ∧
  fetched q = fetched listing ++ [GetQuestion "q2"] ∧
  modal_log q = [] ++ [(0, Show); (0, Hide)] ∧
  pending q = [].
Proof.
  by apply (detail_and_back_returns_to_list listing 1
              (mkCard (mkQuestion "q2" "Slopes" "MCQ" "Hard" "9" "Analyze"
                         "Find the slope") "" "")
              (mkReply "success" "" [] []
                 (mkQuestion "q2" "Slopes" "MCQ" "Hard" "9" "Analyze"
                    "Find the slope"))).
Defined.
End practice_detail.

Section practice_strict.
Import Practice.
Implicit Types (p q : State).

Lemma strict_click_step e p :
  strict p = true → currentSelection p = None →
  currentSelection (step e p) = None ∧
  ∀ subject topic subtopic,
    GetQuestions subject topic subtopic ∈ fetched (step e p) →
    GetQuestions subject topic subtopic ∈ fetched p.
Proof.
  intros Hp Hsel.
  destruct e as [|i j k|i j k|i j k|i|i|i| |k o]; cbn [step]; try done.
  - split; [done|]. intros subject topic subtopic. cbn. set_solver.
  - destruct (_ ≫= _) as [[|subject topic subtopic]|]; try done.
    unfold node_click. cbn [run_handler].
    unfold loadQuestions, assign_currentSelection.
    cbn [strict currentSelection with_question_tree]. by rewrite Hp, Hsel.
  - by destruct (_ ≫= _).
  - by destruct (_ ≫= _).
  - destruct (_ !! i) as [c|]; [|done]. split; [done|].
    intros subject topic subtopic. cbn. set_solver.
  - destruct (pending p !! k) as [a|]; [|done].
    destruct a as [|subject topic subtopic|questionId m], o as [e|r];
      cbn [resume loadQuestionTree_resume loadQuestions_resume
           loadQuestionDetail_resume]; try done.
    + by destruct (decide _).
    + destruct (decide _); [|done].
      unfold assign_currentQuestions. destruct (_ && _); [done|].
      unfold renderQuestionList. by destruct (decide _).
    + by destruct (decide _).
Qed.

(** In strict mode, on a page that does not bind [currentSelection],
    no question is ever asked for.  The first statement of
    [loadQuestions] then raises a [ReferenceError], which its [catch]
    turns into an alert, before any panel is hidden or any request is
    sent: whatever happens on the page, its log of requests never gains
    a request for the questions of a subtopic, and the name stays
    unbound. *)
Theorem strict_mode_never_requests_questions es p :
  strict p = true → currentSelection p = None →
  currentSelection (run es p) = None ∧
  ∀ subject topic subtopic,
    GetQuestions subject topic subtopic ∈ fetched (run es p) →
    GetQuestions subject topic subtopic ∈ fetched p.
Proof.
  revert p. induction es as [|e es IH]; intros p Hp Hsel; [done|].
  change (run (e :: es) p) with (run es (step e p)).
  destruct (strict_click_step e p Hp Hsel) as [Hsel' Hreq].
  destruct (IH (step e p)) as [Hsel'' Hreq'];
    [by rewrite strict_step|done|].
  split; [done|]. intros subject topic subtopic Hin.
  by apply Hreq, Hreq'.
Qed.

Lemma strict_mode_never_requests_questions_witness :
  let q := run [Loaded; Settle 0 (Replied tree_reply); ClickNode 0 0 0]
               served_strict in
  currentSelection q = None ∧
  (∀ subject topic subtopic,
     GetQuestions subject topic subtopic ∈ fetched q →
     GetQuestions subject topic subtopic ∈ fetched served_strict) ∧
  alerts q = ["Network error: currentSelection is not defined"].
Proof.
  destruct (strict_mode_never_requests_questions
              [Loaded; Settle 0 (Replied tree_reply); ClickNode 0 0 0]
              served_strict eq_refl eq_refl) as [Hsel Hreq].
  split_and!; [exact Hsel|exact Hreq|reflexivity].
Defined.
End practice_strict.

(** * More about the markdown input of the question form *)

Section markdown_preview.
Import QuestionForm.
Implicit Types (s : string) (c : Ascii.ascii).

Lemma insertMarkdownFormat_input before after f :
  let v := value (markdownInput f) in
  let start := selectionStart (markdownInput f) in
  let end_ := selectionEnd (markdownInput f) in
  start ≤ end_ → end_ ≤ String.length v →
  let cursor :=
    start + String.length before + (end_ - start) + String.length after in
  markdownInput (insertMarkdownFormat before after f) =
    mkTextarea
      ((String.substring 0 start v +:+ before +:+
        String.substring start (end_ - start) v +:+ after) +:+
       String.substring end_ (String.length v - end_) v)
      cursor cursor.
Proof.
  destruct f as [[v start end_] preview focus].
  cbn [markdownInput value selectionStart selectionEnd]. intros Hse He.
  unfold insertMarkdownFormat, updateMarkdownPreview, setSelectionRange,
    set_value.
  cbn [markdownInput value selectionStart selectionEnd]. cbv zeta.
  unfold substring_from.
  rewrite !substring_in_range by lia. rewrite Nat.sub_0_r.
  rewrite !string_length_app, !string_length_substring by lia.
  rewrite !string_app_assoc. f_equal; lia.
Qed.

Lemma string_substring_app_l s1 s2 :
  String.substring 0 (String.length s1) (s1 +:+ s2) = s1.
Proof.
  induction s1 as [|a s1 IH]; [apply string_substring_0_0|].
  change (String a (String.substring 0 (String.length s1) (s1 +:+ s2))
          = String a s1).
  by rewrite IH.
Qed.

Lemma string_substring_app_r s1 s2 :
  String.substring (String.length s1) (String.length s2) (s1 +:+ s2) = s2.
Proof.
  induction s1 as [|a s1 IH]; [|done].
  change (String.substring 0 (String.length s2) s2 = s2).
  induction s2 as [|b s2 IH]; [done|].
  change (String b (String.substring 0 (String.length s2) s2) = String b s2).
  by rewrite IH.
Qed.

Lemma string_substring_empty s : ∀ n, String.substring n 0 s = "".
Proof.
  induction s as [|a s IH]; intros [|n]; simpl; done.
Qed.

(** Formats do not nest.  A formatting leaves the cursor behind the text
    it has wrapped, with nothing selected; a second formatting right
    after it therefore wraps nothing and only adds its two markers behind
    the first pair. *)
Theorem second_format_wraps_nothing before1 after1 before2 after2 f :
  let v := value (markdownInput f) in
  let start := selectionStart (markdownInput f) in
  let end_ := selectionEnd (markdownInput f) in
  start ≤ end_ → end_ ≤ String.length v →
  let input' :=
    markdownInput
      (insertMarkdownFormat before2 after2
         (insertMarkdownFormat before1 after1 f)) in
  let cursor :=
    start + String.length before1 + (end_ - start) + String.length after1
    + String.length before2 + String.length after2 in
  value input' =
    (String.substring 0 start v +:+ before1 +:+
     String.substring start (end_ - start) v +:+ after1) +:+
    (before2 +:+ after2) +:+
    String.substring end_ (String.length v - end_) v ∧
  selectionStart input' = cursor ∧
  selectionEnd input' = cursor.
Proof.
  intros v start end_ Hse He.
  pose proof (insertMarkdownFormat_input before1 after1 f Hse He) as H1.
  cbv zeta in H1. fold v start end_ in H1.
  set (wrapped := String.substring 0 start v +:+ before1 +:+
                  String.substring start (end_ - start) v +:+ after1) in *.
  set (rest := String.substring end_ (String.length v - end_) v) in *.
  assert (start + String.length before1 + (end_ - start)
          + String.length after1 = String.length wrapped) as Hlen.
  { unfold wrapped.
    rewrite !string_length_app, !string_length_substring by lia. lia. }
  rewrite Hlen in H1.
  set (f1 := insertMarkdownFormat before1 after1 f) in *.
  assert (String.length wrapped
          ≤ String.length (value (markdownInput f1))) as Hin.
  { rewrite H1. cbn [value]. rewrite string_length_app. lia. }
  pose proof (insertMarkdownFormat_input before2 after2 f1) as H2.
  cbv zeta in H2. rewrite H1 in H2.
  cbn [value selectionStart selectionEnd] in H2.
  specialize (H2 (le_n _)). rewrite H1 in Hin. specialize (H2 Hin).
  cbv zeta. rewrite H2. cbn [value selectionStart selectionEnd].
  rewrite Nat.sub_diag, string_substring_app_l.
  rewrite string_length_app, Nat.add_comm, Nat.add_sub.
  rewrite string_substring_app_r.
  rewrite string_substring_empty.
  split; [|lia].
  change ("" +:+ after2) with after2. by rewrite !string_app_assoc.
Qed.

Lemma second_format_wraps_nothing_witness :
  let input' :=
    markdownInput
      (insertMarkdownFormat "*" "*"
         (insertMarkdownFormat "**" "**" sample)) in
  value input' = "**2**** + 2" ∧
  selectionStart input' = 7 ∧ selectionEnd input' = 7.
Proof.
  apply (second_format_wraps_nothing "**" "**" "*" "*" sample); simpl; lia.
Defined.

(** The characters of a string, to speak about white space. *)
Local Abbreviation chars := String.list_ascii_of_string.

Lemma chars_get s i c : String.get i s = Some c → c ∈ chars s.
Proof.
  revert i. induction s as [|a s IH]; intros [|i] Hc; simpl in *; try done.
  - injection Hc as ->. left.
  - right. by eapply IH.
Qed.

Lemma get_chars s c : c ∈ chars s → ∃ i, String.get i s = Some c.
Proof.
  induction s as [|a s IH]; simpl; [by intros ?%elem_of_nil|].
  intros [->|Hin]%elem_of_cons; [by exists 0|].
  destruct (IH Hin) as [i Hi]. by exists (S i).
Qed.

Lemma chars_rev_app s acc :
  chars (String.rev_app s acc) = reverse (chars s) ++ chars acc.
Proof.
  revert acc. induction s as [|a s IH]; intros acc; simpl; [done|].
  rewrite IH, reverse_cons. simpl. by rewrite <-app_assoc.
Qed.

Lemma chars_rev s : chars (String.rev s) = reverse (chars s).
Proof. unfold String.rev. by rewrite chars_rev_app, app_nil_r. Qed.

Lemma trim_start_blank s :
  (∀ c, c ∈ chars s → Ascii.is_space c = true) → trim_start s = "".
Proof.
  induction s as [|a s IH]; intros Hs; simpl; [done|].
  rewrite (Hs a) by left. apply IH. intros c Hc. apply Hs. by right.
Qed.

Lemma trim_start_visible s c :
  c ∈ chars s → Ascii.is_space c = false → c ∈ chars (trim_start s).
Proof.
  intros Hc Hv. induction s as [|a s IH]; simpl in *; [done|].
  destruct (Ascii.is_space a) eqn:Ha; [|done].
  apply elem_of_cons in Hc as [->|Hc]; [congruence|by apply IH].
Qed.

Lemma trim_visible s c :
  c ∈ chars s → Ascii.is_space c = false → c ∈ chars (trim s).
Proof.
  intros Hc Hv. unfold trim.
  rewrite chars_rev. apply elem_of_reverse, trim_start_visible; [|done].
  rewrite chars_rev. by apply elem_of_reverse, trim_start_visible.
Qed.

Lemma is_space_code c :
  Ascii.is_space c = true →
  Ascii.nat_of_ascii c = 32 ∨ 9 ≤ Ascii.nat_of_ascii c ≤ 13.
Proof.
  destruct c as [[] [] [] [] [] [] [] []]; vm_compute; intros; try done;
    lia.
Qed.

(** The preview shows its prompt for a text that is blank, made of
    spaces, tabs and line breaks only, and the trimmed text as soon as
    one visible character is in it.  The text of the input is left as it
    is. *)
Theorem preview_prompt_for_blank_text f :
  let v := value (markdownInput f) in
  let f' := updateMarkdownPreview f in
  markdownInput f' = markdownInput f ∧
  ((∀ i c, String.get i v = Some c → Ascii.is_space c = true) →
   markdownPreview f' = Prompt) ∧
  (∀ i c, String.get i v = Some c → 33 ≤ Ascii.nat_of_ascii c ≤ 126 →
          markdownPreview f' = Parsed (trim v) ∧ trim v ≠ "").
Proof.
  intros v f'. split; [done|]. unfold f', updateMarkdownPreview.
  cbn [markdownPreview]. fold v. clearbody v. clear f'. split.
  - intros Hblank. rewrite decide_True; [done|].
    unfold trim. rewrite (trim_start_blank v); [done|].
    intros c [i Hi]%get_chars. by eapply Hblank.
  - intros i c Hi Hc.
    assert (c ∈ chars (trim v)) as Hin.
    { apply trim_visible; [by eapply chars_get|].
      destruct (Ascii.is_space c) eqn:Hs; [|done].
      apply is_space_code in Hs. lia. }
    assert (trim v ≠ "") as Hne.
    { intros Heq. rewrite Heq in Hin. by apply elem_of_nil in Hin. }
    by rewrite decide_False.
Qed.

Lemma preview_prompt_for_blank_text_witness :
  markdownPreview
    (updateMarkdownPreview (mkForm (mkTextarea "  " 0 0) (Parsed "x") false))
    = Prompt ∧
  markdownPreview
    (updateMarkdownPreview (mkForm (mkTextarea " 2 + 2 " 0 0) Prompt false))
    = Parsed "2 + 2".
Proof.
  split.
  - apply (preview_prompt_for_blank_text
             (mkForm (mkTextarea "  " 0 0) (Parsed "x") false)).
    intros [|[|i]] c Hi; simpl in Hi; try done; by injection Hi as <-.
  - destruct (preview_prompt_for_blank_text
                (mkForm (mkTextarea " 2 + 2 " 0 0) Prompt false))
      as (_ & _ & Hvisible).
    eapply (Hvisible 1); [reflexivity|vm_compute; lia].
Defined.
End markdown_preview.

(** * Properties of the paper form *)

Section paper_form.
Import PaperForm.
Implicit Types (b q : Builder) (r : Result).

(** An empty count field, one that holds no number, or a zero is not
    rejected: ten questions are asked for.  The check of the number of
    questions stops a negative number and nothing else. *)
Theorem count_check_stops_negative_numbers_only b :
  let q := handle (Submit true) b in
  let asks (n : Z) :=
    ∃ criteria, criteria = collectFormData b ∧
      total_questions criteria = n ∧
      posted q = posted b ++ [Generate criteria] ∧
      parked q = parked b ++ [Generating (submit_label b)] ∧
      alerts (page q) = alerts (page b) in
  match parseInt (total_questions_input b) with
  | None => asks 10%Z
  | Some n =>
      if decide (n < 0)%Z then
        posted q = posted b ∧ parked q = parked b ∧
        alerts (page q)
          = alerts (page b) ++ ["Please specify a valid number of questions"]
      else if decide (n = 0)%Z then asks 10%Z
      else asks n
  end.
Proof.
  intros q asks.
  set (b1 := on_page (with_was_validated true) b).
  set (sent :=
         let b2 := with_submit_label (Hourglass "Generating Paper...")
                     (with_submit_disabled true b1) in
         with_parked (parked b2 ++ [Generating (submit_label b1)])
           (with_posted (posted b2 ++ [Generate (collectFormData b)]) b2)).
  assert (q = if decide (total_questions (collectFormData b) ≤ 0)%Z
              then showError "Please specify a valid number of questions" b1
              else sent) as Hq by done.
  assert (total_questions (collectFormData b)
          = or_default (parseInt (total_questions_input b)) 10%Z) as Ht
    by done.
  assert (∀ n, total_questions (collectFormData b) = n → (0 < n)%Z →
               asks n) as Hasks.
  { intros n Hn Hpos. exists (collectFormData b).
    rewrite Hq, decide_False by lia. done. }
  clearbody q. unfold or_default in Ht.
  destruct (parseInt (total_questions_input b)) as [n|].
  - destruct (decide (n < 0)%Z) as [Hneg|Hpos].
    + rewrite decide_False in Ht by lia.
      rewrite Hq, decide_True by lia. done.
    + destruct (decide (n = 0)%Z) as [->|Hnz]; apply Hasks; try done; lia.
  - by apply Hasks.
Qed.

(** The [try] block of [handleFormSubmit] touches neither the submit
    button nor the requests and the parked activations. *)
Lemma generated_frame o b :
  let q := (generated o b).1 in
  submit_disabled q = submit_disabled b ∧ submit_label q = submit_label b ∧
  posted q = posted b ∧ parked q = parked b ∧ strict q = strict b ∧
  resultsModal q = resultsModal b ∧
  was_validated (page q) = was_validated (page b).
Proof.
  destruct o as [e|r]; cbn [generated]; [done|].
  destruct (decide _); [|done].
  unfold assign_currentPaperData, show_resultsModal, displayResults.
  destruct (currentPaperData b) as [d|]; [|destruct (strict b) eqn:Hs];
    cbn [fst resultsModal with_modal_results with_currentPaperData];
    by destruct (resultsModal b) as [[]|] eqn:Hm; cbn; rewrite ?Hm, ?Hs.
Qed.

(** In a global scope that holds no modal object under the name
    [resultsModal] (the script keeps its own in a local constant), a
    paper that was generated is never shown: the answer ends in the
    [catch] block, which raises the alert for a network error, and the
    modal is not opened.  In sloppy mode, or when [currentPaperData] is a
    global variable, the results have been rendered and the paper
    stored by then; in strict mode without that variable, not even
    that. *)
Theorem generated_paper_is_not_shown b k originalText r :
  parked b !! k = Some (Generating originalText) →
  result_status r = "success" ∨ result_status r = "warning" →
  resultsModal b ≠ Some AModal →
  let q := handle (Answer k (Received r)) b in
  shown q = shown b ∧
  (∃ m, alerts (page q) = alerts (page b) ++ ["Network error: " +:+ m]) ∧
  submit_disabled q = false ∧ submit_label q = originalText ∧
  (strict b = false ∨ currentPaperData b ≠ None →
   modal_results q = Rendered r ∧ currentPaperData q = Some (Paper r)) ∧
  (strict b = true → currentPaperData b = None →
   modal_results q = modal_results b ∧ currentPaperData q = None).
Proof.
  intros Hk Hr Hmodal. cbn [handle]. rewrite Hk.
  cbn [resume]. unfold handleFormSubmit_resume.
  cbn [generated]. rewrite decide_True by done.
  unfold assign_currentPaperData, show_resultsModal, displayResults.
  cbn [currentPaperData strict resultsModal with_parked with_modal_results
       with_currentPaperData].
  destruct (currentPaperData b) as [d|] eqn:Hd; [|destruct (strict b) eqn:Hs];
    cbn [currentPaperData strict resultsModal with_parked with_modal_results
         with_currentPaperData].
  - destruct (resultsModal b) as [[complaint|]|]; [|done|];
      (split_and!; [done|by eexists|done..|naive_solver]).
  - split_and!; [done|by eexists|done..|naive_solver|done].
  - destruct (resultsModal b) as [[complaint|]|]; [|done|];
      (split_and!; [done|by eexists|done..]).
Qed.

Lemma generated_paper_is_not_shown_witness :
  let q := handle (Answer 0 (Received generated_paper))
             (handle (Submit true) fresh) in
  shown q = 0 ∧
  (∃ m, alerts (page q) = [] ++ ["Network error: " +:+ m]) ∧
  submit_disabled q = false ∧ submit_label q = Markup "Generate Paper" ∧
  (false = false ∨ @None Data ≠ None →
   modal_results q = Rendered generated_paper ∧
   currentPaperData q = Some (Paper generated_paper)) ∧
  (false = true → @None Data = None →
   modal_results q = NoResults ∧ currentPaperData q = None).
Proof.
  apply (generated_paper_is_not_shown (handle (Submit true) fresh) 0
           (Markup "Generate Paper") generated_paper);
    [reflexivity|by left|done].
Defined.

(** Whatever the answer to the request for a paper, and whatever the
    global scope, the submit button ends up enabled and with the label
    it had when the form was submitted. *)
Theorem submit_button_restored b o :
  (0 < total_questions (collectFormData b))%Z →
  let sent := handle (Submit true) b in
  let q := handle (Answer (length (parked b)) o) sent in
  (submit_disabled sent = true ∧
   submit_label sent = Hourglass "Generating Paper...") ∧
  submit_disabled q = false ∧ submit_label q = submit_label b ∧
  parked q = parked b ∧ was_validated (page q) = true.
Proof.
  intros Hpos sent q.
  assert (sent =
          let b1 := on_page (with_was_validated true) b in
          let b2 := with_submit_label (Hourglass "Generating Paper...")
                      (with_submit_disabled true b1) in
          with_parked (parked b ++ [Generating (submit_label b)])
            (with_posted (posted b ++ [Generate (collectFormData b)]) b2))
    as Hsent.
  { unfold sent. cbn [handle]. unfold handleFormSubmit. cbn [negb].
    set (b1 := on_page (with_was_validated true) b).
    assert (collectFormData b1 = collectFormData b) as -> by done.
    by rewrite decide_False by lia. }
  split; [by rewrite Hsent|].
  unfold q. cbn [handle].
  assert (parked sent = parked b ++ [Generating (submit_label b)]) as Hp
    by by rewrite Hsent.
  rewrite Hp, list_lookup_middle by done. cbn [resume].
  rewrite delete_middle, app_nil_r.
  unfold handleFormSubmit_resume.
  pose proof (generated_frame o (with_parked (parked b) sent)) as Hframe.
  destruct (generated o (with_parked (parked b) sent)) as [b' [error|]];
    cbn [fst] in Hframe; destruct Hframe as (_ & _ & _ & ? & _ & _ & Hv);
    cbn; (split_and!; [done..|]); rewrite Hv, Hsent; done.
Qed.

Lemma submit_button_restored_witness :
  let sent := handle (Submit true) fresh in
  let q := handle (Answer 0 (Refused (Rejection "offline"))) sent in
  (submit_disabled sent = true ∧
   submit_label sent = Hourglass "Generating Paper...") ∧
  submit_disabled q = false ∧ submit_label q = Markup "Generate Paper" ∧
  parked q = [] ∧ was_validated (page q) = true.
Proof.
  apply (submit_button_restored fresh (Refused (Rejection "offline"))).
  vm_compute. done.
Defined.

Lemma paper_data_step e b :
  currentPaperData b ≠ Some Null →
  currentPaperData (handle e b) ≠ Some Null.
Proof.
  intros Hb. destruct e as [e|valid|answer|k o]; cbn [handle].
  - done.
  - unfold handleFormSubmit. destruct valid; cbn [negb]; [|done].
    by destruct (decide _).
  - unfold savePaper. destruct (currentPaperData b) as [[|data]|] eqn:Hd;
      try done.
    + destruct answer as [filename|]; [|by rewrite Hd].
      destruct (decide _); cbn; by rewrite Hd.
    + cbn. by rewrite Hd.
  - destruct (parked b !! k) as [[originalText|]|]; [| |done].
    + cbn [resume]. unfold handleFormSubmit_resume.
      destruct o as [e|r]; cbn [generated]; [done|].
      destruct (decide _); [|done].
      unfold assign_currentPaperData, show_resultsModal.
      cbn [currentPaperData strict with_parked].
      destruct (currentPaperData b) as [d|] eqn:Hd;
        [|destruct (strict b)]; cbn;
        try (destruct (resultsModal b) as [[]|]; done).
      by rewrite Hd.
    + cbn [resume]. destruct o as [e|r]; cbn; [done|].
      by destruct (decide _).
Qed.

(** The alert that there is no paper to save cannot be reached from the
    scope the script sets up.  Unless the global scope binds
    [currentPaperData] to an empty value from the start, a click on the
    save button never raises an alert by itself, whatever happened on
    the page before: as long as no paper has been stored the name is
    unbound, and the click ends with a [ReferenceError] that nothing
    catches, without a prompt and without a request. *)
Theorem no_paper_alert_is_unreachable es b answer :
  currentPaperData b ≠ Some Null →
  let q := handle_all es b in
  let q' := handle (ClickSave answer) q in
  alerts (page q') = alerts (page q) ∧
  (currentPaperData q = None →
   uncaught (page q')
     = uncaught (page q) ++ [ReferenceError "currentPaperData"] ∧
   posted q' = posted q ∧ parked q' = parked q).
Proof.
  intros Hb q q'.
  assert (currentPaperData q ≠ Some Null) as Hq.
  { unfold q. clear q q'. revert b Hb.
    induction es as [|e es IH]; intros b Hb; [done|].
    apply IH. by apply paper_data_step. }
  unfold q'. clearbody q. clear q'. cbn [handle]. unfold savePaper.
  destruct (currentPaperData q) as [[|data]|]; [done| |done].
  split; [|done]. destruct answer as [filename|]; [|done].
  by destruct (decide _).
Qed.

Lemma no_paper_alert_is_unreachable_witness :
  let q := handle_all [Submit true; Answer 0 (Refused (Rejection "offline"))]
             fresh in
  let q' := handle (ClickSave (Some "paper")) q in
  alerts (page q') = alerts (page q) ∧
  (currentPaperData q = None →
   uncaught (page q')
     = uncaught (page q) ++ [ReferenceError "currentPaperData"] ∧
   posted q' = posted q ∧ parked q' = parked q).
Proof.
  by apply (no_paper_alert_is_unreachable
              [Submit true; Answer 0 (Refused (Rejection "offline"))]
              fresh (Some "paper")).
Defined.

Lemma add_difficulty_lookup inputs :
  ∀ acc level n,
    foldl add_difficulty acc inputs !! level = Some n →
    acc !! level = Some n ∨
    ((0 < n)%Z ∧ level ≠ "__proto__" ∧
     ∃ input, input ∈ inputs ∧
       level = capitalize (remove_first "difficulty_" input.1) ∧
       parseInt input.2 = Some n).
Proof.
  induction inputs as [|input inputs IH]; intros acc level n Hn;
    [by left|].
  cbn [foldl] in Hn. apply IH in Hn as [Hn|(? & ? & input' & ? & ? & ?)].
  - unfold add_difficulty in Hn.
    destruct (decide (0 < or_default (parseInt input.2) 0)%Z) as [Hpos|];
      [|by left].
    destruct (decide (capitalize _ = "__proto__")) as [|Hproto]; [by left|].
    apply lookup_insert_Some in Hn as [[<- <-]|[_ Hn]]; [|by left].
    right. split_and!; [done..|].
    exists input. split_and!; [left|done|].
    unfold or_default in Hpos |- *.
    destruct (parseInt input.2) as [m|]; [|lia].
    destruct (decide (m = 0)%Z); [lia|done].
  - right. split_and!; [done..|]. exists input'. split_and!; [by right|done..].
Qed.

(** The difficulty distribution that is submitted holds positive counts
    only, each read from one of the difficulty inputs under the
    capitalised name of its level, and it is left out of the criteria
    when no input holds a positive count: an empty distribution, a zero,
    a negative count or a count that is no number is never sent. *)
Theorem collected_difficulty_counts_are_positive b d :
  difficulty_distribution (collectFormData b) = Some d →
  d ≠ ∅ ∧
  ∀ level n, d !! level = Some n →
    (0 < n)%Z ∧ level ≠ "__proto__" ∧
    ∃ input, input ∈ difficulty_inputs b ∧
      level = capitalize (remove_first "difficulty_" input.1) ∧
      parseInt input.2 = Some n.
Proof.
  unfold collectFormData. cbn [difficulty_distribution].
  destruct (decide (foldl add_difficulty ∅ (difficulty_inputs b) = ∅))
    as [|Hne]; [done|].
  intros [= <-]. split; [done|]. intros level n Hn.
  apply add_difficulty_lookup in Hn as [Hn|Hn]; [|done].
  by rewrite lookup_empty in Hn.
Qed.

Lemma collected_difficulty_counts_are_positive_witness :
  ({[ "Easy" := 3%Z ]} : gmap string Z) ≠ ∅ ∧
  ∀ level n, ({[ "Easy" := 3%Z ]} : gmap string Z) !! level = Some n →
    (0 < n)%Z ∧ level ≠ "__proto__" ∧
    ∃ input, input ∈ difficulty_inputs fresh ∧
      level = capitalize (remove_first "difficulty_" input.1) ∧
      parseInt input.2 = Some n.
Proof.
  apply (collected_difficulty_counts_are_positive fresh). reflexivity.
Defined.

End paper_form.
